(** * The portfolio application core, embedded in Rocq

    A shallow embedding of the in-browser application core of the portfolio
    page: the log sink (class [Logger], [src/js/logger.js]), the key-value
    state store with its observers (class [StateManager], in
    [src/js/main.js]), the performance metrics collector (class
    [PerformanceMonitor], [src/unnamed/part_004]) and the sibling
    navigation of the transition sequencer (class [NavigationManager], in
    [src/js/ui-manager.js], with the [AudioManager] and [CONFIG] of
    [src/js/config.js]).

    JavaScript objects live in an explicit heap and are referred to by
    address, so that strict equality on objects is identity and two
    references to one object observe each other's writes.  Code that can
    throw runs in a state-and-exception monad over the [World]. *)

From Stdlib Require Import ZArith Lia Ascii String.
From stdpp Require Import gmap strings list pretty.

Local Open Scope Z_scope.
Local Open Scope string_scope.
Local Open Scope list_scope.

(* ===================================================================== *)
(** * Part I: the model                                                    *)
(* ===================================================================== *)

(** ** JavaScript values and the runtime *)

Module JS.

Definition loc := nat.

(** Primitive values and references.  Numbers are the integers (enough
    for indices and counters) plus [NaN], which strict equality treats
    specially.  [VRef] is a reference to a plain object in the heap. *)
Inductive val :=
| VUndefined
| VNull
| VBool (b : bool)
| VNum (n : Z)
| VNaN
| VStr (s : string)
| VRef (l : loc).

#[global] Instance value_eq_dec : EqDecision val.
Proof. solve_decision. Defined.

(** [a === b] *)
Definition strict_eq (a b : val) : bool :=
  match a, b with
  | VUndefined, VUndefined => true
  | VNull, VNull => true
  | VBool x, VBool y => bool_decide (x = y)
  | VNum x, VNum y => bool_decide (x = y)
  | VStr x, VStr y => bool_decide (x = y)
  | VRef x, VRef y => bool_decide (x = y)
  | _, _ => false
  end.

(** ToBoolean, as used by [||] and [if]. *)
Definition truthy (v : val) : bool :=
  match v with
  | VUndefined | VNull | VNaN => false
  | VBool b => b
  | VNum n => negb (bool_decide (n = 0))
  | VStr s => negb (bool_decide (s = ""))
  | VRef _ => true
  end.

(** [a || b] on already evaluated operands. *)
Definition or_else (a b : val) : val := if truthy a then a else b.

(** A parameter default [x = null]: taken when the argument is
    [undefined]. *)
Definition default_null (v : val) : val :=
  match v with VUndefined => VNull | _ => v end.

(** ToString inside a template literal. *)
Definition to_string (v : val) : string :=
  match v with
  | VUndefined => "undefined"
  | VNull => "null"
  | VBool true => "true"
  | VBool false => "false"
  | VNum n => pretty n
  | VNaN => "NaN"
  | VStr s => s
  | VRef _ => "[object Object]"
  end.

(** A plain object: its own data properties, all of them writable.  It
    inherits from [Object.prototype]. *)
Abbreviation props := (gmap string val).

(** The names of the properties of [Object.prototype]. *)
Definition Object_prototype : list string :=
  ["constructor"; "hasOwnProperty"; "isPrototypeOf"; "propertyIsEnumerable";
   "toLocaleString"; "toString"; "valueOf"; "__proto__";
   "__defineGetter__"; "__defineSetter__";
   "__lookupGetter__"; "__lookupSetter__"].

Inductive ConsoleMethod := CLog | CInfo | CWarn | CError | CClear.

#[global] Instance ConsoleMethod_eq_dec : EqDecision ConsoleMethod.
Proof. solve_decision. Defined.

(** One call [console.method(text, arg)]. *)
Record ConsoleCall := {
  c_method : ConsoleMethod;
  c_text : string;
  c_arg : val
}.

(** An entry of the Performance timeline. *)
Inductive PerfKind := PMark | PMeasure.

#[global] Instance PerfKind_eq_dec : EqDecision PerfKind.
Proof. solve_decision. Defined.

Record PerfEntry := {
  pe_name : string;
  pe_kind : PerfKind;
  pe_startTime : Z;
  pe_duration : Z
}.

(** What the page reads from the browser. *)
Record Window := {
  hostname : string;                 (* window.location.hostname *)
  href : string;                     (* window.location.href *)
  toISOString : nat -> string;       (* new Date().toISOString(), by clock reading *)
  dateNow : nat -> Z;                (* Date.now(), by clock reading *)
  performanceSupported : bool;       (* 'performance' in window && 'mark' in window.performance *)
  toFixed2 : Z -> string             (* Number.prototype.toFixed(2) *)
}.

(** The logger singleton ([Logger.instance]). *)
Record Logger := {
  logs : loc;                        (* this.logs: address of the history array *)
  maxLogs : nat;
  isDevelopment : bool
}.

(** One call [callback(newValue, oldValue)] made by the state store on
    behalf of the observers of [i_key]. *)
Record Invocation := {
  i_key : string;
  i_callback : nat;
  i_newValue : val;
  i_oldValue : val
}.

#[global] Instance Invocation_eq_dec : EqDecision Invocation.
Proof. solve_decision. Defined.

Record World := {
  window : Window;
  heap : list props;                 (* plain objects, by address *)
  arrays : list (list val);        (* arrays, by address *)
  console : list ConsoleCall;        (* console output, oldest first *)
  clock : nat;                       (* clock readings taken so far *)
  timeline : list PerfEntry;         (* the Performance timeline *)
  invocations : list Invocation;     (* observer calls, oldest first *)
  logger : Logger
}.

Definition with_heap (h : list props) (w : World) : World :=
  {| window := window w; heap := h; arrays := arrays w; console := console w;
     clock := clock w; timeline := timeline w; invocations := invocations w;
     logger := logger w |}.

Definition with_arrays (a : list (list val)) (w : World) : World :=
  {| window := window w; heap := heap w; arrays := a; console := console w;
     clock := clock w; timeline := timeline w; invocations := invocations w;
     logger := logger w |}.

Definition with_console (c : list ConsoleCall) (w : World) : World :=
  {| window := window w; heap := heap w; arrays := arrays w; console := c;
     clock := clock w; timeline := timeline w; invocations := invocations w;
     logger := logger w |}.

Definition with_clock (n : nat) (w : World) : World :=
  {| window := window w; heap := heap w; arrays := arrays w; console := console w;
     clock := n; timeline := timeline w; invocations := invocations w;
     logger := logger w |}.

Definition with_timeline (t : list PerfEntry) (w : World) : World :=
  {| window := window w; heap := heap w; arrays := arrays w; console := console w;
     clock := clock w; timeline := t; invocations := invocations w;
     logger := logger w |}.

Definition with_invocations (i : list Invocation) (w : World) : World :=
  {| window := window w; heap := heap w; arrays := arrays w; console := console w;
     clock := clock w; timeline := timeline w; invocations := i;
     logger := logger w |}.

Definition with_logger (l : Logger) (w : World) : World :=
  {| window := window w; heap := heap w; arrays := arrays w; console := console w;
     clock := clock w; timeline := timeline w; invocations := invocations w;
     logger := l |}.

(** *** Computations that may throw *)

(** A computation returns, throws, or leaves what the model describes:
    it comes to a built-in object of the engine (a value found on a
    prototype, a write that a prototype decides), or to an observer that
    calls back into the store.  Of a run that ends in [Beyond] the model
    says nothing. *)
Inductive Result (A : Type) :=
| Ok (a : A) (w : World)
| Throw (e : val) (w : World)
| Beyond (w : World).
Arguments Ok {A} a w.
Arguments Throw {A} e w.
Arguments Beyond {A} w.

Definition M (A : Type) := World -> Result A.

Definition ret {A} (a : A) : M A := fun w => Ok a w.

Definition bind {A B} (m : M A) (f : A -> M B) : M B :=
  fun w => match m w with
           | Ok a w' => f a w'
           | Throw e w' => Throw e w'
           | Beyond w' => Beyond w'
           end.

Definition throw {A} (e : val) : M A := fun w => Throw e w.

(** [try { m } catch (error) { h error }] *)
Definition try_catch {A} (m : M A) (h : val -> M A) : M A :=
  fun w => match m w with
           | Ok a w' => Ok a w'
           | Throw e w' => h e w'
           | Beyond w' => Beyond w'
           end.

Definition beyond {A} : M A := fun w => Beyond w.

Definition gets {A} (f : World -> A) : M A := fun w => Ok (f w) w.
Definition modify (f : World -> World) : M unit := fun w => Ok tt (f w).

Definition world_of {A} (r : Result A) : World :=
  match r with Ok _ w => w | Throw _ w => w | Beyond w => w end.

Definition returns {A} (r : Result A) : bool :=
  match r with Ok _ _ => true | Throw _ _ => false | Beyond _ => false end.

Declare Scope js_scope.
Delimit Scope js_scope with js.
Notation "'let!' x ':=' m 'in' k" := (bind m (fun x => k))
  (at level 10, x name, m at level 100, k at level 200) : js_scope.
Notation "'do!' m 'in' k" := (bind m (fun _ => k))
  (at level 10, m at level 100, k at level 200) : js_scope.
Local Open Scope js_scope.

(** [for (const x of xs) body(x)] *)
Fixpoint for_of {A} (xs : list A) (body : A -> M unit) : M unit :=
  match xs with
  | [] => ret tt
  | x :: rest => do! body x in for_of rest body
  end.

(** A loop whose turns hand a value on, the first from [s]. *)
Fixpoint fold_of {A S} (xs : list A) (body : S -> A -> M S) (s : S) : M S :=
  match xs with
  | [] => ret s
  | x :: rest => let! s := body s x in fold_of rest body s
  end.

(** *** Objects *)

(** An object literal: a fresh object with the given properties. *)
Definition new_object (p : props) : M loc :=
  fun w => Ok (length (heap w)) (with_heap (heap w ++ [p]) w).

(** The own properties of the object at [l]. *)
Definition props_at (w : World) (l : loc) : props :=
  default ∅ (heap w !! l).

(** A [TypeError] raised by the engine. *)
Definition throw_TypeError {A} (message : string) : M A :=
  let! e := new_object (<["name" := VStr "TypeError"]>
                        (<["message" := VStr message]> ∅)) in
  throw (VRef e).

(** The own properties of a string: [length] and the indices. *)
Definition string_member (s : string) (k : string) : option val :=
  if bool_decide (k = "length") then Some (VNum (Z.of_nat (String.length s)))
  else
    i ← head (filter (fun i => pretty (Z.of_nat i) = k) (seq 0 (String.length s)));
    c ← String.get i s;
    Some (VStr (String c "")).

(** Where the engine finds the property [k] of a value other than
    [undefined] and [null]: among its own properties, nowhere, or with
    the built-in objects.  A plain object has its own data properties
    and, from [Object.prototype], the names of [Object_prototype]; a
    string has [length] and its indices; what else the prototypes of
    strings, numbers and booleans hold is not described. *)
Inductive Lookup :=
| found (v : val)
| absent
| builtin.

Definition lookup_member (w : World) (target : val) (k : string) : Lookup :=
  match target with
  | VRef l =>
      match props_at w l !! k with
      | Some v => found v
      | None => if bool_decide (k ∈ Object_prototype) then builtin else absent
      end
  | VStr s =>
      match string_member s k with
      | Some v => found v
      | None => builtin
      end
  | _ => builtin
  end.

(** [k in target]: a [TypeError] unless [target] is an object; inherited
    properties count. *)
Definition has_property (target : val) (k : string) : M bool :=
  match target with
  | VRef l =>
      gets (fun w => match lookup_member w target k with
                     | absent => false
                     | _ => true
                     end)
  | _ => throw_TypeError ("Cannot use 'in' operator to search for '" +:+ k
                          +:+ "' in " +:+ to_string target)
  end.

(** [target[k]]: a [TypeError] on [undefined] and [null]. *)
Definition get_member (target : val) (k : string) : M val :=
  match target with
  | VUndefined | VNull =>
      throw_TypeError ("Cannot read properties of " +:+ to_string target)
  | _ =>
      fun w => match lookup_member w target k with
               | found v => Ok v w
               | absent => Ok VUndefined w
               | builtin => Beyond w
               end
  end.

(** [target?.[k]] *)
Definition get_optional (target : val) (k : string) : M val :=
  match target with
  | VUndefined | VNull => ret VUndefined
  | _ => get_member target k
  end.

(** [target[k] = v] in strict mode (the sources are ES modules): a
    [TypeError] on [undefined] and [null] and on the properties of a
    string, which are read-only; an own property of an object is
    written, an absent one created; what a property of a prototype makes
    of the write is not described. *)
Definition put_member (target : val) (k : string) (v : val) : M unit :=
  match target with
  | VUndefined | VNull =>
      throw_TypeError ("Cannot set properties of " +:+ to_string target)
  | _ =>
      fun w => match lookup_member w target k with
               | builtin => Beyond w
               | _ =>
                   match target with
                   | VRef l =>
                       Ok tt (with_heap (<[l := <[k := v]> (props_at w l)]>
                                           (heap w)) w)
                   | _ => throw_TypeError
                            ("Cannot assign to read only property '" +:+ k
                             +:+ "' of " +:+ to_string target) w
                   end
               end
  end.

(** The own data property [k] of the object [target]; [undefined] when
    there is none, and when [target] is not an object. *)
Definition own_property (w : World) (target : val) (k : string) : val :=
  match target with
  | VRef l => default VUndefined (props_at w l !! k)
  | _ => VUndefined
  end.

(** *** Arrays *)

Definition new_array (elems : list val) : M loc :=
  fun w => Ok (length (arrays w)) (with_arrays (arrays w ++ [elems]) w).

Definition elems_at (w : World) (a : loc) : list val :=
  default [] (arrays w !! a).

Definition put_elems (a : loc) (elems : list val) : M unit :=
  modify (fun w => with_arrays (<[a := elems]> (arrays w)) w).

(** [arr.push(x)] *)
Definition push (a : loc) (x : val) : M unit :=
  let! elems := gets (fun w => elems_at w a) in put_elems a (elems ++ [x]).

(** [arr.shift()] *)
Definition shift (a : loc) : M unit :=
  let! elems := gets (fun w => elems_at w a) in put_elems a (tail elems).

(** *** Clock and console *)

(** [new Date().toISOString()] *)
Definition date_toISOString : M string :=
  fun w => Ok (toISOString (window w) (clock w)) (with_clock (S (clock w)) w).

(** [Date.now()] *)
Definition date_now : M Z :=
  fun w => Ok (dateNow (window w) (clock w)) (with_clock (S (clock w)) w).

Definition console_call (m : ConsoleMethod) (text : string) (arg : val) : M unit :=
  modify (fun w => with_console
            (console w ++ [{| c_method := m; c_text := text; c_arg := arg |}]) w).

(** *** Well-formed heaps *)

(** A reference is allocated when it refers to an object of the heap. *)
Definition allocated (w : World) (v : val) : Prop :=
  match v with
  | VRef l => (l < length (heap w))%nat
  | _ => True
  end.

#[global] Instance allocated_dec w v : Decision (allocated w v).
Proof. destruct v; simpl; apply _. Defined.

(** A heap is closed when every reference stored in it is allocated: the
    engine never makes a dangling reference. *)
Definition closed (w : World) : Prop :=
  Forall (fun p : props => map_Forall (fun _ v => allocated w v) p) (heap w).

#[global] Instance closed_dec w : Decision (closed w).
Proof. unfold closed. apply _. Defined.

(** Nothing but the heap differs between two worlds. *)
Definition only_heap_differs (w w' : World) : Prop :=
  arrays w' = arrays w ∧
  console w' = console w ∧
  clock w' = clock w ∧
  timeline w' = timeline w ∧
  invocations w' = invocations w ∧
  logger w' = logger w ∧
  window w' = window w.

End JS.

(** ** The log sink: class [Logger] of [src/js/logger.js] *)

Module Logger.
Import JS.
Local Open Scope js_scope.

Module LogLevel.
Definition DEBUG : string := "DEBUG".
Definition INFO : string := "INFO".
Definition WARN : string := "WARN".
Definition ERROR : string := "ERROR".
End LogLevel.

(** [constructor()]: installs [Logger.instance].  The module calls it
    once, through [getInstance()]. *)
Definition constructor : M unit :=
  let! a := new_array [] in
  let! host := gets (fun w => hostname (window w)) in
  modify (with_logger
            {| logs := a;
               maxLogs := 100;
               isDevelopment := bool_decide (host = "localhost")
                                || bool_decide (host = "127.0.0.1") |}).

(** The literal [{ timestamp, level, message, data, url }]. *)
Definition entry_literal (timestamp level message : string) (data : val)
  (url : string) : props :=
  <["timestamp" := VStr timestamp]>
    (<["level" := VStr level]>
       (<["message" := VStr message]>
          (<["data" := data]>
             (<["url" := VStr url]> ∅)))).

(** [formatLog(level, message, data = null)] *)
Definition formatLog (level message : string) (data : val) : M val :=
  let! timestamp := date_toISOString in
  let! url := gets (fun w => href (window w)) in
  let! entry := new_object
                  (entry_literal timestamp level message (default_null data) url) in
  ret (VRef entry).

(** [addToHistory(logEntry)] *)
Definition addToHistory (logEntry : val) : M unit :=
  let! this := gets logger in
  do! push (logs this) logEntry in
  let! len := gets (fun w => length (elems_at w (logs this))) in
  if bool_decide (maxLogs this < len)%nat then shift (logs this) else ret tt.

(** The text [`[${timestamp}] ${icon} ${message}`]. *)
Definition render (timestamp icon message : string) : string :=
  "[" +:+ timestamp +:+ "] " +:+ icon +:+ " " +:+ message.

(** The same with [logEntry.timestamp] read from the entry. *)
Definition console_text (logEntry : val) (icon message : string) : M string :=
  let! timestamp := get_member logEntry "timestamp" in
  ret (render (to_string timestamp) icon message).

(** [debug(message, data = null)] *)
Definition debug (message : string) (data : val) : M unit :=
  let data := default_null data in
  let! logEntry := formatLog LogLevel.DEBUG message data in
  do! addToHistory logEntry in
  let! this := gets logger in
  if isDevelopment this then
    let! text := console_text logEntry "🔍" message in
    console_call CLog text (or_else data (VStr ""))
  else ret tt.

(** [info(message, data = null)] *)
Definition info (message : string) (data : val) : M unit :=
  let data := default_null data in
  let! logEntry := formatLog LogLevel.INFO message data in
  do! addToHistory logEntry in
  let! this := gets logger in
  if isDevelopment this then
    let! text := console_text logEntry "ℹ️" message in
    console_call CInfo text (or_else data (VStr ""))
  else ret tt.

(** [warn(message, data = null)] *)
Definition warn (message : string) (data : val) : M unit :=
  let data := default_null data in
  let! logEntry := formatLog LogLevel.WARN message data in
  do! addToHistory logEntry in
  let! text := console_text logEntry "⚠️" message in
  console_call CWarn text (or_else data (VStr "")).

(** [error(message, error = null)].  [error?.message] and [error?.stack]
    are own properties where there are any: no prototype of a plain
    object, a string, a number or a boolean has a property of either
    name. *)
Definition error (message : string) (error : val) : M unit :=
  let error := default_null error in
  let! errorMessage := gets (fun w => own_property w error "message") in
  let! stack := gets (fun w => own_property w error "stack") in
  let! data := new_object (<["error" := or_else errorMessage error]>
                           (<["stack" := stack]> ∅)) in
  let! logEntry := formatLog LogLevel.ERROR message (VRef data) in
  do! addToHistory logEntry in
  let! text := console_text logEntry "❌" message in
  console_call CError text (or_else error (VStr "")).

(** [getLogs()]: [[...this.logs]], a new array with the same elements. *)
Definition getLogs : M loc :=
  let! this := gets logger in
  let! elems := gets (fun w => elems_at w (logs this)) in
  new_array elems.

(** [xs.filter(log => log.level === level)] *)
Fixpoint filter_by_level (level : val) (xs : list val) : M (list val) :=
  match xs with
  | [] => ret []
  | log :: rest =>
      let! l := get_member log "level" in
      let! kept := filter_by_level level rest in
      ret (if strict_eq l level then log :: kept else kept)
  end.

(** [getLogsByLevel(level)] *)
Definition getLogsByLevel (level : val) : M loc :=
  let! this := gets logger in
  let! elems := gets (fun w => elems_at w (logs this)) in
  let! kept := filter_by_level level elems in
  new_array kept.

(** [clear()] *)
Definition clear : M unit :=
  let! a := new_array [] in
  do! modify (fun w => with_logger {| logs := a;
                                      maxLogs := maxLogs (logger w);
                                      isDevelopment := isDevelopment (logger w) |} w) in
  let! this := gets logger in
  if isDevelopment this then console_call CClear "" VUndefined else ret tt.

(** *** Observing the history *)

(** The elements of [this.logs], oldest first. *)
Definition history (w : World) : list val :=
  elems_at w (logs (logger w)).

(** What a reader of the history sees of one entry: its fields, and for
    an entry made by [error] the fields of its data object. *)
Record LogEntry := {
  timestamp : val;
  level : val;
  message : val;
  data : val;
  data_error : val;
  data_stack : val;
  url : val
}.

#[global] Instance LogEntry_eq_dec : EqDecision LogEntry.
Proof. solve_decision. Defined.

Definition read_entry (w : World) (entry : val) : LogEntry :=
  let d := own_property w entry "data" in
  {| timestamp := own_property w entry "timestamp";
     level := own_property w entry "level";
     message := own_property w entry "message";
     data := d;
     data_error := own_property w d "error";
     data_stack := own_property w d "stack";
     url := own_property w entry "url" |}.

Definition snapshot (w : World) : list LogEntry :=
  map (read_entry w) (history w).

(** The history after [addToHistory] has appended to [l], for a capacity
    of [cap]. *)
Definition retain {A} (cap : nat) (l : list A) : list A :=
  if bool_decide (cap < length l)%nat then tail l else l.

(** The last [n] elements of a list. *)
Definition last_n {A} (n : nat) (l : list A) : list A :=
  drop (length l - n) l.

(** What one logging call changes in the world: it allocates the objects
    [new], leaves [hist] as the history, prints [lines] and reads the
    clock once. *)
Definition logged (w w' : World) (new : list props) (hist : list val)
  (lines : list ConsoleCall) : Prop :=
  heap w' = heap w ++ new ∧
  arrays w' = <[logs (logger w) := hist]> (arrays w) ∧
  console w' = console w ++ lines ∧
  clock w' = S (clock w) ∧
  timeline w' = timeline w ∧
  invocations w' = invocations w ∧
  logger w' = logger w ∧
  window w' = window w.

(** The logger is set up: its history is an array of the world, holds
    entries that exist, and is within capacity. *)
Definition well_formed (w : World) : Prop :=
  (logs (logger w) < length (arrays w))%nat ∧
  Forall (fun v => ∃ l, v = VRef l ∧ (l < length (heap w))%nat) (history w) ∧
  (length (history w) ≤ maxLogs (logger w))%nat.

(** *** Sequences of logging calls *)

Inductive LogCall :=
| Debug (message : string) (data : val)
| Info (message : string) (data : val)
| Warn (message : string) (data : val)
| Error (message : string) (error : val).

Definition call (c : LogCall) : M unit :=
  match c with
  | Debug m d => debug m d
  | Info m d => info m d
  | Warn m d => warn m d
  | Error m e => error m e
  end.

Definition call_level (c : LogCall) : string :=
  match c with
  | Debug _ _ => LogLevel.DEBUG
  | Info _ _ => LogLevel.INFO
  | Warn _ _ => LogLevel.WARN
  | Error _ _ => LogLevel.ERROR
  end.

Definition call_message (c : LogCall) : string :=
  match c with
  | Debug m _ | Info m _ | Warn m _ | Error m _ => m
  end.

(** What the caller of the [n]-th logging call since clock reading
    [start] handed over: the time, the level and the message. *)
Definition stamp (w : World) (start : nat) (n : nat) (c : LogCall)
  : val * val * val :=
  (VStr (toISOString (window w) (start + n)%nat),
   VStr (call_level c), VStr (call_message c)).

Definition entry_stamp (e : LogEntry) : val * val * val :=
  (timestamp e, level e, message e).

(** Time, level and message of the entries of the history, oldest first. *)
Definition stamps (w : World) : list (val * val * val) :=
  map entry_stamp (snapshot w).

(** *** What a caller can do with a returned array *)

(** Operations on the array itself. *)
Inductive ArrayMutation :=
| SetIndex (i : nat) (v : val)       (* arr[i] = v *)
| Splice (i n : nat)                   (* arr.splice(i, n) *)
| PushValue (v : val)                (* arr.push(v) *)
| Pop                                  (* arr.pop() *)
| ShiftValue                           (* arr.shift() *)
| SetLength (n : nat).                 (* arr.length = n *)

Definition mutate_elems (m : ArrayMutation) (elems : list val) : list val :=
  match m with
  | SetIndex i v =>
      if bool_decide (i < length elems)%nat then <[i := v]> elems
      else elems ++ replicate (i - length elems) VUndefined ++ [v]
  | Splice i n => take i elems ++ drop (i + n) elems
  | PushValue v => elems ++ [v]
  | Pop => removelast elems
  | ShiftValue => tail elems
  | SetLength n =>
      take n elems ++ replicate (n - length elems) VUndefined
  end.

Definition mutate_array (arr : loc) (m : ArrayMutation) : M unit :=
  let! elems := gets (fun w => elems_at w arr) in
  put_elems arr (mutate_elems m elems).

(** [arr[i].field = v]: a write to an element of the array. *)
Definition mutate_element (arr : loc) (i : nat) (field : string) (v : val)
  : M unit :=
  let! elems := gets (fun w => elems_at w arr) in
  put_member (default VUndefined (elems !! i)) field v.

End Logger.

(** ** What the log sink prints *)

Module LoggerConsole.
Import JS Logger.

(** The line the [n]-th logging call since clock reading [start] prints
    on the console, if it prints one: [debug] and [info] print on a
    development host only, [warn] and [error] always. *)
Definition printed (w : World) (start : nat) (n : nat) (c : LogCall)
  : list ConsoleCall :=
  let ts := toISOString (window w) (start + n)%nat in
  match c with
  | Debug m d =>
      if isDevelopment (logger w)
      then [{| c_method := CLog; c_text := render ts "🔍" m;
               c_arg := or_else (default_null d) (VStr "") |}]
      else []
  | Info m d =>
      if isDevelopment (logger w)
      then [{| c_method := CInfo; c_text := render ts "ℹ️" m;
               c_arg := or_else (default_null d) (VStr "") |}]
      else []
  | Warn m d =>
      [{| c_method := CWarn; c_text := render ts "⚠️" m;
          c_arg := or_else (default_null d) (VStr "") |}]
  | Error m e =>
      [{| c_method := CError; c_text := render ts "❌" m;
          c_arg := or_else (default_null e) (VStr "") |}]
  end.

(** The console method a logging call prints with, if it prints, on a
    development host ([dev]) or elsewhere. *)
Definition console_method (dev : bool) (c : LogCall) : option ConsoleMethod :=
  match c with
  | Debug _ _ => if dev then Some CLog else None
  | Info _ _ => if dev then Some CInfo else None
  | Warn _ _ => Some CWarn
  | Error _ _ => Some CError
  end.

(** The four levels a logging call can give an entry. *)
Definition levels : list val :=
  [VStr LogLevel.DEBUG; VStr LogLevel.INFO; VStr LogLevel.WARN; VStr LogLevel.ERROR].

End LoggerConsole.

(** ** The state store: class [StateManager] in [src/js/main.js] *)

Module StateManager.
Import JS.
Local Open Scope js_scope.

(** [key.split('.')]: never empty; an empty segment for each leading,
    trailing or doubled dot. *)
Fixpoint split_dots (key : string) : list string :=
  match key with
  | EmptyString => [""]
  | String c rest =>
      if bool_decide (c = "."%char) then "" :: split_dots rest
      else match split_dots rest with
           | seg :: segs => String c seg :: segs
           | [] => [String c ""]
           end
  end.

(** The instance: [this.state] is the address of the state object;
    [this.observers] maps a key to its [Set] of callbacks, kept in
    insertion order.  A callback is a function identity. *)
Record StateManager := {
  state : loc;
  observers : gmap string (list nat)
}.

(** [Set.prototype.add] and [Set.prototype.delete] *)
Definition set_add (x : nat) (s : list nat) : list nat :=
  if bool_decide (x ∈ s) then s else s ++ [x].

Definition set_delete (x : nat) (s : list nat) : list nat :=
  filter (fun y => y ≠ x) s.

Definition observers_of (this : StateManager) (key : string) : list nat :=
  default [] (observers this !! key).

(** The unsubscribe function returned by [subscribe]: a closure over
    [key] and [callback]. *)
Record Unsubscribe := {
  u_key : string;
  u_callback : nat
}.

#[global] Instance Unsubscribe_eq_dec : EqDecision Unsubscribe.
Proof. solve_decision. Defined.

(** How a call of an observer ends: it returns, it throws, or it has
    done something the model does not describe (a call of [subscribe],
    [set], [update] or [reset], a write to the state object). *)
Inductive Completion :=
| returns
| throws (e : val)
| leaves.

#[global] Instance Completion_eq_dec : EqDecision Completion.
Proof. solve_decision. Defined.

(** The value thrown, if any. *)
Definition thrown (c : Completion) : option val :=
  match c with
  | throws e => Some e
  | _ => None
  end.

(** What an observer does when called: it calls some of the unsubscribe
    functions that [subscribe] has returned, in this order, and ends. *)
Record Outcome := {
  unsubscribes : list Unsubscribe;
  completion : Completion
}.

(** The call [callback(newValue, oldValue)] made for [key]. *)
Definition call_of (key : string) (newValue oldValue : val) (callback : nat)
  : Invocation :=
  {| i_key := key; i_callback := callback;
     i_newValue := newValue; i_oldValue := oldValue |}.

(** The calls of [console.error] among the console output. *)
Definition console_errors (c : list ConsoleCall) : list ConsoleCall :=
  filter (fun line => c_method line = CError) c.

(** No segment of the path is the name of a property of
    [Object.prototype]. *)
Definition plain (key : string) : Prop :=
  Forall (fun k => k ∉ Object_prototype) (split_dots key).

#[global] Instance plain_dec key : Decision (plain key).
Proof. unfold plain. apply _. Defined.

(** The value found from [value] along [keys] through own properties,
    [undefined] as soon as one is missing. *)
Fixpoint own_path (w : World) (keys : list string) (value : val) : val :=
  match keys with
  | [] => value
  | k :: rest =>
      let value := own_property w value k in
      if strict_eq value VUndefined then value else own_path w rest value
  end.

(** [target] is none of the values met along [keys] from [value],
    the last left aside. *)
Fixpoint aside (w : World) (keys : list string) (value : val) (target : loc)
  : Prop :=
  match keys with
  | [] => True
  | k :: rest => value ≠ VRef target ∧ aside w rest (own_property w value k) target
  end.

#[global] Instance aside_dec w keys value target :
  Decision (aside w keys value target).
Proof. revert value. induction keys; intros value; simpl; apply _. Defined.

(** The path does not run in a circle: the object it leads to is none of
    the objects it goes through on the way. *)
Definition acyclic (w : World) (keys : list string) (value : val) : Prop :=
  match own_path w keys value with
  | VRef target => aside w keys value target
  | _ => True
  end.

#[global] Instance acyclic_dec w keys value : Decision (acyclic w keys value).
Proof. unfold acyclic. destruct (own_path w keys value); apply _. Defined.

Section WithCallbacks.

(** What each callback does when called with [(newValue, oldValue)]. *)
Variable outcome : nat -> val -> val -> Outcome.

(** The initial state literal of the constructor, with [isLoading] as
    given. *)
Definition new_state (isLoading : bool) : M loc :=
  let! animations := new_object (<["starsActive" := VBool false]>
                                 (<["portfolio3DActive" := VBool false]> ∅)) in
  new_object (<["currentView" := VStr "home"]>
              (<["currentProjectIndex" := VNum 0]>
               (<["soundEnabled" := VBool true]>
                (<["theme" := VStr "dark"]>
                 (<["isLoading" := VBool isLoading]>
                  (<["animations" := VRef animations]> ∅)))))).

(** [constructor()] *)
Definition constructor : M StateManager :=
  let! s := new_state true in
  do! Logger.debug "StateManager initialized" (VRef s) in
  ret {| state := s; observers := ∅ |}.

(** [subscribe(key, callback)] *)
Definition subscribe (this : StateManager) (key : string) (callback : nat)
  : M (StateManager * Unsubscribe) :=
  let obs := if bool_decide (is_Some (observers this !! key))
             then observers this
             else <[key := []]> (observers this) in
  let obs := <[key := set_add callback (default [] (obs !! key))]> obs in
  do! Logger.debug ("Subscribed to state key: " +:+ key) VUndefined in
  ret ({| state := state this; observers := obs |},
       {| u_key := key; u_callback := callback |}).

(** Calling the function returned by [subscribe]. *)
Definition unsubscribe (this : StateManager) (u : Unsubscribe) : M StateManager :=
  let obs := match observers this !! u_key u with
             | Some s => <[u_key u := set_delete (u_callback u) s]> (observers this)
             | None => observers this
             end in
  do! Logger.debug ("Unsubscribed from state key: " +:+ u_key u) VUndefined in
  ret {| state := state this; observers := obs |}.

(** [callback(newValue, oldValue)]: the call is recorded and the
    callback runs.  The result is the instance with the registrations
    as the callback leaves them, which it does also when it throws, and
    the way the call ends. *)
Definition invoke (this : StateManager) (key : string) (callback : nat)
  (newValue oldValue : val) : M (StateManager * Completion) :=
  do! modify (fun w => with_invocations
                (invocations w ++ [call_of key newValue oldValue callback]) w) in
  let! this := fold_of (unsubscribes (outcome callback newValue oldValue))
                       unsubscribe this in
  ret (this, completion (outcome callback newValue oldValue)).

(** [observers.forEach(body)] on the [Set] of [key]: the elements are
    visited in insertion order, and one deleted before its turn is not
    visited.  [pending] is the rest of the [Set] as it was at the
    start: nothing is added on the way, a callback that subscribes
    having left the model. *)
Fixpoint forEach (pending : list nat) (key : string)
  (body : StateManager -> nat -> M StateManager) (this : StateManager)
  : M StateManager :=
  match pending with
  | [] => ret this
  | callback :: rest =>
      if bool_decide (callback ∈ observers_of this key)
      then let! this := body this callback in forEach rest key body this
      else forEach rest key body this
  end.

(** [notify(key, newValue, oldValue)]; the body of the loop is
    [try { callback(newValue, oldValue) } catch (error) { logger.error(...) }]. *)
Definition notify (this : StateManager) (key : string) (newValue oldValue : val)
  : M StateManager :=
  match observers this !! key with
  | Some obs =>
      forEach obs key (fun this callback =>
        let! r := invoke this key callback newValue oldValue in
        match r.2 with
        | returns => ret r.1
        | throws error =>
            do! Logger.error ("Error in state observer for " +:+ key) error in
            ret r.1
        | leaves => beyond
        end) this
  | None => ret this
  end.

(** The loop of [get]: [value = value?.[k]; if (value === undefined) break]. *)
Fixpoint get_loop (keys : list string) (value : val) : M val :=
  match keys with
  | [] => ret value
  | k :: rest =>
      let! value := get_optional value k in
      if strict_eq value VUndefined then ret value else get_loop rest value
  end.

(** [get(key)] *)
Definition get (this : StateManager) (key : string) : M val :=
  get_loop (split_dots key) (VRef (state this)).

(** The loop of [set]: [if (!(k in target)) target[k] = {}; target = target[k]]. *)
Fixpoint navigate (keys : list string) (target : val) : M val :=
  match keys with
  | [] => ret target
  | k :: rest =>
      let! present := has_property target k in
      do! (if present then ret tt
           else let! o := new_object ∅ in put_member target k (VRef o)) in
      let! next := get_member target k in
      navigate rest next
  end.

(** [set(key, value)]; the result is the instance with the
    registrations as the observers leave them. *)
Definition set (this : StateManager) (key : string) (value : val)
  : M StateManager :=
  let keys := split_dots key in
  let lastKey := List.last keys "" in
  let keys := removelast keys in
  let! target := navigate keys (VRef (state this)) in
  let! oldValue := get_member target lastKey in
  if strict_eq oldValue value then ret this
  else
    do! put_member target lastKey value in
    let! data := new_object (<["oldValue" := oldValue]>
                             (<["newValue" := value]> ∅)) in
    do! Logger.debug ("State updated: " +:+ key) (VRef data) in
    notify this key value oldValue.


(** [update(updates)], with [updates] given as [Object.entries] lists it. *)
Definition update (this : StateManager) (updates : list (string * val))
  : M StateManager :=
  fold_of updates (fun this kv => set this kv.1 kv.2) this.

(** [getState()]: [{ ...this.state }] *)
Definition getState (this : StateManager) : M loc :=
  let! p := gets (fun w => props_at w (state this)) in
  new_object p.

(** [reset()] *)
Definition reset (this : StateManager) : M StateManager :=
  let! oldState := getState this in
  let! s := new_state false in
  let! data := new_object (<["oldState" := VRef oldState]>
                           (<["newState" := VRef s]> ∅)) in
  do! Logger.info "State reset" (VRef data) in
  ret {| state := s; observers := observers this |}.

(** *** Sequences of calls on the store *)

Inductive Op :=
| OpGet (key : string)
| OpSet (key : string) (v : val)
| OpUpdate (updates : list (string * val))
| OpSubscribe (key : string) (callback : nat)
| OpUnsubscribe (u : Unsubscribe)
| OpGetState
| OpReset.

#[global] Instance Op_eq_dec : EqDecision Op.
Proof. solve_decision. Defined.

Definition run_op (op : Op) (this : StateManager) : M StateManager :=
  match op with
  | OpGet key => do! get this key in ret this
  | OpSet key v => set this key v
  | OpUpdate updates => update this updates
  | OpSubscribe key callback => let! r := subscribe this key callback in ret r.1
  | OpUnsubscribe u => unsubscribe this u
  | OpGetState => do! getState this in ret this
  | OpReset => reset this
  end.

(** The instance as [update] leaves it: with the registrations as the
    observers called by its calls of [set] have left them, also when one
    of these calls throws and ends the [update]. *)
Fixpoint update_reached (this : StateManager) (updates : list (string * val))
  (w : World) : StateManager :=
  match updates with
  | [] => this
  | kv :: rest =>
      match set this kv.1 kv.2 w with
      | Ok this' w' => update_reached this' rest w'
      | _ => this
      end
  end.

(** Each call is made on its own; one that throws leaves the world as it
    was when it threw, and the instance as it was before the call, but
    for what the observers called until then have unsubscribed.  There
    is no result when the call leaves the model. *)
Definition step (op : Op) (sw : StateManager * World)
  : option (StateManager * World) :=
  match run_op op sw.1 sw.2 with
  | Ok this w => Some (this, w)
  | Throw _ w =>
      Some (match op with
            | OpUpdate updates => update_reached sw.1 updates sw.2
            | _ => sw.1
            end, w)
  | Beyond _ => None
  end.

Fixpoint run_ops (ops : list Op) (sw : StateManager * World)
  : option (StateManager * World) :=
  match ops with
  | [] => Some sw
  | op :: rest =>
      match step op sw with
      | Some sw' => run_ops rest sw'
      | None => None
      end
  end.


(** The observers that throw when called with [(newValue, oldValue)]. *)
Definition throwers (newValue oldValue : val) (obs : list nat) : list nat :=
  filter (fun callback =>
            is_Some (thrown (completion (outcome callback newValue oldValue))))
         obs.

(** [line] is the [console.error] call that reports the error thrown by
    [callback], an observer of [key]. *)
Definition reports (key : string) (newValue oldValue : val)
  (line : ConsoleCall) (callback : nat) : Prop :=
  ∃ e ts,
    completion (outcome callback newValue oldValue) = throws e ∧
    line = {| c_method := CError;
              c_text := Logger.render ts "❌" ("Error in state observer for " +:+ key);
              c_arg := or_else (default_null e) (VStr "") |}.

(** The registrations for [key] that are left of [live] once [callback]
    has been called with [(newValue, oldValue)]. *)
Definition left_by (key : string) (newValue oldValue : val) (callback : nat)
  (live : list nat) : list nat :=
  foldl (fun s u => if bool_decide (u_key u = key)
                    then set_delete (u_callback u) s else s)
        live (unsubscribes (outcome callback newValue oldValue)).

(** The observers among [pending] still registered for [key] when their
    turn comes in a notification of [(newValue, oldValue)], [live]
    being the registrations at the start. *)
Fixpoint reached (key : string) (newValue oldValue : val)
  (pending live : list nat) : list nat :=
  match pending with
  | [] => []
  | callback :: rest =>
      if bool_decide (callback ∈ live)
      then callback :: reached key newValue oldValue rest
                         (left_by key newValue oldValue callback live)
      else reached key newValue oldValue rest live
  end.

(** No observer of [key] leaves the model when called with
    [(newValue, oldValue)]. *)
Definition described (this : StateManager) (key : string)
  (newValue oldValue : val) : Prop :=
  Forall (fun callback =>
            completion (outcome callback newValue oldValue) ≠ leaves)
         (observers_of this key).

(** No observer of [key], when called with [(newValue, oldValue)],
    unsubscribes an observer of [key] from it. *)
Definition undisturbed (this : StateManager) (key : string)
  (newValue oldValue : val) : Prop :=
  Forall (fun callback =>
            Forall (fun u => ¬ (u_key u = key ∧
                                u_callback u ∈ observers_of this key))
                   (unsubscribes (outcome callback newValue oldValue)))
         (observers_of this key).

(** The store made by the constructor in a world where [logger.js] has
    just been evaluated. *)
Definition fresh_store (w0 : World) : StateManager * World :=
  match constructor (world_of (Logger.constructor w0)) with
  | Ok this w => (this, w)
  | Throw _ w | Beyond w => ({| state := 0%nat; observers := ∅ |}, w)
  end.

End WithCallbacks.

#[global] Instance described_dec outcome this key newValue oldValue :
  Decision (described outcome this key newValue oldValue).
Proof. unfold described. apply _. Defined.

#[global] Instance undisturbed_dec outcome this key newValue oldValue :
  Decision (undisturbed outcome this key newValue oldValue).
Proof. unfold undisturbed. apply _. Defined.

End StateManager.

(** ** Reading the state store *)

Module StateViews.
Import JS StateManager.

(** The paths of the state literal of the constructor and of [reset()],
    with their values; the two differ in [isLoading]. *)
Definition initial_values (isLoading : bool) : list (string * val) :=
  [("currentView", VStr "home");
   ("currentProjectIndex", VNum 0);
   ("soundEnabled", VBool true);
   ("theme", VStr "dark");
   ("isLoading", VBool isLoading);
   ("animations.starsActive", VBool false);
   ("animations.portfolio3DActive", VBool false)].

(** The two object literals of the constructor and of [reset()]. *)
Definition animations_literal : props :=
  <["starsActive" := VBool false]> (<["portfolio3DActive" := VBool false]> ∅).

Definition state_literal (isLoading : bool) (animations : loc) : props :=
  <["currentView" := VStr "home"]>
    (<["currentProjectIndex" := VNum 0]>
       (<["soundEnabled" := VBool true]>
          (<["theme" := VStr "dark"]>
             (<["isLoading" := VBool isLoading]>
                (<["animations" := VRef animations]> ∅))))).

End StateViews.

(** ** The performance metrics collector: class [PerformanceMonitor] of
    [src/unnamed/part_004] *)

Module PerformanceMonitor.
Import JS.
Local Open Scope js_scope.

(** What [startMeasure] remembers of a running measure. *)
Record MarkData := {
  startMark : string;
  startTime : Z
}.

(** One recorded measurement. *)
Record Measurement := {
  duration : Z;
  timestamp : Z
}.

Record PerformanceMonitor := {
  metrics : gmap string (list Measurement);
  marks : gmap string MarkData;
  isSupported : bool
}.

(** *** The browser's Performance interface *)

(** [performance.mark(name)] *)
Definition performance_mark (name : string) : M unit :=
  let! now := date_now in
  modify (fun w => with_timeline
            (timeline w ++ [{| pe_name := name; pe_kind := PMark;
                               pe_startTime := now; pe_duration := 0 |}]) w).

(** The most recent mark called [name]. *)
Definition find_mark (name : string) (t : list PerfEntry) : option PerfEntry :=
  last (filter (fun e => pe_kind e = PMark ∧ pe_name e = name) t).

(** [performance.measure(measureName, startMark, endMark)]: throws when
    one of the marks does not exist. *)
Definition performance_measure (measureName startMark endMark : string) : M unit :=
  let! t := gets timeline in
  match find_mark startMark t, find_mark endMark t with
  | Some s, Some e =>
      modify (with_timeline
                (t ++ [{| pe_name := measureName; pe_kind := PMeasure;
                          pe_startTime := pe_startTime s;
                          pe_duration := pe_startTime e - pe_startTime s |}]))
  | _, _ => throw (VStr "SyntaxError")
  end.

(** [performance.getEntriesByName(name)] *)
Definition performance_getEntriesByName (name : string) : M (list PerfEntry) :=
  gets (fun w => filter (fun e => pe_name e = name) (timeline w)).

(** [performance.clearMarks(name)] and [performance.clearMeasures(name)] *)
Definition performance_clear (kind : PerfKind) (name : string) : M unit :=
  modify (fun w => with_timeline
            (filter (fun e => ¬ (pe_kind e = kind ∧ pe_name e = name)) (timeline w)) w).

(** *** The collector *)

(** [constructor()] *)
Definition constructor : M PerformanceMonitor :=
  let! supported := gets (fun w => performanceSupported (window w)) in
  do! Logger.debug "PerformanceMonitor initialized" VUndefined in
  ret {| metrics := ∅; marks := ∅; isSupported := supported |}.

(** [startMeasure(name)] *)
Definition startMeasure (this : PerformanceMonitor) (name : string)
  : M PerformanceMonitor :=
  if negb (isSupported this) then ret this
  else
    try_catch
      (let markName := name +:+ "-start" in
       do! performance_mark markName in
       let! now := date_now in
       do! Logger.debug ("Performance measure started: " +:+ name) VUndefined in
       ret {| metrics := metrics this;
              marks := <[name := {| startMark := markName; startTime := now |}]>
                         (marks this);
              isSupported := isSupported this |})
      (fun error =>
         do! Logger.warn ("Failed to start performance measure: " +:+ name) error in
         ret this).

(** [endMeasure(name)]: the duration, or [null]. *)
Definition endMeasure (this : PerformanceMonitor) (name : string)
  : M (PerformanceMonitor * val) :=
  if negb (isSupported this) then ret (this, VNull)
  else
    try_catch
      (match marks this !! name with
       | None =>
           do! Logger.warn ("No start mark found for: " +:+ name) VUndefined in
           ret (this, VNull)
       | Some markData =>
           let endMarkName := name +:+ "-end" in
           do! performance_mark endMarkName in
           let measureName := name +:+ "-measure" in
           do! performance_measure measureName (startMark markData) endMarkName in
           let! entries := performance_getEntriesByName measureName in
           match entries !! 0%nat with
           | None =>
               throw_TypeError "Cannot read properties of undefined (reading 'duration')"
           | Some measure =>
               let duration := pe_duration measure in
               let! now := date_now in
               let recorded : list Measurement :=
                 (default [] (metrics this !! name)
                  ++ [{| duration := duration; timestamp := now |}]) in
               let! text := gets (fun w => toFixed2 (window w) duration) in
               do! Logger.debug ("Performance measure completed: " +:+ name
                                 +:+ " (" +:+ text +:+ "ms)") VUndefined in
               do! performance_clear PMark (startMark markData) in
               do! performance_clear PMark endMarkName in
               do! performance_clear PMeasure measureName in
               ret ({| metrics := <[name := recorded]> (metrics this);
                       marks := delete name (marks this);
                       isSupported := isSupported this |},
                    VNum duration)
           end
       end)
      (fun error =>
         do! Logger.warn ("Failed to end performance measure: " +:+ name) error in
         ret (this, VNull)).

(** The durations recorded so far under [name]. *)
Definition durations (this : PerformanceMonitor) (name : string) : list Z :=
  map duration (default [] (metrics this !! name)).

End PerformanceMonitor.

(** ** The performance metrics collector: [clear()] *)

Module PerformanceMonitorClear.
Import JS PerformanceMonitor.
Local Open Scope js_scope.

(** [performance.clearMarks()] and [performance.clearMeasures()] with no
    name: every entry of the kind goes. *)
Definition performance_clear_all (kind : PerfKind) : M unit :=
  modify (fun w => with_timeline
            (filter (fun e => pe_kind e ≠ kind) (timeline w)) w).

(** [clear()] *)
Definition clear (this : PerformanceMonitor) : M PerformanceMonitor :=
  let this := {| metrics := ∅; marks := ∅; isSupported := isSupported this |} in
  do! (if isSupported this
       then do! performance_clear_all PMark in performance_clear_all PMeasure
       else ret tt) in
  do! Logger.debug "Performance metrics cleared" VUndefined in
  ret this.

(** The mark [performance.mark(name)] makes at clock reading [n]. *)
Definition mark_at (w : World) (name : string) (n : nat) : PerfEntry :=
  {| pe_name := name; pe_kind := PMark;
     pe_startTime := dateNow (window w) n; pe_duration := 0 |}.

(** The timeline entries [endMeasure(name)] removes: the marks called
    [name-start] and [name-end] and the measures called [name-measure]. *)
Definition cleared_by (name : string) (e : PerfEntry) : Prop :=
  (pe_kind e = PMark ∧ pe_name e = name +:+ "-start") ∨
  (pe_kind e = PMark ∧ pe_name e = name +:+ "-end") ∨
  (pe_kind e = PMeasure ∧ pe_name e = name +:+ "-measure").

#[global] Instance cleared_by_dec name e : Decision (cleared_by name e).
Proof. unfold cleared_by. apply _. Defined.

End PerformanceMonitorClear.

(** ** What the transitions work on: the document, [CONFIG] and class
    [AudioManager] of [src/js/config.js] *)

Module Navigation.

(** *** The document *)

(** An element: its tag, its class list and its parent.  The document
    lists the elements in document order; an element is referred to by
    its position. *)
Record Element := {
  tagName : string;
  classList : list string;
  parent : option nat
}.

Definition Document := list Element.

(** The 1-based position of element [i] among the children of its
    parent. *)
Definition child_index (doc : Document) (i : nat) : nat :=
  match doc !! i with
  | Some el =>
      S (length (filter (fun sib => parent sib = parent el) (take i doc)))
  | None => 0
  end.

(** The selectors the navigation uses. *)
Inductive Selector :=
| ClassSelector (c : string)                   (* `.${c}` *)
| NthChildArticle (container : string) (n : Z) (* `.${container} > article:nth-child(${n})` *).

Definition has_class (doc : Document) (i : nat) (c : string) : bool :=
  match doc !! i with
  | Some el => bool_decide (c ∈ classList el)
  | None => false
  end.

Definition matches (doc : Document) (sel : Selector) (i : nat) : bool :=
  match sel with
  | ClassSelector c => has_class doc i c
  | NthChildArticle container n =>
      match doc !! i with
      | Some el =>
          bool_decide (tagName el = "article")
          && match parent el with
             | Some p => has_class doc p container
             | None => false
             end
          && bool_decide (Z.of_nat (child_index doc i) = n)
      | None => false
      end
  end.

(** [document.querySelector(sel)]: the first match in document order. *)
Definition querySelector (doc : Document) (sel : Selector) : option nat :=
  head (filter (fun i => matches doc sel i = true) (seq 0 (length doc))).

(** *** The configuration: [CONFIG] of [src/js/config.js] *)

Module CONFIG.
Definition TRANSITION_DELAY : Z := 200.
Definition LAYER_SWITCH_DELAY : Z := 250.
Definition LAYER_OPACITY_DELAY : Z := 300.
Definition PAPER_SOUND_DELAY : Z := 750.
Definition PORTFOLIO_ITEMS : string := "portfolio-items".
Definition NOT_ACTIVE_LAYER : string := "not-active-layer".
Definition ACTIVE_LAYER : string := "active-layer".
Definition ACTIVE : string := "active".
Definition TO_TOP : string := "to-top".
Definition TO_BOTTOM : string := "to-bottom".
Definition OPACITY_0 : string := "opacity-0".
End CONFIG.

(** *** The audio manager: class [AudioManager] in [src/js/config.js] *)

Record AudioManager := {
  enabled : bool;
  isMobile : bool;
  requested : list string;    (* the calls of playSound, oldest first *)
  played : list string        (* the sounds started with play(), oldest first *)
}.

(** [playSound(soundKey)], every sound of the configuration being loaded. *)
Definition playSound (soundKey : string) (a : AudioManager) : AudioManager :=
  {| enabled := enabled a; isMobile := isMobile a;
     requested := requested a ++ [soundKey];
     played := if enabled a then played a ++ [soundKey] else played a |}.

(** [playClick()] *)
Definition playClick (a : AudioManager) : AudioManager :=
  playSound (if isMobile a then "CLICK_MOBILE" else "CLICK") a.

(** [playPaper()] *)
Definition playPaper (a : AudioManager) : AudioManager :=
  playSound (if isMobile a then "PAPER_MOBILE" else "PAPER") a.

(** *** Directions *)

(** The direction a project leaves in: ['bottom'] or ['top']. *)
Inductive Direction := Bottom | Top.

End Navigation.

(** ** The helpers of [js/utils.js] ([src/unnamed/part_003]), class
    [NavigationManager] and the about section of class [UIManager]
    ([src/js/ui-manager.js]) *)

Module Dom.
Import Navigation.

(** *** Class lists: the browser's [DOMTokenList] *)

(** ASCII whitespace: tab, line feed, form feed, carriage return, space. *)
Definition is_whitespace (c : ascii) : bool :=
  bool_decide (c = "009"%char) || bool_decide (c = "010"%char)
  || bool_decide (c = "012"%char) || bool_decide (c = "013"%char)
  || bool_decide (c = " "%char).

(** [add], [remove] and [toggle] throw on the empty token and on a token
    that holds whitespace. *)
Definition valid_token (t : string) : bool :=
  negb (bool_decide (t = ""))
  && forallb (fun c => negb (is_whitespace c)) (list_ascii_of_string t).

(** [classList.add(c)] *)
Definition token_add (c : string) (cl : list string) : list string :=
  if bool_decide (c ∈ cl) then cl else (cl ++ [c]).

(** [classList.remove(c)] *)
Definition token_remove (c : string) (cl : list string) : list string :=
  filter (fun x => x ≠ c) cl.

(** [classList.toggle(c)] and [classList.toggle(c, force)] *)
Definition token_toggle (c : string) (force : option bool) (cl : list string)
  : list string :=
  match force with
  | Some true => token_add c cl
  | Some false => token_remove c cl
  | None => if bool_decide (c ∈ cl) then token_remove c cl else token_add c cl
  end.

(** The document with the class list of element [i] changed. *)
Definition set_classes (f : list string -> list string) (i : nat) (doc : Document)
  : Document :=
  alter (fun el => {| tagName := tagName el;
                      classList := f (classList el);
                      parent := parent el |}) i doc.

(** Class list operations on an element that may be missing. *)
Definition add_class (element : option nat) (c : string) (doc : Document)
  : Document :=
  match element with
  | Some i => set_classes (token_add c) i doc
  | None => doc
  end.

Definition remove_class (element : option nat) (c : string) (doc : Document)
  : Document :=
  match element with
  | Some i => set_classes (token_remove c) i doc
  | None => doc
  end.

(** What class changes leave alone: the tags and the tree. *)
Definition skeleton (doc : Document) : list (string * option nat) :=
  (fun el => (tagName el, parent el)) <$> doc.

(** *** Selectors *)

(** The selectors of the navigation manager: those of the sibling
    navigation, and [`.${container} > article.${c}`]. *)
Inductive Selector :=
| Simple (sel : Navigation.Selector)
| ArticleWithClass (container : string) (c : string).

Definition matches (doc : Document) (sel : Selector) (i : nat) : bool :=
  match sel with
  | Simple s => Navigation.matches doc s i
  | ArticleWithClass container c =>
      match doc !! i with
      | Some el =>
          bool_decide (tagName el = "article")
          && match parent el with
             | Some p => has_class doc p container
             | None => false
             end
          && has_class doc i c
      | None => false
      end
  end.

(** [document.querySelectorAll(sel)]: the matches, in document order. *)
Definition querySelectorAll (doc : Document) (sel : Selector) : list nat :=
  filter (fun i => matches doc sel i = true) (seq 0 (length doc)).

(** [document.querySelector(sel)] *)
Definition querySelector (doc : Document) (sel : Selector) : option nat :=
  head (querySelectorAll doc sel).

(** [xs.indexOf(x)] *)
Fixpoint indexOf (x : nat) (xs : list nat) : Z :=
  match xs with
  | [] => -1
  | y :: rest =>
      if bool_decide (y = x) then 0
      else let r := indexOf x rest in
           if bool_decide (r = -1) then -1 else r + 1
  end.

End Dom.

Module Page.
Import Navigation Dom.

(** *** The configuration: more of [CONFIG] of [src/js/config.js] *)

Definition HOME_ACTIVATION_DELAY : Z := 350.
Definition HOME : string := "home".
Definition PORTFOLIO_GRID : string := "portfolio-grid".
Definition ITEM : string := "item".
Definition ABOUT_OVERLAY_DELAY : Z := 100.
Definition ABOUT_CONTENT_DELAY : Z := 300.
Definition ABOUT_CLOSE_DELAY : Z := 400.
Definition ABOUT_CONTAINER_DELAY : Z := 500.
Definition ABOUT_SCROLL_DELAY : Z := 850.
Definition OVERLAY : string := "overlay".
Definition CONTENT : string := "content".
Definition CONTENT_CONTAINER : string := "contentcontainer".

(** *** The page *)

(** The callbacks the navigation manager and the interface manager hand
    to [delayExecution], with the variables they close over. *)
Inductive Task :=
| HideHome (home : option nat)                     (* openPortfolio, after 200 *)
| ShowGrid (portfolioGrid : option nat)            (* openPortfolio, after 250 *)
| SwitchLayers (notActiveLayer activeLayer : option nat) (reverse : bool)
| PlayPaper
| HideGridToBottom (portfolioGrid notActiveLayer activeLayer : option nat)
                                                   (* backToHome, after 300 *)
| ShowHome (home : option nat)                     (* backToHome, after 350 *)
| PlayPaperAndScroll (portfolioGrid : option nat)  (* after 750 *)
| HideGridToTop (portfolioGrid : option nat)       (* openPortfolioItem, after 200 *)
| ActivateProject (index : Z)                      (* openPortfolioItem, after 250 *)
| ShowGridAndDeactivate (portfolioGrid : option nat) (* backToPortfolio, after 250 *)
| ShowOverlay (overlay contentContainer : option nat) (* openAbout, after 100 *)
| ShowContent (content : option nat)               (* openAbout, after 300 *)
| PlayPaperAboutDown                               (* closeAbout, after 400 *)
| HideOverlay (overlay : option nat)               (* closeAbout, after 400 *)
| HideContainer (contentContainer : option nat)    (* closeAbout, after 500 *)
| ScrollContentContainer                           (* closeAbout, after 850 *)
| LeaveCurrent (currentProject : option nat) (direction : Direction)
                                                   (* navigateToProject, after 200 *)
| EnterTarget (targetProject : option nat)         (* navigateToProject, after 250 *).

Record Timer := {
  due : Z;
  task : option Task
}.

Record World := {
  document : Document;
  scrollTop : gmap nat Z;     (* the scroll offsets set so far, by element *)
  timers : list Timer;        (* the pending timers, in the order they were set *)
  now : Z;
  audioManager : AudioManager;
  errors : list string        (* the texts of console.error, oldest first *)
}.

Record NavigationManager := {
  currentProjectIndex : Z
}.

Definition with_document (d : Document) (w : World) : World :=
  {| document := d; scrollTop := scrollTop w; timers := timers w; now := now w;
     audioManager := audioManager w; errors := errors w |}.

Definition with_audioManager (a : AudioManager) (w : World) : World :=
  {| document := document w; scrollTop := scrollTop w; timers := timers w;
     now := now w; audioManager := a; errors := errors w |}.

Definition with_timers (t : list Timer) (w : World) : World :=
  {| document := document w; scrollTop := scrollTop w; timers := t; now := now w;
     audioManager := audioManager w; errors := errors w |}.

(** [console.error(text, error)] *)
Definition console_error (text : string) (w : World) : World :=
  {| document := document w; scrollTop := scrollTop w; timers := timers w;
     now := now w; audioManager := audioManager w;
     errors := errors w ++ [text] |}.

(** [element.scrollTop = 0] *)
Definition reset_scroll (i : nat) (w : World) : World :=
  {| document := document w; scrollTop := <[i := 0]> (scrollTop w);
     timers := timers w; now := now w; audioManager := audioManager w;
     errors := errors w |}.

(** *** The helpers of [js/utils.js] *)

(** The double quote of the messages. *)
Definition dquote : string := String "034"%char "".

(** [safeQuerySelector(selector)]: the selectors of the model are all
    well formed, so [document.querySelector] does not throw and the
    [catch] branch is never taken. *)
Definition safeQuerySelector (w : World) (sel : Selector) : option nat :=
  querySelector (document w) sel.

(** [safeQuerySelectorAll(selector)] *)
Definition safeQuerySelectorAll (w : World) (sel : Selector) : list nat :=
  querySelectorAll (document w) sel.

(** [toggleClass(element, className, force)]: nothing for a missing
    element; an invalid class name makes [classList.toggle] throw, which
    is caught and reported. *)
Definition toggleClass (element : option nat) (className : string)
  (force : option bool) (w : World) : World :=
  match element with
  | None => w
  | Some i =>
      if valid_token className
      then with_document
             (set_classes (token_toggle className force) i (document w)) w
      else console_error ("Error toggling class " +:+ dquote +:+ className
                          +:+ dquote +:+ ":") w
  end.

(** [addClass(element, className)] *)
Definition addClass (element : option nat) (className : string) (w : World)
  : World :=
  match element with
  | None => w
  | Some i =>
      if valid_token className
      then with_document (set_classes (token_add className) i (document w)) w
      else console_error ("Error adding class " +:+ dquote +:+ className
                          +:+ dquote +:+ ":") w
  end.

(** [removeClass(element, className)] *)
Definition removeClass (element : option nat) (className : string) (w : World)
  : World :=
  match element with
  | None => w
  | Some i =>
      if valid_token className
      then with_document (set_classes (token_remove className) i (document w)) w
      else console_error ("Error removing class " +:+ dquote +:+ className
                          +:+ dquote +:+ ":") w
  end.

(** [delayExecution(delay, callback)]: a timer that runs the callback,
    when one is given, once the delay has passed.  The promise it returns
    is not used by the navigation manager. *)
Definition delayExecution (delay : Z) (callback : option Task) (w : World)
  : World :=
  with_timers (timers w ++ [{| due := now w + delay; task := callback |}]) w.

(** *** The navigation manager *)

(** [switchLayers(notActiveLayer, activeLayer, reverse = false)] *)
Definition switchLayers (notActiveLayer activeLayer : option nat)
  (reverse : bool) (w : World) : World :=
  match notActiveLayer, activeLayer with
  | Some _, Some _ =>
      if reverse then
        let w := removeClass notActiveLayer CONFIG.NOT_ACTIVE_LAYER w in
        let w := addClass notActiveLayer CONFIG.ACTIVE_LAYER w in
        let w := addClass notActiveLayer CONFIG.OPACITY_0 w in
        let w := addClass activeLayer CONFIG.NOT_ACTIVE_LAYER w in
        let w := removeClass activeLayer CONFIG.ACTIVE_LAYER w in
        removeClass activeLayer CONFIG.OPACITY_0 w
      else
        let w := removeClass notActiveLayer CONFIG.NOT_ACTIVE_LAYER w in
        let w := addClass notActiveLayer CONFIG.ACTIVE_LAYER w in
        let w := removeClass notActiveLayer CONFIG.OPACITY_0 w in
        let w := addClass activeLayer CONFIG.NOT_ACTIVE_LAYER w in
        removeClass activeLayer CONFIG.ACTIVE_LAYER w
  | _, _ => w
  end.

(** [activateProject(index)] *)
Definition activateProject (index : Z) (w : World) : World :=
  let project :=
    safeQuerySelector w (Simple (NthChildArticle CONFIG.PORTFOLIO_ITEMS index)) in
  let prevProject :=
    safeQuerySelector w (Simple (NthChildArticle CONFIG.PORTFOLIO_ITEMS (index - 1))) in
  let nextProject :=
    safeQuerySelector w (Simple (NthChildArticle CONFIG.PORTFOLIO_ITEMS (index + 1))) in
  let w := addClass project CONFIG.ACTIVE w in
  let w := addClass prevProject CONFIG.TO_BOTTOM w in
  addClass nextProject CONFIG.TO_TOP w.

(** [projects.forEach(project => removeClass(project, className))] *)
Definition removeClass_each (projects : list nat) (className : string) (w : World)
  : World :=
  foldl (fun w project => removeClass (Some project) className w) w projects.

(** [deactivateAllProjects()] *)
Definition deactivateAllProjects (w : World) : World :=
  let activeProject :=
    safeQuerySelector w (ArticleWithClass CONFIG.PORTFOLIO_ITEMS CONFIG.ACTIVE) in
  let topProjects :=
    querySelectorAll (document w)
      (ArticleWithClass CONFIG.PORTFOLIO_ITEMS CONFIG.TO_TOP) in
  let bottomProjects :=
    querySelectorAll (document w)
      (ArticleWithClass CONFIG.PORTFOLIO_ITEMS CONFIG.TO_BOTTOM) in
  let w := removeClass activeProject CONFIG.ACTIVE w in
  let w := removeClass_each topProjects CONFIG.TO_TOP w in
  removeClass_each bottomProjects CONFIG.TO_BOTTOM w.

(** [this.audioManager.playPaper(); if (portfolioGrid) portfolioGrid.scrollTop = 0] *)
Definition playPaperAndScroll (portfolioGrid : option nat) (w : World) : World :=
  let w := with_audioManager (playPaper (audioManager w)) w in
  match portfolioGrid with
  | Some g => reset_scroll g w
  | None => w
  end.

(** [playPaperAboutUp()] and [playPaperAboutDown()] of the audio
    manager. *)
Definition playPaperAboutUp (a : AudioManager) : AudioManager :=
  playSound (if isMobile a then "PAPER_ABOUT_UP_MOBILE" else "PAPER_ABOUT_UP") a.

Definition playPaperAboutDown (a : AudioManager) : AudioManager :=
  playSound
    (if isMobile a then "PAPER_ABOUT_DOWN_MOBILE" else "PAPER_ABOUT_DOWN") a.

(** [const container = document.querySelector('.content-container');
     if (container) container.scrollTop = 0] *)
Definition scrollContentContainer (w : World) : World :=
  match querySelector (document w) (Simple (ClassSelector "content-container")) with
  | Some container => reset_scroll container w
  | None => w
  end.

(** Running a delayed callback. *)
Definition run_task (t : Task) (w : World) : World :=
  match t with
  | HideHome home =>
      let w := addClass home CONFIG.TO_TOP w in
      removeClass home CONFIG.ACTIVE w
  | ShowGrid portfolioGrid =>
      let w := addClass portfolioGrid CONFIG.ACTIVE w in
      removeClass portfolioGrid CONFIG.TO_BOTTOM w
  | SwitchLayers notActiveLayer activeLayer reverse =>
      switchLayers notActiveLayer activeLayer reverse w
  | PlayPaper => with_audioManager (playPaper (audioManager w)) w
  | HideGridToBottom portfolioGrid notActiveLayer activeLayer =>
      let w := addClass portfolioGrid CONFIG.TO_BOTTOM w in
      let w := removeClass portfolioGrid CONFIG.ACTIVE w in
      switchLayers notActiveLayer activeLayer true w
  | ShowHome home => addClass home CONFIG.ACTIVE w
  | PlayPaperAndScroll portfolioGrid => playPaperAndScroll portfolioGrid w
  | HideGridToTop portfolioGrid =>
      let w := addClass portfolioGrid CONFIG.TO_TOP w in
      removeClass portfolioGrid CONFIG.ACTIVE w
  | ActivateProject index => activateProject index w
  | ShowGridAndDeactivate portfolioGrid =>
      let w := addClass portfolioGrid CONFIG.ACTIVE w in
      let w := removeClass portfolioGrid CONFIG.TO_TOP w in
      deactivateAllProjects w
  | ShowOverlay overlay contentContainer =>
      let w := addClass overlay CONFIG.ACTIVE w in
      addClass contentContainer CONFIG.ACTIVE w
  | ShowContent content => addClass content CONFIG.ACTIVE w
  | PlayPaperAboutDown =>
      with_audioManager (playPaperAboutDown (audioManager w)) w
  | HideOverlay overlay => removeClass overlay CONFIG.ACTIVE w
  | HideContainer contentContainer =>
      removeClass contentContainer CONFIG.ACTIVE w
  | ScrollContentContainer => scrollContentContainer w
  | LeaveCurrent currentProject direction =>
      let w := removeClass currentProject CONFIG.ACTIVE w in
      addClass currentProject
               (match direction with
                | Bottom => CONFIG.TO_BOTTOM
                | Top => CONFIG.TO_TOP
                end) w
  | EnterTarget targetProject =>
      let w := addClass targetProject CONFIG.ACTIVE w in
      let w := removeClass targetProject CONFIG.TO_TOP w in
      removeClass targetProject CONFIG.TO_BOTTOM w
  end.

(** [openPortfolio()] *)
Definition openPortfolio (w : World) : World :=
  let w := with_audioManager (playClick (audioManager w)) w in
  let notActiveLayer :=
    safeQuerySelector w (Simple (ClassSelector CONFIG.NOT_ACTIVE_LAYER)) in
  let activeLayer :=
    safeQuerySelector w (Simple (ClassSelector CONFIG.ACTIVE_LAYER)) in
  let home := safeQuerySelector w (Simple (ClassSelector HOME)) in
  let portfolioGrid := safeQuerySelector w (Simple (ClassSelector PORTFOLIO_GRID)) in
  let w := delayExecution CONFIG.TRANSITION_DELAY (Some (HideHome home)) w in
  let w := delayExecution CONFIG.LAYER_SWITCH_DELAY (Some (ShowGrid portfolioGrid)) w in
  let w := delayExecution CONFIG.LAYER_OPACITY_DELAY
             (Some (SwitchLayers notActiveLayer activeLayer false)) w in
  delayExecution CONFIG.PAPER_SOUND_DELAY (Some PlayPaper) w.

(** [backToHome()] *)
Definition backToHome (w : World) : World :=
  let w := with_audioManager (playClick (audioManager w)) w in
  let notActiveLayer :=
    safeQuerySelector w (Simple (ClassSelector CONFIG.NOT_ACTIVE_LAYER)) in
  let activeLayer :=
    safeQuerySelector w (Simple (ClassSelector CONFIG.ACTIVE_LAYER)) in
  let home := safeQuerySelector w (Simple (ClassSelector HOME)) in
  let portfolioGrid := safeQuerySelector w (Simple (ClassSelector PORTFOLIO_GRID)) in
  let w := delayExecution CONFIG.LAYER_OPACITY_DELAY
             (Some (HideGridToBottom portfolioGrid notActiveLayer activeLayer)) w in
  let w := delayExecution HOME_ACTIVATION_DELAY (Some (ShowHome home)) w in
  delayExecution CONFIG.PAPER_SOUND_DELAY (Some (PlayPaperAndScroll portfolioGrid)) w.

(** [openPortfolioItem(element)] *)
Definition openPortfolioItem (this : NavigationManager) (element : nat) (w : World)
  : NavigationManager * World :=
  let w := with_audioManager (playClick (audioManager w)) w in
  let items := querySelectorAll (document w) (Simple (ClassSelector ITEM)) in
  let index := indexOf element items + 1 in
  let this := {| currentProjectIndex := index |} in
  let notActiveLayer :=
    safeQuerySelector w (Simple (ClassSelector CONFIG.NOT_ACTIVE_LAYER)) in
  let activeLayer :=
    safeQuerySelector w (Simple (ClassSelector CONFIG.ACTIVE_LAYER)) in
  let portfolioGrid := safeQuerySelector w (Simple (ClassSelector PORTFOLIO_GRID)) in
  let w := delayExecution CONFIG.TRANSITION_DELAY
             (Some (HideGridToTop portfolioGrid)) w in
  let w := delayExecution CONFIG.LAYER_SWITCH_DELAY (Some (ActivateProject index)) w in
  let w := delayExecution CONFIG.LAYER_OPACITY_DELAY
             (Some (SwitchLayers notActiveLayer activeLayer false)) w in
  let w := delayExecution CONFIG.PAPER_SOUND_DELAY
             (Some (PlayPaperAndScroll portfolioGrid)) w in
  (this, w).

(** [backToPortfolio()] *)
Definition backToPortfolio (w : World) : World :=
  let w := with_audioManager (playClick (audioManager w)) w in
  let notActiveLayer :=
    safeQuerySelector w (Simple (ClassSelector CONFIG.NOT_ACTIVE_LAYER)) in
  let activeLayer :=
    safeQuerySelector w (Simple (ClassSelector CONFIG.ACTIVE_LAYER)) in
  let portfolioGrid := safeQuerySelector w (Simple (ClassSelector PORTFOLIO_GRID)) in
  let w := delayExecution CONFIG.LAYER_OPACITY_DELAY
             (Some (SwitchLayers notActiveLayer activeLayer true)) w in
  let w := delayExecution CONFIG.LAYER_SWITCH_DELAY
             (Some (ShowGridAndDeactivate portfolioGrid)) w in
  delayExecution CONFIG.PAPER_SOUND_DELAY (Some PlayPaper) w.

(** [navigateToProject(targetIndex)] *)
Definition navigateToProject (this : NavigationManager) (targetIndex : Z)
  (w : World) : NavigationManager * World :=
  let w := with_audioManager (playClick (audioManager w)) w in
  let notActiveLayer :=
    safeQuerySelector w (Simple (ClassSelector CONFIG.NOT_ACTIVE_LAYER)) in
  let activeLayer :=
    safeQuerySelector w (Simple (ClassSelector CONFIG.ACTIVE_LAYER)) in
  let currentProject :=
    safeQuerySelector w (Simple (NthChildArticle CONFIG.PORTFOLIO_ITEMS
                                                 (currentProjectIndex this))) in
  let targetProject :=
    safeQuerySelector w (Simple (NthChildArticle CONFIG.PORTFOLIO_ITEMS
                                                 targetIndex)) in
  match targetProject with
  | None => (this, w)
  | Some _ =>
      let direction :=
        if bool_decide (targetIndex > currentProjectIndex this) then Bottom
        else Top in
      let w := delayExecution CONFIG.TRANSITION_DELAY
                 (Some (LeaveCurrent currentProject direction)) w in
      let w := delayExecution CONFIG.LAYER_SWITCH_DELAY
                 (Some (EnterTarget targetProject)) w in
      let w := delayExecution CONFIG.LAYER_OPACITY_DELAY
                 (Some (SwitchLayers notActiveLayer activeLayer false)) w in
      let w := delayExecution CONFIG.PAPER_SOUND_DELAY (Some PlayPaper) w in
      ({| currentProjectIndex := targetIndex |}, w)
  end.

(** [navigateToPreviousProject()] *)
Definition navigateToPreviousProject (this : NavigationManager) (w : World)
  : NavigationManager * World :=
  navigateToProject this (currentProjectIndex this - 1) w.

(** [navigateToNextProject()] *)
Definition navigateToNextProject (this : NavigationManager) (w : World)
  : NavigationManager * World :=
  navigateToProject this (currentProjectIndex this + 1) w.

(** *** The about section: class [UIManager] of [src/js/ui-manager.js] *)

(** An event, as far as [preventDefault()] goes. *)
Record Event := {
  cancelable : bool;
  defaultPrevented : bool
}.

(** [event.preventDefault()] *)
Definition preventDefault (event : Event) : Event :=
  {| cancelable := cancelable event;
     defaultPrevented := defaultPrevented event || cancelable event |}.

(** [safeQuerySelector(`#${id}`)]: the first element with the id, [ids]
    giving the [id] attribute of the elements that have one. *)
Definition safeQuerySelector_id (ids : gmap nat string) (w : World) (id : string)
  : option nat :=
  head (filter (fun i => ids !! i = Some id) (seq 0 (length (document w)))).

(** [openAbout(event)] *)
Definition openAbout (ids : gmap nat string) (event : Event) (w : World)
  : Event * World :=
  let event := preventDefault event in
  let w := with_audioManager (playClick (audioManager w)) w in
  let w := with_audioManager (playPaperAboutUp (audioManager w)) w in
  let overlay := safeQuerySelector_id ids w OVERLAY in
  let content := safeQuerySelector_id ids w CONTENT in
  let contentContainer := safeQuerySelector_id ids w CONTENT_CONTAINER in
  let w := delayExecution ABOUT_OVERLAY_DELAY
             (Some (ShowOverlay overlay contentContainer)) w in
  let w := delayExecution ABOUT_CONTENT_DELAY (Some (ShowContent content)) w in
  (event, w).

(** [closeAbout()] *)
Definition closeAbout (ids : gmap nat string) (w : World) : World :=
  let w := with_audioManager (playClick (audioManager w)) w in
  let overlay := safeQuerySelector_id ids w OVERLAY in
  let content := safeQuerySelector_id ids w CONTENT in
  let contentContainer := safeQuerySelector_id ids w CONTENT_CONTAINER in
  let w := removeClass content CONFIG.ACTIVE w in
  let w := delayExecution ABOUT_CLOSE_DELAY (Some PlayPaperAboutDown) w in
  let w := delayExecution ABOUT_CLOSE_DELAY (Some (HideOverlay overlay)) w in
  let w := delayExecution ABOUT_CONTAINER_DELAY
             (Some (HideContainer contentContainer)) w in
  delayExecution ABOUT_SCROLL_DELAY (Some ScrollContentContainer) w.

(** *** The event loop *)

(** The position of the earliest of the due times, the first among
    equals. *)
Fixpoint earliest (dues : list Z) : option nat :=
  match dues with
  | [] => None
  | d :: rest =>
      match earliest rest with
      | Some j =>
          match rest !! j with
          | Some d' => if bool_decide (d' < d) then Some (S j) else Some 0%nat
          | None => Some 0%nat
          end
      | None => Some 0%nat
      end
  end.

(** Time passes until the next pending timer is due, and it fires. *)
Definition fire_next (w : World) : World :=
  match earliest (map due (timers w)) with
  | Some j =>
      match timers w !! j with
      | Some t =>
          let w := {| document := document w; scrollTop := scrollTop w;
                      timers := delete j (timers w);
                      now := Z.max (now w) (due t);
                      audioManager := audioManager w; errors := errors w |} in
          match task t with
          | Some callback => run_task callback w
          | None => w
          end
      | None => w
      end
  | None => w
  end.

(** Time passes, [d] milliseconds of it, without a timer firing. *)
Definition later (d : Z) (w : World) : World :=
  {| document := document w; scrollTop := scrollTop w; timers := timers w;
     now := now w + d; audioManager := audioManager w; errors := errors w |}.

(** The class lists of the document, element by element. *)
Definition class_lists (w : World) : list (list string) :=
  map classList (document w).

(** What a class change leaves alone. *)
Definition same_but_document (w w' : World) : Prop :=
  scrollTop w' = scrollTop w ∧ timers w' = timers w ∧ now w' = now w ∧
  audioManager w' = audioManager w ∧ errors w' = errors w.

(** The three classes [switchLayers] deals in. *)
Definition layer_classes : list string :=
  [CONFIG.NOT_ACTIVE_LAYER; CONFIG.ACTIVE_LAYER; CONFIG.OPACITY_0].

(** The articles that are children of an element with class
    [container]. *)
Definition is_project (doc : Document) (container : string) (i : nat) : bool :=
  match doc !! i with
  | Some el =>
      bool_decide (tagName el = "article")
      && match parent el with
         | Some p => has_class doc p container
         | None => false
         end
  | None => false
  end.

End Page.

(** ** The audio manager *)

(** Class [AudioManager] of [src/js/config.js], as the source has it,
    with [isMobileDevice()] of [js/utils.js] ([src/unnamed/part_003]).
    What the browser does is recorded, not simulated: the assignments of
    [currentTime], the calls of [play()] and [resume()] go to a list of
    effects, the promises those calls return stay pending until the
    browser settles them. *)

Module AudioPlayback.

(** *** [isMobileDevice()] *)

(** How a regular expression with the flag [i] (and without [u])
    compares two characters: by their upper-case forms, a character
    outside ASCII never being taken for an ASCII one.  The patterns
    below are ASCII, so that only the letters [a] to [z] need folding. *)
Definition canonicalize (c : ascii) : ascii :=
  let n := nat_of_ascii c in
  if ((97 <=? n) && (n <=? 122))%nat then ascii_of_nat (n - 32) else c.

(** The pattern matches at the start of [s]. *)
Fixpoint matches_here (pattern s : string) : bool :=
  match pattern, s with
  | EmptyString, _ => true
  | String a pattern', String b s' =>
      bool_decide (canonicalize a = canonicalize b) && matches_here pattern' s'
  | String _ _, EmptyString => false
  end.

(** [s.match(/pattern/i)] is not [null]: the pattern, all of whose
    characters are literal, matches somewhere in [s]. *)
Fixpoint matches (pattern s : string) : bool :=
  matches_here pattern s ||
  match s with
  | EmptyString => false
  | String _ s' => matches pattern s'
  end.

Definition mobilePatterns : list string :=
  ["Android"; "webOS"; "iPhone"; "iPad"; "iPod"; "BlackBerry"; "Windows Phone"].

(** [isMobileDevice()], [userAgent] being [navigator.userAgent]. *)
Definition isMobileDevice (userAgent : string) : bool :=
  existsb (fun pattern => matches pattern userAgent) mobilePatterns.

(** [s] with every character in the form it is compared in. *)
Fixpoint fold_case (s : string) : string :=
  match s with
  | EmptyString => EmptyString
  | String c s' => String (canonicalize c) (fold_case s')
  end.

(** *** The browser *)

(** [CONFIG.AUDIO], in the order of the literal. *)
Definition CONFIG_AUDIO : list (string * string) :=
  [("CLICK", "sounds/click.mp3");
   ("CLICK_MOBILE", "sounds/mobile/click.mp3");
   ("HOVER", "sounds/hover.mp3");
   ("HOVER_MOBILE", "sounds/mobile/hover.mp3");
   ("HOVER2", "sounds/hover2.mp3");
   ("HOVER3", "sounds/hover3.mp3");
   ("PAPER", "sounds/paper.mp3");
   ("PAPER_MOBILE", "sounds/mobile/paper.mp3");
   ("PAPER_ABOUT_UP", "sounds/paperaboutup.mp3");
   ("PAPER_ABOUT_UP_MOBILE", "sounds/mobile/paperaboutup.mp3");
   ("PAPER_ABOUT_DOWN", "sounds/paperaboutdown.mp3");
   ("PAPER_ABOUT_DOWN_MOBILE", "sounds/mobile/paperaboutdown.mp3");
   ("SKIN", "sounds/skin.mp3");
   ("SKIN_MOBILE", "sounds/mobile/skin.mp3")].

(** An [Audio] element, as far as the manager writes it. *)
Record HTMLAudioElement := {
  src : string;
  preload : string;
  muted : bool
}.

(** [audioContext.state] *)
Inductive AudioContextState := suspended | running | closed.

#[global] Instance AudioContextState_eq_dec : EqDecision AudioContextState.
Proof. solve_decision. Defined.

(** What the manager asks of the browser.  [SetCurrentTime key] is the
    assignment [sound.currentTime = 0] on the value of
    [this.sounds[key]], [Play key] the call of [play()] on it. *)
Inductive Effect :=
| SetCurrentTime (soundKey : string)
| Play (soundKey : string)
| Resume.

#[global] Instance Effect_eq_dec : EqDecision Effect.
Proof. solve_decision. Defined.

(** A promise the manager waits for: that of [sound.play()] in
    [playSound(soundKey)], or that of [audioContext.resume()]. *)
Inductive Promise :=
| played (soundKey : string)
| resumed.

(** How the browser settles a promise; it rejects with a [DOMException]
    of the given name. *)
Inductive Outcome :=
| fulfilled
| rejected (name : string).

Inductive ConsoleLine :=
| console_debug (text : string)
| console_warn (text : string)
| console_error (text : string).

Record World := {
  userAgent : string;                 (* navigator.userAgent *)
  new_AudioContext : bool;            (* [new AudioContext()] returns *)
  contextState : AudioContextState;   (* the state of the context now *)
  new_Audio : string -> bool;         (* [new Audio(path)] returns *)
  effects : list Effect;              (* oldest first *)
  pending : list Promise;             (* oldest first *)
  console : list ConsoleLine          (* oldest first *)
}.

Definition with_effects (new : list Effect) (w : World) : World :=
  {| userAgent := userAgent w; new_AudioContext := new_AudioContext w;
     contextState := contextState w; new_Audio := new_Audio w;
     effects := effects w ++ new; pending := pending w;
     console := console w |}.

Definition with_pending (p : list Promise) (w : World) : World :=
  {| userAgent := userAgent w; new_AudioContext := new_AudioContext w;
     contextState := contextState w; new_Audio := new_Audio w;
     effects := effects w; pending := p; console := console w |}.

Definition print (line : ConsoleLine) (w : World) : World :=
  {| userAgent := userAgent w; new_AudioContext := new_AudioContext w;
     contextState := contextState w; new_Audio := new_Audio w;
     effects := effects w; pending := pending w;
     console := console w ++ [line] |}.

(** The double quote of the messages. *)
Definition dquote : string := String "034"%char EmptyString.

(** The names every plain object inherits from [Object.prototype]:
    [this.sounds[key]] finds a value for them, which is no sound. *)
Definition Object_prototype : list string :=
  ["constructor"; "hasOwnProperty"; "isPrototypeOf"; "propertyIsEnumerable";
   "toLocaleString"; "toString"; "valueOf"; "__proto__";
   "__defineGetter__"; "__defineSetter__";
   "__lookupGetter__"; "__lookupSetter__"].

(** *** The manager *)

Record AudioManager := {
  enabled : bool;
  isMobile : bool;
  audioContext : bool;                       (* [false] is [null] *)
  sounds : gmap string HTMLAudioElement
}.

Definition with_sounds (s : gmap string HTMLAudioElement) (this : AudioManager)
  : AudioManager :=
  {| enabled := enabled this; isMobile := isMobile this;
     audioContext := audioContext this; sounds := s |}.

(** [initializeAudioContext()] *)
Definition initializeAudioContext (this : AudioManager) (w : World)
  : AudioManager * World :=
  if new_AudioContext w
  then ({| enabled := enabled this; isMobile := isMobile this;
           audioContext := true; sounds := sounds this |}, w)
  else (this, print (console_warn "Web Audio API not supported:") w).

(** [updateMuteState()] *)
Definition updateMuteState (this : AudioManager) : AudioManager :=
  with_sounds
    ((fun audio => {| src := src audio; preload := preload audio;
                      muted := negb (enabled this) |}) <$> sounds this)
    this.

(** The callback of [preloadSounds()], for one entry of [CONFIG.AUDIO]. *)
Definition preloadSound (s : AudioManager * World) (entry : string * string)
  : AudioManager * World :=
  let '(this, w) := s in
  let '(key, path) := entry in
  if new_Audio w path
  then (with_sounds
          (<[key := {| src := path; preload := "auto"; muted := false |}]>
             (sounds this))
          this, w)
  else (this,
        print (console_error ("Failed to load audio file " +:+ path +:+ ":")) w).

(** [preloadSounds()] *)
Definition preloadSounds (this : AudioManager) (w : World)
  : AudioManager * World :=
  let '(this', w') := foldl preloadSound (this, w) CONFIG_AUDIO in
  (updateMuteState this', w').

(** [new AudioManager()] *)
Definition constructor (w : World) : AudioManager * World :=
  let this := {| enabled := true; isMobile := isMobileDevice (userAgent w);
                 audioContext := false; sounds := ∅ |} in
  let '(this, w) := initializeAudioContext this w in
  preloadSounds this w.

(** [resumeAudioContext()] *)
Definition resumeAudioContext (this : AudioManager) (w : World) : World :=
  if audioContext this && bool_decide (contextState w = suspended)
  then with_pending (pending w ++ [resumed]) (with_effects [Resume] w)
  else w.

(** [setEnabled(enabled)], for a boolean. *)
Definition setEnabled (value : bool) (this : AudioManager) (w : World)
  : AudioManager * World :=
  let this := {| enabled := value; isMobile := isMobile this;
                 audioContext := audioContext this; sounds := sounds this |} in
  let this := updateMuteState this in
  if enabled this && audioContext this
     && bool_decide (contextState w = suspended)
  then (this, resumeAudioContext this w)
  else (this, w).

(** [playSound(soundKey)], up to its [await].  A key [Object.prototype]
    has a value for passes the test of [sound]; the assignment goes to
    that value, the call of [play], which it does not have, throws a
    [TypeError], and the [catch] reports it. *)
Definition playSound (soundKey : string) (this : AudioManager) (w : World)
  : World :=
  if negb (enabled this) then w
  else match sounds this !! soundKey with
       | Some _ =>
           with_pending (pending w ++ [played soundKey])
             (with_effects [SetCurrentTime soundKey; Play soundKey] w)
       | None =>
           if bool_decide (soundKey ∈ Object_prototype)
           then print (console_debug ("Audio playback failed for " +:+ dquote
                                      +:+ soundKey +:+ dquote +:+ ":"))
                  (with_effects [SetCurrentTime soundKey] w)
           else print (console_warn ("Sound " +:+ dquote +:+ soundKey
                                     +:+ dquote +:+ " not found")) w
       end.

(** What follows the [await] of [playSound(soundKey)], and the handler
    [resumeAudioContext()] installs, once the browser settles the
    promise at position [i] of the pending ones. *)
Definition settle (i : nat) (outcome : Outcome) (w : World) : World :=
  match pending w !! i with
  | None => w
  | Some promise =>
      let w' := with_pending (delete i (pending w)) w in
      match promise, outcome with
      | _, fulfilled => w'
      | played soundKey, rejected name =>
          if bool_decide (name ≠ "NotAllowedError")
             && bool_decide (name ≠ "NotSupportedError")
          then print (console_debug ("Audio playback failed for " +:+ dquote
                                     +:+ soundKey +:+ dquote +:+ ":")) w'
          else w'
      | resumed, rejected _ =>
          print (console_warn "Failed to resume audio context:") w'
      end
  end.

(** [playClick()] *)
Definition playClick (this : AudioManager) (w : World) : World :=
  playSound (if isMobile this then "CLICK_MOBILE" else "CLICK") this w.

(** [playHover()] *)
Definition playHover (this : AudioManager) (w : World) : World :=
  if isMobile this then w else playSound "HOVER" this w.

(** [playHover2()] *)
Definition playHover2 (this : AudioManager) (w : World) : World :=
  if isMobile this then w else playSound "HOVER2" this w.

(** [playHover3()] *)
Definition playHover3 (this : AudioManager) (w : World) : World :=
  if isMobile this then w
  else
    let w := match sounds this !! "HOVER3" with
             | Some _ => with_effects [SetCurrentTime "HOVER3"] w
             | None => w
             end in
    playSound "HOVER3" this w.

(** [playPaper()] *)
Definition playPaper (this : AudioManager) (w : World) : World :=
  playSound (if isMobile this then "PAPER_MOBILE" else "PAPER") this w.

(** [playPaperAboutUp()] *)
Definition playPaperAboutUp (this : AudioManager) (w : World) : World :=
  playSound (if isMobile this then "PAPER_ABOUT_UP_MOBILE" else "PAPER_ABOUT_UP")
    this w.

(** [playPaperAboutDown()] *)
Definition playPaperAboutDown (this : AudioManager) (w : World) : World :=
  playSound
    (if isMobile this then "PAPER_ABOUT_DOWN_MOBILE" else "PAPER_ABOUT_DOWN")
    this w.

(** [playSkin()] *)
Definition playSkin (this : AudioManager) (w : World) : World :=
  playSound (if isMobile this then "SKIN_MOBILE" else "SKIN") this w.

(** *** Using the manager *)

(** The methods that play a sound. *)
Inductive Sound :=
| sound (soundKey : string)
| click | hover | hover2 | hover3
| paper | paperAboutUp | paperAboutDown | skin.

Definition play (s : Sound) : AudioManager -> World -> World :=
  match s with
  | sound soundKey => playSound soundKey
  | click => playClick
  | hover => playHover
  | hover2 => playHover2
  | hover3 => playHover3
  | paper => playPaper
  | paperAboutUp => playPaperAboutUp
  | paperAboutDown => playPaperAboutDown
  | skin => playSkin
  end.

(** What happens to a manager: the calls of its methods, and the browser
    settling a promise or changing the state of the audio context. *)
Inductive Event :=
| calls_setEnabled (value : bool)
| calls_resumeAudioContext
| calls (s : Sound)
| settles (i : nat) (outcome : Outcome)
| context_becomes (state : AudioContextState).

Definition happens (s : AudioManager * World) (e : Event)
  : AudioManager * World :=
  let '(this, w) := s in
  match e with
  | calls_setEnabled value => setEnabled value this w
  | calls_resumeAudioContext => (this, resumeAudioContext this w)
  | calls s => (this, play s this w)
  | settles i outcome => (this, settle i outcome w)
  | context_becomes state =>
      (this, {| userAgent := userAgent w; new_AudioContext := new_AudioContext w;
                contextState := state; new_Audio := new_Audio w;
                effects := effects w; pending := pending w;
                console := console w |})
  end.

(** The value of the last [setEnabled] among the events, [true] (that of
    the constructor) when there is none. *)
Definition last_setEnabled (events : list Event) : bool :=
  foldl (fun value e => match e with
                        | calls_setEnabled value' => value'
                        | _ => value
                        end) true events.

(** The sounds table of a manager made in the world [w], after a last
    [setEnabled(value)]. *)
Definition loaded (w : World) (value : bool) (key : string)
  : option HTMLAudioElement :=
  path ← (list_to_map CONFIG_AUDIO : gmap string string) !! key;
  if new_Audio w path
  then Some {| src := path; preload := "auto"; muted := negb value |}
  else None.

(** What holds of a manager made in [w] whose last [setEnabled] was
    given [value]. *)
Definition made_in (w : World) (value : bool) (s : AudioManager * World)
  : Prop :=
  enabled s.1 = value ∧
  isMobile s.1 = isMobileDevice (userAgent w) ∧
  audioContext s.1 = new_AudioContext w ∧
  ∀ key, sounds s.1 !! key = loaded w value key.

(** The keys of the sounds started, oldest first. *)
Definition started (es : list Effect) : list string :=
  omap (fun e => match e with Play soundKey => Some soundKey | _ => None end) es.

End AudioPlayback.

(** ** The hover animation of the portfolio items *)

(** Classes [Portfolio3DAnimationManager] and [PortfolioItem] of
    [src/js/animations.js].  The direction key is computed from the
    position of the mouse and the box of the element in floating point;
    [update] is given it. *)

Module Animations.
Import Navigation Dom.

Record Portfolio3DAnimationManager := {
  directions : list (Z * string);      (* the properties, in key order *)
  classNames : list string
}.

(** [xs.reduce((a, b) => a.concat(b))], which throws on an empty array. *)
Definition reduce_concat (xs : list (list string)) : option (list string) :=
  match xs with
  | [] => None
  | a :: rest => Some (foldl (fun a b => a ++ b) a rest)
  end.

(** [new Portfolio3DAnimationManager()] *)
Definition constructor : option Portfolio3DAnimationManager :=
  let directions := [(0, "top"); (1, "right"); (2, "bottom"); (3, "left")] in
  classNames ←
    reduce_concat
      ((fun prefix => (fun dir => prefix +:+ "-" +:+ dir) <$> directions.*2)
         <$> ["in"; "out"]);
  Some {| directions := directions; classNames := classNames |}.

(** What [getDirectionKey] returns, [Math.round(...) % 4]: an integer or
    [NaN]. *)
Inductive DirectionKey :=
| key (n : Z)
| key_NaN.

(** [this.manager.directions[directionKey]]; [None] is [undefined]. *)
Definition direction (manager : Portfolio3DAnimationManager)
  (directionKey : DirectionKey) : option string :=
  match directionKey with
  | key n => snd <$> head (filter (fun entry => entry.1 = n) (directions manager))
  | key_NaN => None
  end.

(** How a call ends, and the document it leaves. *)
Inductive Completion :=
| returns (doc : Document)
| throws (doc : Document).

(** [classList.remove(...tokens)] *)
Definition remove_all (tokens : list string) (cl : list string) : list string :=
  foldl (fun cl token => token_remove token cl) cl tokens.

(** [update(event, prefix)] of the item of [element], an element of the
    document, the direction key of the event being [directionKey]. *)
Definition update (manager : Portfolio3DAnimationManager) (element : nat)
  (directionKey : DirectionKey) (prefix : string) (doc : Document)
  : Completion :=
  if forallb valid_token (classNames manager)
  then
    let doc := set_classes (remove_all (classNames manager)) element doc in
    let c := prefix +:+ "-" +:+
             default "undefined" (direction manager directionKey) in
    if valid_token c
    then returns (set_classes (token_add c) element doc)
    else throws doc
  else throws doc.

End Animations.

(** ** Concrete pages, for running the model *)

Module Scenario.
Import JS.

(** A page served from [example.org]: not a development host. *)
Definition page : Window :=
  {| hostname := "example.org";
     href := "https://example.org/";
     toISOString := fun n => "T" +:+ pretty n;
     dateNow := fun n => Z.of_nat n;
     performanceSupported := true;
     toFixed2 := fun d => pretty d +:+ ".00" |}.

(** The same page in a browser without the Performance interface. *)
Definition page_without_performance : Window :=
  {| hostname := "example.org";
     href := "https://example.org/";
     toISOString := fun n => "T" +:+ pretty n;
     dateNow := fun n => Z.of_nat n;
     performanceSupported := false;
     toFixed2 := fun d => pretty d +:+ ".00" |}.

(** The world before any module has been evaluated. *)
Definition blank (win : Window) : World :=
  {| window := win; heap := []; arrays := []; console := []; clock := 0;
     timeline := []; invocations := [];
     logger := {| logs := 0%nat; maxLogs := 0; isDevelopment := false |} |}.

(** The world once [logger.js] has been evaluated. *)
Definition with_logger_module (win : Window) : World :=
  world_of (Logger.constructor (blank win)).

(** One hundred and fifty calls of [info]. *)
Definition many_calls : list Logger.LogCall :=
  map (fun n => Logger.Info ("Log " +:+ pretty n) VUndefined) (seq 0 150).

(** Observers that return, except observer 7, which throws. *)
Definition outcome (callback : nat) (newValue oldValue : val)
  : StateManager.Outcome :=
  {| StateManager.unsubscribes := [];
     StateManager.completion :=
       if bool_decide (callback = 7%nat)
       then StateManager.throws (VStr "Observer error")
       else StateManager.returns |}.


(** The store as [state-manager.js] leaves it. *)
Definition store : StateManager.StateManager * World :=
  StateManager.fresh_store (blank page).

(** The same store once the observers 1, 7 and 2 have subscribed to
    [currentView], in this order. *)
Definition observed_store : StateManager.StateManager * World :=
  default store
    (StateManager.run_ops outcome
       [StateManager.OpSubscribe "currentView" 1;
        StateManager.OpSubscribe "currentView" 7;
        StateManager.OpSubscribe "currentView" 2] store).






(** A monitor constructed in the given page. *)
Definition monitor (win : Window)
  : PerformanceMonitor.PerformanceMonitor * World :=
  match PerformanceMonitor.constructor (with_logger_module win) with
  | Ok this w => (this, w)
  | Throw _ w | Beyond w =>
      ({| PerformanceMonitor.metrics := ∅; PerformanceMonitor.marks := ∅;
          PerformanceMonitor.isSupported := false |}, w)
  end.

(** A document with three projects and the two layers. *)
Definition three_projects : Navigation.Document :=
  [ {| Navigation.tagName := "div"; Navigation.classList := ["portfolio-items"];
       Navigation.parent := None |};
    {| Navigation.tagName := "article"; Navigation.classList := ["active"];
       Navigation.parent := Some 0%nat |};
    {| Navigation.tagName := "article"; Navigation.classList := ["to-top"];
       Navigation.parent := Some 0%nat |};
    {| Navigation.tagName := "article"; Navigation.classList := [];
       Navigation.parent := Some 0%nat |};
    {| Navigation.tagName := "div"; Navigation.classList := ["active-layer"];
       Navigation.parent := None |};
    {| Navigation.tagName := "div"; Navigation.classList := ["not-active-layer"];
       Navigation.parent := None |} ].

(** The page showing this document, no timer pending, sound on. *)
Definition showing_projects : Page.World :=
  {| Page.document := three_projects;
     Page.scrollTop := ∅;
     Page.timers := [];
     Page.now := 0;
     Page.audioManager :=
       {| Navigation.enabled := true; Navigation.isMobile := false;
          Navigation.requested := []; Navigation.played := [] |};
     Page.errors := [] |}.

End Scenario.

(** ** A concrete page, for running the transitions *)

Module PageScenario.
Import Navigation.

Definition element (tag : string) (classes : list string) (parent : option nat)
  : Element :=
  {| tagName := tag; classList := classes; parent := parent |}.

(** The home region, the grid with three items, three projects and the
    two layers; the home region is showing. *)
Definition at_home : Document :=
  [ element "div" ["home"; "active"] None;
    element "div" ["portfolio-grid"; "to-bottom"] None;
    element "div" ["item"] (Some 1%nat);
    element "div" ["item"] (Some 1%nat);
    element "div" ["item"] (Some 1%nat);
    element "div" ["portfolio-items"] None;
    element "article" [] (Some 5%nat);
    element "article" [] (Some 5%nat);
    element "article" [] (Some 5%nat);
    element "div" ["active-layer"] None;
    element "div" ["not-active-layer"; "opacity-0"] None ].

(** The same page with the grid showing. *)
Definition at_grid : Document :=
  [ element "div" ["home"; "to-top"] None;
    element "div" ["portfolio-grid"; "active"] None;
    element "div" ["item"] (Some 1%nat);
    element "div" ["item"] (Some 1%nat);
    element "div" ["item"] (Some 1%nat);
    element "div" ["portfolio-items"] None;
    element "article" [] (Some 5%nat);
    element "article" [] (Some 5%nat);
    element "article" [] (Some 5%nat);
    element "div" ["not-active-layer"] None;
    element "div" ["active-layer"] None ].

(** The same page with the second project showing. *)
Definition at_project : Document :=
  [ element "div" ["home"; "to-top"] None;
    element "div" ["portfolio-grid"; "to-top"] None;
    element "div" ["item"] (Some 1%nat);
    element "div" ["item"] (Some 1%nat);
    element "div" ["item"] (Some 1%nat);
    element "div" ["portfolio-items"] None;
    element "article" ["to-bottom"] (Some 5%nat);
    element "article" ["active"] (Some 5%nat);
    element "article" ["to-top"] (Some 5%nat);
    element "div" ["active-layer"] None;
    element "div" ["not-active-layer"] None ].

(** A page showing the document, no timer pending, sound on, on a
    desktop. *)
Definition showing (doc : Document) : Page.World :=
  {| Page.document := doc;
     Page.scrollTop := ∅;
     Page.timers := [];
     Page.now := 0;
     Page.audioManager :=
       {| enabled := true; isMobile := false; requested := []; played := [] |};
     Page.errors := [] |}.

End PageScenario.

(** ** A concrete browser, for running the audio manager *)

Module AudioScenario.
Import AudioPlayback.

(** A desktop browser in which every sound loads and the audio context
    starts suspended. *)
Definition desktop : World :=
  {| userAgent := "Mozilla/5.0 (X11; Linux x86_64; rv:128.0) Firefox/128.0";
     new_AudioContext := true;
     contextState := suspended;
     new_Audio := fun _ => true;
     effects := [];
     pending := [];
     console := [] |}.

(** The manager made there, and the same manager after
    [setEnabled(false)]. *)
Definition manager : AudioManager := (constructor desktop).1.

Definition silenced : AudioManager := (setEnabled false manager desktop).1.

End AudioScenario.

(** ** A page with an about section *)

Module AboutScenario.
Import Navigation.

(** The home region, the overlay and the container with the content;
    the about section is closed, or open. *)
Definition about_closed : Document :=
  [ PageScenario.element "div" ["home"; "active"] None;
    PageScenario.element "div" [] None;
    PageScenario.element "div" ["content-container"] None;
    PageScenario.element "div" [] (Some 2%nat) ].

Definition about_open : Document :=
  [ PageScenario.element "div" ["home"; "active"] None;
    PageScenario.element "div" ["active"] None;
    PageScenario.element "div" ["content-container"; "active"] None;
    PageScenario.element "div" ["active"] (Some 2%nat) ].

(** The [id] attributes of the two documents. *)
Definition ids : gmap nat string :=
  <[1%nat := "overlay"]> (<[2%nat := "contentcontainer"]> (<[3%nat := "content"]> ∅)).

(** A click, which can be cancelled. *)
Definition click : Page.Event :=
  {| Page.cancelable := true; Page.defaultPrevented := false |}.

End AboutScenario.

(* ===================================================================== *)
(** * Part II: the properties                                              *)
(* ===================================================================== *)

(** ** Computations *)

Module MonadFacts.
Import JS.

Lemma bind_Ok {A B} (m : M A) (f : A -> M B) w a w1 :
  m w = Ok a w1 -> bind m f w = f a w1.
Proof. unfold bind. by intros ->. Qed.

Lemma bind_Throw {A B} (m : M A) (f : A -> M B) w e w1 :
  m w = Throw e w1 -> bind m f w = Throw e w1.
Proof. unfold bind. by intros ->. Qed.

Lemma bind_Beyond {A B} (m : M A) (f : A -> M B) w w1 :
  m w = Beyond w1 -> bind m f w = Beyond w1.
Proof. unfold bind. by intros ->. Qed.

Lemma props_at_new w' h p :
  heap w' = h ++ [p] -> props_at w' (length h) = p.
Proof.
  intros Hh. unfold props_at. by rewrite Hh, list_lookup_middle.
Qed.

(** Objects that exist keep their properties when the heap grows. *)
Lemma props_at_grow w w' new l :
  heap w' = heap w ++ new -> (l < length (heap w))%nat ->
  props_at w' l = props_at w l.
Proof.
  intros Hh Hl. unfold props_at. by rewrite Hh, lookup_app_l.
Qed.

Lemma own_property_grow w w' new l k :
  heap w' = heap w ++ new -> (l < length (heap w))%nat ->
  own_property w' (VRef l) k = own_property w (VRef l) k.
Proof.
  intros Hh Hl. unfold own_property. by rewrite (props_at_grow w w' new).
Qed.

(** Decides that a given name is not one of a given list. *)
Ltac not_listed :=
  apply (proj1 (bool_decide_eq_false _)); vm_compute; reflexivity.

(** A name that [Object.prototype] does not have is read from the
    object's own properties. *)
Lemma lookup_member_plain w l k :
  k ∉ Object_prototype ->
  lookup_member w (VRef l) k =
  match props_at w l !! k with Some v => found v | None => absent end.
Proof.
  intros Hk. unfold lookup_member. destruct (_ !! k); [done|].
  by rewrite bool_decide_eq_false_2.
Qed.

Lemma get_member_plain w l k :
  k ∉ Object_prototype ->
  get_member (VRef l) k w = Ok (own_property w (VRef l) k) w.
Proof.
  intros Hk. unfold get_member, own_property.
  rewrite lookup_member_plain by done. by destruct (_ !! k).
Qed.

Lemma get_member_own w l k v :
  props_at w l !! k = Some v -> get_member (VRef l) k w = Ok v w.
Proof. intros Hv. unfold get_member, lookup_member. by rewrite Hv. Qed.

Lemma put_member_plain w l k v :
  k ∉ Object_prototype ->
  put_member (VRef l) k v w =
  Ok tt (with_heap (<[l := <[k := v]> (props_at w l)]> (heap w)) w).
Proof.
  intros Hk. unfold put_member. rewrite lookup_member_plain by done.
  by destruct (_ !! k).
Qed.

Lemma filter_none {A} (P : A -> Prop) `{∀ x, Decision (P x)} (l : list A) :
  Forall (fun x => ¬ P x) l -> filter P l = [].
Proof.
  induction 1 as [|x l Hx _ IH]; [done|].
  by rewrite filter_cons, decide_False.
Qed.

End MonadFacts.

(** ** The log sink *)

Module LoggerFacts.
Import JS Logger MonadFacts.
Local Open Scope js_scope.

Lemma formatLog_run lvl msg d w :
  formatLog lvl msg d w =
  Ok (VRef (length (heap w)))
     (with_heap (heap w ++ [entry_literal (toISOString (window w) (clock w)) lvl msg
                              (default_null d) (href (window w))])
        (with_clock (S (clock w)) w)).
Proof. reflexivity. Qed.

Lemma addToHistory_run e w :
  addToHistory e w =
  Ok tt (with_arrays
           (<[logs (logger w) := retain (maxLogs (logger w)) (history w ++ [e])]>
              (arrays w)) w).
Proof.
  unfold addToHistory, retain, history, push, shift, put_elems, bind, gets, modify,
    elems_at. simpl.
  destruct (decide (logs (logger w) < length (arrays w))%nat) as [Hlt|Hge].
  - rewrite list_lookup_insert_eq by done. simpl.
    case_bool_decide; simpl; [|done].
    by rewrite list_lookup_insert_eq, list_insert_insert_eq by done.
  - rewrite list_insert_ge by lia.
    rewrite (lookup_ge_None_2 (arrays w)) by lia. simpl.
    by rewrite list_insert_ge by lia.
Qed.

Lemma console_text_run w h ts lvl msg d url icon :
  heap w = h ++ [entry_literal ts lvl msg d url] ->
  console_text (VRef (length h)) icon msg w = Ok (render ts icon msg) w.
Proof.
  intros Hh. unfold console_text, bind, ret.
  rewrite (get_member_own w (length h) "timestamp" (VStr ts)); [done|].
  rewrite (props_at_new _ _ _ Hh). unfold entry_literal.
  by rewrite lookup_insert_eq.
Qed.

Ltac run_console_text h :=
  match goal with
  | |- context [bind (console_text _ _ _) _ ?w0] =>
      rewrite (bind_Ok _ _ w0 _ _
                 (console_text_run w0 h _ _ _ _ _ _ ltac:(reflexivity)))
  end.

Ltac show_logged :=
  eexists; split;
  [reflexivity
  | unfold logged, history, elems_at; simpl;
    repeat split; try reflexivity; try (by rewrite app_nil_r)].

Lemma debug_logged m d w :
  ∃ w', debug m d w = Ok tt w' ∧
    logged w w'
      [entry_literal (toISOString (window w) (clock w)) LogLevel.DEBUG m
         (default_null d) (href (window w))]
      (retain (maxLogs (logger w)) (history w ++ [VRef (length (heap w))]))
      (if isDevelopment (logger w)
       then [{| c_method := CLog;
                c_text := render (toISOString (window w) (clock w)) "🔍" m;
                c_arg := or_else (default_null d) (VStr "") |}]
       else []).
Proof.
  unfold debug. rewrite (bind_Ok _ _ _ _ _ (formatLog_run _ _ _ _)).
  rewrite (bind_Ok _ _ _ _ _ (addToHistory_run _ _)).
  unfold bind at 1. unfold gets at 1. cbn [logger with_arrays with_heap with_clock].
  destruct (isDevelopment (logger w)).
  - run_console_text (heap w).
    unfold console_call, modify. show_logged. all: destruct d; reflexivity.
  - unfold ret. show_logged. all: destruct d; reflexivity.
Qed.

Lemma info_logged m d w :
  ∃ w', info m d w = Ok tt w' ∧
    logged w w'
      [entry_literal (toISOString (window w) (clock w)) LogLevel.INFO m
         (default_null d) (href (window w))]
      (retain (maxLogs (logger w)) (history w ++ [VRef (length (heap w))]))
      (if isDevelopment (logger w)
       then [{| c_method := CInfo;
                c_text := render (toISOString (window w) (clock w)) "ℹ️" m;
                c_arg := or_else (default_null d) (VStr "") |}]
       else []).
Proof.
  unfold info. rewrite (bind_Ok _ _ _ _ _ (formatLog_run _ _ _ _)).
  rewrite (bind_Ok _ _ _ _ _ (addToHistory_run _ _)).
  unfold bind at 1. unfold gets at 1. cbn [logger with_arrays with_heap with_clock].
  destruct (isDevelopment (logger w)).
  - run_console_text (heap w).
    unfold console_call, modify. show_logged. all: destruct d; reflexivity.
  - unfold ret. show_logged. all: destruct d; reflexivity.
Qed.

Lemma warn_logged m d w :
  ∃ w', warn m d w = Ok tt w' ∧
    logged w w'
      [entry_literal (toISOString (window w) (clock w)) LogLevel.WARN m
         (default_null d) (href (window w))]
      (retain (maxLogs (logger w)) (history w ++ [VRef (length (heap w))]))
      [{| c_method := CWarn;
          c_text := render (toISOString (window w) (clock w)) "⚠️" m;
          c_arg := or_else (default_null d) (VStr "") |}].
Proof.
  unfold warn. rewrite (bind_Ok _ _ _ _ _ (formatLog_run _ _ _ _)).
  rewrite (bind_Ok _ _ _ _ _ (addToHistory_run _ _)).
  run_console_text (heap w).
  unfold console_call, modify. show_logged. all: destruct d; reflexivity.
Qed.

Lemma error_logged m e w :
  ∃ w', error m e w = Ok tt w' ∧
    logged w w'
      [<["error" := or_else (own_property w (default_null e) "message")
                            (default_null e)]>
         (<["stack" := own_property w (default_null e) "stack"]> ∅);
       entry_literal (toISOString (window w) (clock w)) LogLevel.ERROR m
         (VRef (length (heap w))) (href (window w))]
      (retain (maxLogs (logger w)) (history w ++ [VRef (S (length (heap w)))]))
      [{| c_method := CError;
          c_text := render (toISOString (window w) (clock w)) "❌" m;
          c_arg := or_else (default_null e) (VStr "") |}].
Proof.
  unfold error. unfold bind at 1. unfold gets at 1.
  unfold bind at 1. unfold gets at 1.
  unfold bind at 1. unfold new_object at 1.
  rewrite (bind_Ok _ _ _ _ _ (formatLog_run _ _ _ _)).
  rewrite (bind_Ok _ _ _ _ _ (addToHistory_run _ _)).
  cbn [heap with_heap with_clock with_arrays].
  run_console_text (heap w ++ [<["error" := or_else (own_property w (default_null e) "message")
                            (default_null e)]>
         (<["stack" := own_property w (default_null e) "stack"]> ∅)]).
  unfold console_call, modify. show_logged.
  all: rewrite ?length_app; simpl; rewrite ?Nat.add_1_r; try reflexivity.
  by rewrite <- app_assoc.
Qed.

Lemma call_logged c w :
  ∃ w' new e d lines,
    call c w = Ok tt w' ∧
    logged w w' new
      (retain (maxLogs (logger w)) (history w ++ [VRef e])) lines ∧
    (heap w ++ new) !! e =
      Some (entry_literal (toISOString (window w) (clock w)) (call_level c)
              (call_message c) d (href (window w))).
Proof.
  destruct c as [m d|m d|m d|m e]; simpl.
  - destruct (debug_logged m d w) as (w' & Hrun & Hlog).
    do 5 eexists. split; [exact Hrun|]. split; [exact Hlog|].
    by rewrite list_lookup_middle.
  - destruct (info_logged m d w) as (w' & Hrun & Hlog).
    do 5 eexists. split; [exact Hrun|]. split; [exact Hlog|].
    by rewrite list_lookup_middle.
  - destruct (warn_logged m d w) as (w' & Hrun & Hlog).
    do 5 eexists. split; [exact Hrun|]. split; [exact Hlog|].
    by rewrite list_lookup_middle.
  - destruct (error_logged m e w) as (w' & Hrun & Hlog).
    do 5 eexists. split; [exact Hrun|]. split; [exact Hlog|].
    rewrite lookup_app_r by lia.
    by replace (S (length (heap w)) - length (heap w))%nat with 1%nat by lia.
Qed.

(** Reading back an entry made by [formatLog]. *)
Lemma entry_stamp_literal w e ts lvl msg d url :
  heap w !! e = Some (entry_literal ts lvl msg d url) ->
  entry_stamp (read_entry w (VRef e)) = (VStr ts, VStr lvl, VStr msg).
Proof.
  intros He. unfold entry_stamp, read_entry, own_property, props_at. simpl.
  rewrite He. simpl. unfold entry_literal.
  rewrite lookup_insert_eq.
  rewrite lookup_insert_ne, lookup_insert_eq by done.
  by rewrite !lookup_insert_ne, lookup_insert_eq by done.
Qed.

Lemma entry_stamp_grow w w' new v :
  heap w' = heap w ++ new ->
  (∃ l, v = VRef l ∧ (l < length (heap w))%nat) ->
  entry_stamp (read_entry w' v) = entry_stamp (read_entry w v).
Proof.
  intros Hh (l & -> & Hl). unfold entry_stamp, read_entry.
  cbn [timestamp level message].
  by rewrite !(own_property_grow w w' new).
Qed.

(** *** Lists: the last [n] elements *)

Lemma last_n_all {A} n (l : list A) : (length l ≤ n)%nat -> last_n n l = l.
Proof.
  intros H. unfold last_n. by replace (length l - n)%nat with 0%nat by lia.
Qed.

Lemma length_last_n {A} n (l : list A) : length (last_n n l) = (length l `min` n)%nat.
Proof. unfold last_n. rewrite length_drop. lia. Qed.

Lemma last_n_app {A} n (l r : list A) :
  last_n n (last_n n l ++ r) = last_n n (l ++ r).
Proof.
  destruct (decide (length l ≤ n)%nat) as [Hle|Hgt].
  - by rewrite (last_n_all n l).
  - unfold last_n at 1 3. rewrite !length_app, length_last_n.
    replace (length l `min` n + length r - n)%nat with (length r) by lia.
    replace (length l + length r - n)%nat with ((length l - n) + length r)%nat by lia.
    rewrite <- drop_drop. f_equal. unfold last_n.
    by rewrite drop_app_le by lia.
Qed.

Lemma retain_last_n {A} cap (l : list A) :
  (length l ≤ S cap)%nat -> retain cap l = last_n cap l.
Proof.
  intros H. unfold retain, last_n. case_bool_decide.
  - replace (length l - cap)%nat with 1%nat by lia. by destruct l.
  - by replace (length l - cap)%nat with 0%nat by lia.
Qed.

Lemma map_tail {A B} (f : A -> B) (l : list A) : map f (tail l) = tail (map f l).
Proof. by destruct l. Qed.

Lemma map_retain {A B} (f : A -> B) cap (l : list A) :
  map f (retain cap l) = retain cap (map f l).
Proof.
  unfold retain. rewrite length_map. case_bool_decide; [apply map_tail | done].
Qed.

(** *** One logging call on a logger that is set up *)

Lemma call_well_formed c w :
  well_formed w ->
  ∃ w', call c w = Ok tt w' ∧ well_formed w' ∧
    logger w' = logger w ∧ window w' = window w ∧
    clock w' = S (clock w) ∧
    invocations w' = invocations w ∧
    timeline w' = timeline w ∧
    stamps w' = last_n (maxLogs (logger w))
                  (stamps w ++ [stamp w (clock w) 0 c]).
Proof.
  intros (Hlogs & Hrefs & Hlen).
  destruct (call_logged c w) as (w' & new & e & d & lines & Hrun & Hlog & He).
  destruct Hlog as (Hheap & Harr & Hcon & Hclock & Htl & Hinv & Hlg & Hwin).
  assert (Hhist : history w' = retain (maxLogs (logger w)) (history w ++ [VRef e])).
  { unfold history, elems_at at 1. rewrite Hlg, Harr.
    by rewrite list_lookup_insert_eq by done. }
  assert (He' : (e < length (heap w'))%nat).
  { rewrite Hheap. by eapply lookup_lt_Some. }
  assert (Hall : Forall (fun v => ∃ l, v = VRef l ∧ (l < length (heap w'))%nat)
                   (history w ++ [VRef e])).
  { apply Forall_app. split.
    - eapply Forall_impl; [exact Hrefs|]. intros v (l & -> & Hl).
      exists l. split; [done|]. rewrite Hheap, length_app. lia.
    - repeat constructor. by exists e. }
  exists w'. split; [exact Hrun|]. split; [|split_and!; try done].
  - split; [by rewrite Hlg, Harr, length_insert|]. split.
    + rewrite Hhist. unfold retain. case_bool_decide; [|done].
      destruct (history w ++ [VRef e]) as [|x rest]; [done|].
      by apply Forall_inv_tail in Hall.
    + rewrite Hhist, Hlg. unfold retain. rewrite length_app. simpl.
      case_bool_decide.
      * destruct (history w ++ [VRef e]) as [|x rest] eqn:Heq; simpl; [lia|].
        apply (f_equal length) in Heq. rewrite length_app in Heq. simpl in Heq. lia.
      * rewrite length_app. simpl. lia.
  - unfold stamps, snapshot. rewrite Hhist.
    rewrite <- retain_last_n.
    2:{ rewrite length_app, !length_map. simpl. lia. }
    rewrite !map_map. rewrite map_retain.
    rewrite map_app. simpl.
    assert (Hold : map (fun x => entry_stamp (read_entry w' x)) (history w)
                   = map (fun x => entry_stamp (read_entry w x)) (history w)).
    { apply map_ext_Forall. eapply Forall_impl; [exact Hrefs|].
      intros v Hv. by apply (entry_stamp_grow w w' new). }
    rewrite Hold.
    rewrite (entry_stamp_literal w' e _ _ _ _ _ ltac:(rewrite Hheap; exact He)).
    unfold stamp. by rewrite Nat.add_0_r.
Qed.

(** *** Sequences of logging calls *)

Lemma run_calls calls :
  ∀ w, well_formed w ->
  ∃ w', for_of calls call w = Ok tt w' ∧ well_formed w' ∧
    logger w' = logger w ∧ window w' = window w ∧
    clock w' = (clock w + length calls)%nat ∧
    invocations w' = invocations w ∧
    timeline w' = timeline w ∧
    stamps w' = last_n (maxLogs (logger w))
                  (stamps w ++ imap (stamp w (clock w)) calls).
Proof.
  induction calls as [|c calls IH]; intros w Hwf.
  - exists w. simpl. split_and!; try done; try lia.
    rewrite app_nil_r, last_n_all; [done|].
    destruct Hwf as (_ & _ & Hlen). unfold stamps, snapshot.
    by rewrite !length_map.
  - destruct (call_well_formed c w Hwf)
      as (w1 & Hrun1 & Hwf1 & Hlg1 & Hwin1 & Hclk1 & Hinv1 & Htl1 & Hst1).
    destruct (IH w1 Hwf1)
      as (w' & Hrun & Hwf' & Hlg & Hwin & Hclk & Hinv & Htl & Hst).
    exists w'. simpl. rewrite (bind_Ok _ _ _ _ _ Hrun1).
    split; [exact Hrun|]. split; [exact Hwf'|].
    split_and!; try congruence; try lia.
    rewrite Hst, Hst1, Hlg1, last_n_app, <- app_assoc. simpl.
    f_equal. f_equal. f_equal. apply imap_ext. intros i x _.
    unfold stamp, compose. rewrite Hwin1, Hclk1. do 4 f_equal. lia.
Qed.

Lemma constructor_well_formed w0 :
  ∃ w, constructor w0 = Ok tt w ∧ well_formed w ∧ history w = [] ∧
    maxLogs (logger w) = 100%nat ∧ window w = window w0 ∧ clock w = clock w0 ∧
    heap w = heap w0 ∧ invocations w = invocations w0.
Proof.
  eexists. split; [reflexivity|].
  unfold well_formed, history, elems_at. simpl.
  rewrite list_lookup_middle by done. simpl.
  split_and!; try done; [rewrite length_app; simpl; lia | lia].
Qed.

(** *** The copies handed out by [getLogs] and [getLogsByLevel] *)

Lemma getLogs_run w :
  getLogs w = Ok (length (arrays w)) (with_arrays (arrays w ++ [history w]) w).
Proof. reflexivity. Qed.

Lemma filter_by_level_run lvl w (xs : list val) :
  Forall (fun v => ∃ l, v = VRef l) xs ->
  filter_by_level lvl xs w =
  Ok (filter (fun e => strict_eq (level (read_entry w e)) lvl = true) xs) w.
Proof.
  induction 1 as [|x xs (l & ->) _ IH]; [done|].
  cbn [filter_by_level]. unfold bind at 1.
  rewrite get_member_plain by not_listed.
  rewrite (bind_Ok _ _ _ _ _ IH). unfold ret.
  rewrite filter_cons. unfold read_entry, own_property. simpl.
  by case_decide as Hd; [rewrite Hd | apply not_true_is_false in Hd; rewrite Hd].
Qed.

Lemma getLogsByLevel_run lvl w :
  Forall (fun v => ∃ l, v = VRef l) (history w) ->
  getLogsByLevel lvl w =
  Ok (length (arrays w))
     (with_arrays
        (arrays w ++ [filter (fun e => strict_eq (level (read_entry w e)) lvl = true)
                        (history w)]) w).
Proof.
  intros Hrefs. unfold getLogsByLevel. unfold bind at 1. unfold gets at 1.
  unfold bind at 1. unfold gets at 1.
  by rewrite (bind_Ok _ _ _ _ _ (filter_by_level_run lvl w _ Hrefs)).
Qed.

(** Operations on an array other than the history leave the history and
    what can be read through it alone. *)
Lemma mutate_other_array r (muts : list ArrayMutation) :
  ∀ w, r ≠ logs (logger w) ->
  ∃ w', for_of muts (mutate_array r) w = Ok tt w' ∧
    history w' = history w ∧ snapshot w' = snapshot w ∧ heap w' = heap w.
Proof.
  induction muts as [|m muts IH]; intros w Hr.
  - by exists w.
  - simpl. unfold bind at 1. unfold mutate_array at 1.
    unfold bind at 1. unfold gets at 1. unfold put_elems, modify.
    set (w1 := with_arrays _ w).
    assert (Hh1 : history w1 = history w).
    { unfold history, elems_at, w1. simpl. by rewrite list_lookup_insert_ne. }
    destruct (IH w1) as (w' & Hrun & Hh & Hs & Hheap); [done|].
    exists w'. split; [exact Hrun|]. split; [congruence|].
    split; [|by rewrite Hheap].
    rewrite Hs. unfold snapshot. by rewrite Hh1.
Qed.

(** C5: the log history never holds more than its capacity of 100
    entries; after any sequence of logging calls on a new logger it holds
    the most recent 100 of them (all of them when there were fewer), in
    the order they were made, so that after 150 calls the first 50 are
    gone and the last 100 remain. *)
Theorem history_bounded_fifo (w0 : World) (calls : list LogCall) :
  ∃ w1 w,
    constructor w0 = Ok tt w1 ∧
    for_of calls call w1 = Ok tt w ∧
    (length (history w) ≤ 100)%nat ∧
    stamps w = last_n 100 (imap (stamp w1 (clock w1)) calls) ∧
    (length calls = (100 + 50)%nat ->
     length (history w) = 100%nat ∧
     stamps w = drop 50 (imap (stamp w1 (clock w1)) calls)).
Proof.
  destruct (constructor_well_formed w0)
    as (w1 & Hnew & Hwf1 & Hempty & Hcap & _).
  destruct (run_calls calls w1 Hwf1)
    as (w & Hrun & Hwf & Hlg & _ & _ & _ & _ & Hst).
  assert (Hst1 : stamps w1 = []).
  { unfold stamps, snapshot. by rewrite Hempty. }
  rewrite Hst1, Hcap in Hst. simpl in Hst.
  exists w1, w. split_and!; try done.
  - destruct Hwf as (_ & _ & Hlen). rewrite Hlg, Hcap in Hlen. exact Hlen.
  - intros Hn. split.
    + apply (f_equal length) in Hst.
      unfold stamps, snapshot in Hst.
      rewrite !length_map, length_last_n, length_imap, Hn in Hst.
      exact Hst.
    + rewrite Hst. unfold last_n. by rewrite length_imap, Hn.
Qed.

Lemma history_bounded_fifo_witness :
  ∃ w1 w,
    constructor (Scenario.blank Scenario.page) = Ok tt w1 ∧
    for_of Scenario.many_calls call w1 = Ok tt w ∧
    length (history w) = 100%nat ∧
    stamps w = drop 50 (imap (stamp w1 (clock w1)) Scenario.many_calls).
Proof.
  destruct (history_bounded_fifo (Scenario.blank Scenario.page) Scenario.many_calls)
    as (w1 & w & Hnew & Hrun & _ & _ & H150).
  exists w1, w. split; [exact Hnew|]. split; [exact Hrun|].
  apply H150. reflexivity.
Defined.

(** C9 (as amended): [getLogs()] and [getLogsByLevel(level)] return new
    arrays holding the entries of the history (all of them, or those of
    the level): whatever a caller does to the returned array itself
    (replacing, removing or adding elements, truncating it) leaves the
    logger's history unchanged. *)
Theorem returned_array_is_a_copy (w0 : World) (calls : list LogCall)
  (lvl : val) (muts : list ArrayMutation) :
  ∃ w1 w,
    constructor w0 = Ok tt w1 ∧
    for_of calls call w1 = Ok tt w ∧
    (∃ r wr w',
       getLogs w = Ok r wr ∧
       elems_at wr r = history w ∧
       for_of muts (mutate_array r) wr = Ok tt w' ∧
       history w' = history w ∧ snapshot w' = snapshot w) ∧
    (∃ r wr w',
       getLogsByLevel lvl w = Ok r wr ∧
       elems_at wr r =
         filter (fun e => strict_eq (level (read_entry w e)) lvl = true)
           (history w) ∧
       for_of muts (mutate_array r) wr = Ok tt w' ∧
       history w' = history w ∧ snapshot w' = snapshot w).
Proof.
  destruct (constructor_well_formed w0) as (w1 & Hnew & Hwf1 & _).
  destruct (run_calls calls w1 Hwf1) as (w & Hrun & Hwf & _).
  destruct Hwf as (Hlogs & Hrefs & _).
  exists w1, w. split; [exact Hnew|]. split; [exact Hrun|].
  assert (Hrefs' : Forall (fun v => ∃ l, v = VRef l) (history w)).
  { eapply Forall_impl; [exact Hrefs|]. intros v (l & -> & _). by exists l. }
  split.
  - set (wr := with_arrays (arrays w ++ [history w]) w).
    assert (Hhr : history wr = history w).
    { unfold history, elems_at, wr. simpl. by rewrite lookup_app_l. }
    destruct (mutate_other_array (length (arrays w)) muts wr)
      as (w' & Hmut & Hh & Hs & _).
    { unfold wr. simpl. lia. }
    exists (length (arrays w)), wr, w'.
    split; [apply getLogs_run|]. split.
    { unfold elems_at, wr. simpl. by rewrite list_lookup_middle. }
    split; [exact Hmut|]. split; [congruence|].
    rewrite Hs. unfold snapshot. by rewrite Hhr.
  - set (kept := filter (fun e => strict_eq (level (read_entry w e)) lvl = true)
                   (history w)).
    set (wr := with_arrays (arrays w ++ [kept]) w).
    assert (Hhr : history wr = history w).
    { unfold history, elems_at, wr. simpl. by rewrite lookup_app_l. }
    destruct (mutate_other_array (length (arrays w)) muts wr)
      as (w' & Hmut & Hh & Hs & _).
    { unfold wr. simpl. lia. }
    exists (length (arrays w)), wr, w'.
    split; [by apply getLogsByLevel_run|]. split.
    { unfold elems_at, wr. simpl. by rewrite list_lookup_middle. }
    split; [exact Hmut|]. split; [congruence|].
    rewrite Hs. unfold snapshot. by rewrite Hhr.
Qed.

(** C9, as stated, fails for writes to the elements: the array returned
    by [getLogs()] holds the very entry objects of the history, so
    [logger.getLogs()[0].message = "tampered"] changes the first entry of
    the logger's own history. *)
Lemma returned_entries_are_shared :
  ∃ w r wr w',
    info "Test" VUndefined (Scenario.with_logger_module Scenario.page) = Ok tt w ∧
    getLogs w = Ok r wr ∧
    mutate_element r 0 "message" (VStr "tampered") wr = Ok tt w' ∧
    map message (snapshot w) = [VStr "Test"] ∧
    map message (snapshot w') = [VStr "tampered"].
Proof.
  do 4 eexists. split; [reflexivity|]. split; [reflexivity|].
  split; [reflexivity|]. split; reflexivity.
Qed.

End LoggerFacts.

(** ** The log sink: console output, snapshots, clearing *)

Module LoggerExtras.
Import JS Logger LoggerConsole MonadFacts.
Local Open Scope js_scope.

(** What one logging call does, whatever the state of the logger. *)
Lemma call_effect c w :
  ∃ w' new,
    call c w = Ok tt w' ∧
    heap w' = heap w ++ new ∧
    (∀ r, r ≠ logs (logger w) -> elems_at w' r = elems_at w r) ∧
    console w' = console w ++ printed w (clock w) 0 c ∧
    clock w' = S (clock w) ∧ logger w' = logger w ∧ window w' = window w ∧
    length (arrays w') = length (arrays w).
Proof.
  assert (Hother : ∀ w' hist,
            arrays w' = <[logs (logger w) := hist]> (arrays w) ->
            ∀ r, r ≠ logs (logger w) -> elems_at w' r = elems_at w r).
  { intros w' hist Harr r Hr. unfold elems_at. rewrite Harr.
    by rewrite list_lookup_insert_ne. }
  destruct c as [m d|m d|m d|m e]; simpl.
  - destruct (LoggerFacts.debug_logged m d w)
      as (w' & Hrun & Hheap & Harr & Hcon & Hclk & _ & _ & Hlg & Hwin).
    exists w'. eexists. split; [exact Hrun|]. split; [exact Hheap|].
    split; [by eapply Hother|]. split_and!; try done.
    + rewrite Hcon. rewrite Nat.add_0_r. by destruct (isDevelopment _).
    + by rewrite Harr, length_insert.
  - destruct (LoggerFacts.info_logged m d w)
      as (w' & Hrun & Hheap & Harr & Hcon & Hclk & _ & _ & Hlg & Hwin).
    exists w'. eexists. split; [exact Hrun|]. split; [exact Hheap|].
    split; [by eapply Hother|]. split_and!; try done.
    + rewrite Hcon. rewrite Nat.add_0_r. by destruct (isDevelopment _).
    + by rewrite Harr, length_insert.
  - destruct (LoggerFacts.warn_logged m d w)
      as (w' & Hrun & Hheap & Harr & Hcon & Hclk & _ & _ & Hlg & Hwin).
    exists w'. eexists. split; [exact Hrun|]. split; [exact Hheap|].
    split; [by eapply Hother|]. split_and!; try done.
    + by rewrite Hcon, Nat.add_0_r.
    + by rewrite Harr, length_insert.
  - destruct (LoggerFacts.error_logged m e w)
      as (w' & Hrun & Hheap & Harr & Hcon & Hclk & _ & _ & Hlg & Hwin).
    exists w'. eexists. split; [exact Hrun|]. split; [exact Hheap|].
    split; [by eapply Hother|]. split_and!; try done.
    + by rewrite Hcon, Nat.add_0_r.
    + by rewrite Harr, length_insert.
Qed.

Lemma printed_shift w w1 start i c :
  window w1 = window w -> logger w1 = logger w ->
  printed w1 (S start) i c = printed w start (S i) c.
Proof.
  intros Hwin Hlg. unfold printed. rewrite Hwin, Hlg.
  by replace (S start + i)%nat with (start + S i)%nat by lia.
Qed.

Lemma calls_effect calls : ∀ w,
  ∃ w' new,
    for_of calls call w = Ok tt w' ∧
    heap w' = heap w ++ new ∧
    (∀ r, r ≠ logs (logger w) -> elems_at w' r = elems_at w r) ∧
    console w' = console w ++ concat (imap (printed w (clock w)) calls) ∧
    logger w' = logger w ∧ window w' = window w ∧
    length (arrays w') = length (arrays w).
Proof.
  induction calls as [|c calls IH]; intros w.
  - exists w, []. simpl. rewrite !app_nil_r. split_and!; done.
  - destruct (call_effect c w)
      as (w1 & new1 & Hrun1 & Hheap1 & Harr1 & Hcon1 & Hclk1 & Hlg1 & Hwin1 & Hlen1).
    destruct (IH w1) as (w' & new & Hrun & Hheap & Harr & Hcon & Hlg & Hwin & Hlen).
    exists w', (new1 ++ new). simpl. rewrite (bind_Ok _ _ _ _ _ Hrun1).
    split; [exact Hrun|]. split_and!; try congruence.
    + by rewrite Hheap, Hheap1, <- app_assoc.
    + intros r Hr. rewrite Harr by congruence. by apply Harr1.
    + rewrite Hcon, Hcon1, <- app_assoc. do 2 f_equal.
      f_equal. apply imap_ext. intros i x _. simpl.
      rewrite Hclk1. by apply printed_shift.
Qed.

Lemma printed_method w start i c :
  map c_method (printed w start i c) =
  option_list (console_method (isDevelopment (logger w)) c).
Proof. unfold printed. by destruct c, (isDevelopment (logger w)). Qed.

Lemma methods_of_printed w start (calls : list LogCall) : ∀ k,
  map c_method (concat (imap (fun i => printed w start (k + i)) calls)) =
  omap (console_method (isDevelopment (logger w))) calls.
Proof.
  induction calls as [|c calls IH]; intros k; [done|].
  simpl. rewrite map_app, printed_method.
  rewrite (imap_ext _ (fun i => printed w start (S k + i))).
  2:{ intros i x _. simpl. f_equal. lia. }
  rewrite IH. by destruct (console_method _ c).
Qed.

(** X1: on a logger just constructed, a sequence of logging calls
    returns and prints one console line per call that prints, in call
    order: [warn] and [error] always print (with [console.warn] and
    [console.error]); [debug] and [info] print (with [console.log] and
    [console.info]) when the host name of the page is [localhost] or
    [127.0.0.1], and print nothing on any other host. *)
Theorem console_output_by_level (w0 : World) (calls : list LogCall) :
  ∃ w1 w,
    constructor w0 = Ok tt w1 ∧
    for_of calls call w1 = Ok tt w ∧
    console w = console w0 ++ concat (imap (printed w1 (clock w1)) calls) ∧
    map c_method (console w) =
      map c_method (console w0) ++
      omap (console_method
              (bool_decide (hostname (window w0) = "localhost")
               || bool_decide (hostname (window w0) = "127.0.0.1"))) calls.
Proof.
  eexists.
  destruct (calls_effect calls (world_of (constructor w0)))
    as (w & new & Hrun & _ & _ & Hcon & _).
  exists w. split; [reflexivity|]. split; [exact Hrun|].
  split; [exact Hcon|].
  rewrite Hcon, map_app. f_equal.
  exact (methods_of_printed (world_of (constructor w0)) _ calls 0).
Qed.

(** *** Arrays handed out earlier *)

Lemma clear_run w :
  ∃ wc,
    clear w = Ok tt wc ∧
    history wc = [] ∧
    heap wc = heap w ∧
    (∀ r, (r < length (arrays w))%nat -> elems_at wc r = elems_at w r) ∧
    maxLogs (logger wc) = maxLogs (logger w) ∧
    window wc = window w ∧ clock wc = clock w ∧
    (logs (logger wc) < length (arrays wc))%nat ∧
    console wc =
      console w ++
      (if isDevelopment (logger w)
       then [{| c_method := CClear; c_text := ""; c_arg := VUndefined |}]
       else []).
Proof.
  unfold clear, bind, new_array, modify, gets. simpl.
  destruct (isDevelopment (logger w)) eqn:Hdev.
  - eexists. split; [reflexivity|]. unfold history, elems_at. simpl.
    rewrite list_lookup_middle by done. rewrite length_app. simpl.
    split_and!; try done; [|lia].
    intros r Hr. by rewrite lookup_app_l.
  - eexists. split; [reflexivity|]. unfold history, elems_at. simpl.
    rewrite list_lookup_middle by done. rewrite length_app, app_nil_r. simpl.
    split_and!; try done; [|lia].
    intros r Hr. by rewrite lookup_app_l.
Qed.

Lemma stamps_of_refs w w' new (xs : list val) :
  heap w' = heap w ++ new ->
  Forall (fun v => ∃ l, v = VRef l ∧ (l < length (heap w))%nat) xs ->
  map (fun x => entry_stamp (read_entry w' x)) xs =
  map (fun x => entry_stamp (read_entry w x)) xs.
Proof.
  intros Hh Hrefs. apply map_ext_Forall.
  eapply Forall_impl; [exact Hrefs|].
  intros v Hv. by apply (LoggerFacts.entry_stamp_grow w w' new).
Qed.

(** X2: the array returned by [getLogs()] is a snapshot.  Logging calls
    made after it was taken, and [clear()], leave it as it was: it holds
    the same entries, with the time, level and message they had. *)
Theorem returned_array_is_a_snapshot (w0 : World)
  (before later : list LogCall) :
  ∃ w1 w r wr w' wc,
    constructor w0 = Ok tt w1 ∧
    for_of before call w1 = Ok tt w ∧
    getLogs w = Ok r wr ∧
    for_of later call wr = Ok tt w' ∧
    clear w' = Ok tt wc ∧
    elems_at w' r = history w ∧
    map (fun x => entry_stamp (read_entry w' x)) (elems_at w' r) = stamps w ∧
    elems_at wc r = history w ∧
    map (fun x => entry_stamp (read_entry wc x)) (elems_at wc r) = stamps w ∧
    history wc = [].
Proof.
  destruct (LoggerFacts.constructor_well_formed w0) as (w1 & Hnew & Hwf1 & _).
  destruct (LoggerFacts.run_calls before w1 Hwf1) as (w & Hrun & Hwf & _).
  set (wr := with_arrays (arrays w ++ [history w]) w).
  destruct (calls_effect later wr) as (w' & new & Hlater & Hheap & Harr & _ & _ & _ & Hlen).
  destruct (clear_run w') as (wc & Hclear & Hempty & Hheapc & Harrc & _).
  destruct Hwf as (Hlogs & Hrefs & _).
  assert (Hr : elems_at wr (length (arrays w)) = history w).
  { unfold elems_at, wr. simpl. by rewrite list_lookup_middle. }
  assert (Hr' : elems_at w' (length (arrays w)) = history w).
  { rewrite Harr; [exact Hr|]. unfold wr. simpl. lia. }
  assert (Hlen' : (length (arrays w) < length (arrays w'))%nat).
  { rewrite Hlen. unfold wr. simpl. rewrite length_app. simpl. lia. }
  exists w1, w, (length (arrays w)), wr, w', wc.
  split; [exact Hnew|]. split; [exact Hrun|]. split; [apply LoggerFacts.getLogs_run|].
  split; [exact Hlater|]. split; [exact Hclear|].
  split; [exact Hr'|]. split.
  { rewrite Hr'. unfold stamps, snapshot. rewrite map_map.
    apply (stamps_of_refs w w' new); [|exact Hrefs]. by rewrite Hheap. }
  rewrite Harrc by exact Hlen'. split; [exact Hr'|]. split; [|exact Hempty].
  rewrite Hr'. unfold stamps, snapshot. rewrite map_map.
  apply (stamps_of_refs w wc new); [|exact Hrefs]. by rewrite Hheapc, Hheap.
Qed.

(** X3: [clear()] empties the history whatever it held, and keeps the
    capacity: the history then holds the most recent 100 of the calls
    made since, in call order. *)
Theorem clear_restarts_history (w0 : World) (before after : list LogCall) :
  ∃ w1 w wc w',
    constructor w0 = Ok tt w1 ∧
    for_of before call w1 = Ok tt w ∧
    clear w = Ok tt wc ∧
    history wc = [] ∧
    for_of after call wc = Ok tt w' ∧
    (length (history w') ≤ 100)%nat ∧
    stamps w' = last_n 100 (imap (stamp wc (clock wc)) after).
Proof.
  destruct (LoggerFacts.constructor_well_formed w0)
    as (w1 & Hnew & Hwf1 & _ & Hcap1 & _).
  destruct (LoggerFacts.run_calls before w1 Hwf1)
    as (w & Hrun & Hwf & Hlg & _).
  destruct (clear_run w) as (wc & Hclear & Hempty & _ & _ & Hcap & _ & _ & Hlogs & _).
  assert (Hwfc : well_formed wc).
  { unfold well_formed. rewrite Hempty. split_and!; [done|constructor|simpl; lia]. }
  destruct (LoggerFacts.run_calls after wc Hwfc)
    as (w' & Hrun' & Hwf' & Hlg' & _ & _ & _ & _ & Hst).
  assert (Hcapc : maxLogs (logger wc) = 100%nat) by congruence.
  exists w1, w, wc, w'. split_and!; try done.
  - destruct Hwf' as (_ & _ & Hlen). by rewrite Hlg', Hcapc in Hlen.
  - rewrite Hst, Hcapc. unfold stamps, snapshot. by rewrite Hempty.
Qed.

(** *** Selecting by level *)

Lemma map_filter_comm {A B} (f : A -> B) (P : B -> Prop)
  `{∀ y, Decision (P y)} (l : list A) :
  map f (filter (fun x => P (f x)) l) = filter P (map f l).
Proof.
  induction l as [|x l IH]; [done|].
  simpl. rewrite !filter_cons. case_decide; simpl; by rewrite IH.
Qed.

Lemma stamp_level w start i c : (stamp w start i c).1.2 ∈ levels.
Proof.
  unfold stamp, levels. simpl.
  destruct c; simpl; rewrite !elem_of_cons; tauto.
Qed.

(** X4: after any sequence of logging calls on a new logger,
    [getLogsByLevel(level)] returns a new array holding exactly the
    retained entries whose level is strictly equal to [level], in the
    order they were logged, and leaves the history as it was.  The
    comparison is exact: for any value other than the four level strings
    the result is empty. *)
Theorem getLogsByLevel_selects (w0 : World) (calls : list LogCall) (lvl : val) :
  ∃ w1 w r wr,
    constructor w0 = Ok tt w1 ∧
    for_of calls call w1 = Ok tt w ∧
    getLogsByLevel lvl w = Ok r wr ∧
    history wr = history w ∧
    map (fun x => entry_stamp (read_entry wr x)) (elems_at wr r) =
      filter (fun s => strict_eq s.1.2 lvl = true)
        (last_n 100 (imap (stamp w1 (clock w1)) calls)) ∧
    (elems_at wr r = [] ∨ lvl ∈ levels).
Proof.
  destruct (LoggerFacts.constructor_well_formed w0)
    as (w1 & Hnew & Hwf1 & Hempty & Hcap & _).
  destruct (LoggerFacts.run_calls calls w1 Hwf1)
    as (w & Hrun & Hwf & Hlg & _ & _ & _ & _ & Hst).
  assert (Hst1 : stamps w1 = []) by (unfold stamps, snapshot; by rewrite Hempty).
  rewrite Hst1, Hcap in Hst. simpl in Hst.
  destruct Hwf as (Hlogs & Hrefs & _).
  assert (Hrefs' : Forall (fun v => ∃ l, v = VRef l) (history w)).
  { eapply Forall_impl; [exact Hrefs|]. intros v (l & -> & _). by exists l. }
  set (kept := filter (fun e => strict_eq (level (read_entry w e)) lvl = true)
                 (history w)).
  set (wr := with_arrays (arrays w ++ [kept]) w).
  assert (Hkept : elems_at wr (length (arrays w)) = kept).
  { unfold elems_at, wr. simpl. by rewrite list_lookup_middle. }
  assert (Hsel : map (fun x => entry_stamp (read_entry wr x)) kept =
                 filter (fun s => strict_eq s.1.2 lvl = true)
                   (last_n 100 (imap (stamp w1 (clock w1)) calls))).
  { rewrite <- Hst. unfold stamps, snapshot. rewrite map_map.
    rewrite <- (map_filter_comm (fun x => entry_stamp (read_entry w x))
                  (fun s => strict_eq s.1.2 lvl = true)).
    done. }
  exists w1, w, (length (arrays w)), wr.
  split; [exact Hnew|]. split; [exact Hrun|].
  split; [by apply LoggerFacts.getLogsByLevel_run|].
  split; [unfold history, elems_at, wr; simpl; by rewrite lookup_app_l|].
  rewrite Hkept. split; [exact Hsel|].
  destruct (decide (lvl ∈ levels)) as [Hin|Hout]; [by right|left].
  apply (fmap_nil_inv (fun x => entry_stamp (read_entry wr x))).
  change (map (fun x => entry_stamp (read_entry wr x)) kept = []).
  rewrite Hsel. apply filter_none, Forall_forall. intros s Hs Heq.
  apply Hout. unfold last_n in Hs. apply (subseteq_drop _ _ _) in Hs.
  apply elem_of_lookup_imap in Hs as (i & c & -> & _).
  pose proof (stamp_level w1 (clock w1) i c) as Hl.
  destruct (stamp w1 (clock w1) i c) as [[ts l] m]. simpl in *.
  destruct l, lvl; simpl in Heq; try done;
    apply bool_decide_eq_true in Heq; by subst.
Qed.

End LoggerExtras.

(** ** The state store *)

Module StateManagerFacts.
Import JS StateManager MonadFacts.
Local Open Scope js_scope.

(** *** Paths *)



(** *** Reading *)



Lemma strict_eq_undefined v : strict_eq v VUndefined = true <-> v = VUndefined.
Proof. destruct v; simpl; split; congruence. Qed.


(** *** The primitives change the heap only *)

Lemma only_heap_differs_refl w : only_heap_differs w w.
Proof. by unfold only_heap_differs. Qed.

Lemma only_heap_differs_trans w1 w2 w3 :
  only_heap_differs w1 w2 -> only_heap_differs w2 w3 -> only_heap_differs w1 w3.
Proof. unfold only_heap_differs. intuition congruence. Qed.

Lemma with_heap_differs h w : only_heap_differs w (with_heap h w).
Proof. by unfold only_heap_differs. Qed.

Lemma has_property_frame t k w :
  only_heap_differs w (world_of (has_property t k w)).
Proof.
  destruct t; simpl; try apply with_heap_differs. apply only_heap_differs_refl.
Qed.

Lemma get_member_frame t k w :
  only_heap_differs w (world_of (get_member t k w)).
Proof.
  unfold get_member.
  destruct t; try apply with_heap_differs;
    destruct (lookup_member _ _ _); apply only_heap_differs_refl.
Qed.

Lemma put_member_frame t k v w :
  only_heap_differs w (world_of (put_member t k v w)).
Proof.
  unfold put_member.
  destruct t; try apply with_heap_differs;
    destruct (lookup_member _ _ _);
    first [apply with_heap_differs | apply only_heap_differs_refl].
Qed.

Lemma navigate_frame keys : ∀ t w,
  only_heap_differs w (world_of (navigate keys t w)).
Proof.
  induction keys as [|k keys IH]; intros t w; [apply only_heap_differs_refl|].
  cbn [navigate]. unfold bind at 1.
  pose proof (has_property_frame t k w) as H1.
  destruct (has_property t k w) as [present w1|e w1|w1]; [|exact H1|exact H1].
  unfold bind at 1.
  assert (H2 : only_heap_differs w1
                 (world_of ((if present then ret ()
                             else let! o := new_object ∅ in
                                  put_member t k (VRef o)) w1))).
  { destruct present; [apply only_heap_differs_refl|].
    unfold bind, new_object.
    eapply only_heap_differs_trans; [|apply put_member_frame].
    apply with_heap_differs. }
  destruct ((if present then ret () else _) w1) as [[] w2|e w2|w2];
    [|by eapply only_heap_differs_trans|by eapply only_heap_differs_trans].
  unfold bind at 1.
  pose proof (get_member_frame t k w2) as H3.
  destruct (get_member t k w2) as [next w3|e w3|w3];
    [|by repeat (eapply only_heap_differs_trans; [eassumption|])
     |by repeat (eapply only_heap_differs_trans; [eassumption|])].
  eapply only_heap_differs_trans; [exact H1|].
  eapply only_heap_differs_trans; [exact H2|].
  eapply only_heap_differs_trans; [exact H3|]. apply IH.
Qed.

(** *** Properties of objects *)

Lemma has_property_own w l k v :
  props_at w l !! k = Some v -> has_property (VRef l) k w = Ok true w.
Proof. intros Hv. unfold has_property, gets, lookup_member. by rewrite Hv. Qed.


Lemma get_optional_own w l k v :
  props_at w l !! k = Some v -> get_optional (VRef l) k w = Ok v w.
Proof. apply get_member_own. Qed.

Lemma get_optional_plain w l k :
  k ∉ Object_prototype ->
  get_optional (VRef l) k w = Ok (own_property w (VRef l) k) w.
Proof. apply get_member_plain. Qed.



(** *** Walking a path that exists *)



(** *** Closed heaps *)







(** *** The step of [set] that creates a container *)



Lemma own_path_cons w k keys t :
  own_path w (k :: keys) t =
  if strict_eq (own_property w t k) VUndefined then own_property w t k
  else own_path w keys (own_property w t k).
Proof. done. Qed.




(** *** Reading along a path every segment of which is looked up in an
    object *)



(** Along a path every segment of which is in place, [get] finds the
    value and the walk of [set] creates nothing. *)
Lemma get_loop_in_place keys : ∀ t w v,
  own_path w keys t = v -> v ≠ VUndefined -> get_loop keys t w = Ok v w.
Proof.
  induction keys as [|k0 keys IH]; intros t w v Hv Hu.
  - simpl in *. by subst.
  - cbn [own_path] in Hv. cbn [get_loop].
    destruct (strict_eq (own_property w t k0) VUndefined) eqn:Hx.
    { apply strict_eq_undefined in Hx. congruence. }
    destruct t as [| |b|n| |s|l]; try done.
    unfold own_property in Hx, Hv.
    destruct (props_at w l !! k0) as [x|] eqn:Hk; [|done].
    simpl in Hx, Hv.
    rewrite (bind_Ok _ _ _ _ _ (get_optional_own w l k0 x Hk)).
    rewrite Hx. by apply IH.
Qed.

(** *** Registrations *)






Lemma set_delete_sublist x s : sublist (set_delete x s) s.
Proof. apply sublist_filter. Qed.








(** Calling an unsubscribe function takes the callback out of the
    [Set] of its key, logs, and prints no error. *)
Lemma unsubscribe_run this u w :
  ∃ this' w' new lines,
    unsubscribe this u w = Ok this' w' ∧
    state this' = state this ∧
    (∀ k, observers_of this' k =
          if decide (k = u_key u) then set_delete (u_callback u) (observers_of this k)
          else observers_of this k) ∧
    invocations w' = invocations w ∧
    heap w' = heap w ++ new ∧
    console w' = console w ++ lines ∧
    console_errors lines = [] ∧
    logger w' = logger w ∧ window w' = window w ∧ timeline w' = timeline w ∧
    length (arrays w') = length (arrays w).
Proof.
  unfold unsubscribe.
  destruct (LoggerFacts.debug_logged ("Unsubscribed from state key: " +:+ u_key u)
              VUndefined w)
    as (w' & Hrun & Hheap & Harr & Hcon & _ & Htl & Hinv & Hlg & Hwin).
  rewrite (bind_Ok _ _ _ _ _ Hrun). do 4 eexists. split; [reflexivity|].
  split; [done|]. split.
  { intros k. unfold observers_of. simpl.
    destruct (observers this !! u_key u) as [obs|] eqn:Hobs.
    - case_decide as Hk.
      + subst k. by rewrite lookup_insert_eq, Hobs.
      + by rewrite lookup_insert_ne.
    - case_decide as Hk; [|done]. subst k. by rewrite Hobs. }
  split_and!; try done.
  - by destruct (isDevelopment (logger w)).
  - by rewrite Harr, length_insert.
Qed.

(** What is left of the registrations for a key. *)
Lemma left_by_sublist outcome key v old cb live :
  sublist (left_by outcome key v old cb live) live.
Proof.
  unfold left_by. generalize (unsubscribes (outcome cb v old)). intros us.
  revert live. induction us as [|u us IH]; intros live; [done|].
  cbn [foldl]. etrans; [apply IH|].
  case_bool_decide; [apply set_delete_sublist|done].
Qed.


(** *** Paths in place *)

Lemma strict_eq_true a b : strict_eq a b = true -> a = b.
Proof.
  destruct a, b; simpl; try discriminate; try done;
    intros H; apply bool_decide_eq_true in H; by subst.
Qed.



Lemma navigate_in_place keys : ∀ t w target,
  own_path w keys t = VRef target -> navigate keys t w = Ok (VRef target) w.
Proof.
  induction keys as [|k keys IH]; intros t w target Hp.
  - simpl in *. by subst.
  - simpl in Hp.
    destruct (strict_eq (own_property w t k) VUndefined) eqn:Hx.
    { apply strict_eq_undefined in Hx. congruence. }
    destruct t as [| |b|n| |s|l]; try done. unfold own_property in Hp, Hx.
    destruct (props_at w l !! k) as [x|] eqn:Hk; [|done]. simpl in Hp, Hx.
    cbn [navigate]. rewrite (bind_Ok _ _ _ _ _ (has_property_own w l k x Hk)).
    unfold bind at 1. unfold ret at 1.
    rewrite (bind_Ok _ _ _ _ _ (get_member_own w l k x Hk)). by apply IH.
Qed.



Section WithCallbacks.
Variable outcome : nat -> val -> val -> Outcome.

(** *** The observers a notification reaches *)




(** *** Notification *)

Lemma console_errors_app l1 l2 :
  console_errors (l1 ++ l2) = console_errors l1 ++ console_errors l2.
Proof. unfold console_errors. apply filter_app. Qed.

(** The unsubscribe functions an observer calls. *)
Lemma unsubscribes_run us : ∀ this w,
  ∃ this' w' new lines,
    fold_of us unsubscribe this w = Ok this' w' ∧
    state this' = state this ∧
    (∀ k, observers_of this' k =
          foldl (fun s u => if bool_decide (u_key u = k)
                            then set_delete (u_callback u) s else s)
                (observers_of this k) us) ∧
    invocations w' = invocations w ∧
    heap w' = heap w ++ new ∧
    console w' = console w ++ lines ∧
    console_errors lines = [] ∧
    logger w' = logger w ∧ window w' = window w ∧ timeline w' = timeline w ∧
    length (arrays w') = length (arrays w).
Proof.
  induction us as [|u us IH]; intros this w.
  - exists this, w, [], []. cbn [fold_of foldl]. rewrite !app_nil_r.
    split_and!; done.
  - destruct (unsubscribe_run this u w)
      as (this1 & w1 & new1 & lines1 & Hrun1 & Hst1 & Hobs1 & Hinv1 & Hheap1 & Hcon1
          & Herr1 & Hlg1 & Hwin1 & Htl1 & Hlen1).
    destruct (IH this1 w1)
      as (this' & w' & new & lines & Hrun & Hst & Hobs & Hinv & Hheap & Hcon
          & Herr & Hlg & Hwin & Htl & Hlen).
    exists this', w', (new1 ++ new), (lines1 ++ lines).
    cbn [fold_of foldl]. rewrite (bind_Ok _ _ _ _ _ Hrun1).
    split; [exact Hrun|]. split; [congruence|]. split.
    { intros k. rewrite Hobs, Hobs1.
      destruct (decide (k = u_key u)) as [->|Hne].
      - by rewrite bool_decide_eq_true_2.
      - by rewrite bool_decide_eq_false_2. }
    split_and!; try congruence.
    + by rewrite Hheap, Hheap1, app_assoc.
    + by rewrite Hcon, Hcon1, app_assoc.
    + by rewrite console_errors_app, Herr1, Herr.
Qed.

(** A call of an observer: it is recorded, the registrations are as the
    observer leaves them, and nothing is reported as an error. *)
Lemma invoke_run this key cb v old w :
  ∃ this' w' new lines,
    invoke outcome this key cb v old w =
      Ok (this', completion (outcome cb v old)) w' ∧
    state this' = state this ∧
    (∀ k, observers_of this' k = left_by outcome k v old cb (observers_of this k)) ∧
    invocations w' = invocations w ++ [call_of key v old cb] ∧
    heap w' = heap w ++ new ∧
    console w' = console w ++ lines ∧
    console_errors lines = [] ∧
    logger w' = logger w ∧ window w' = window w ∧ timeline w' = timeline w ∧
    length (arrays w') = length (arrays w).
Proof.
  unfold invoke. unfold bind at 1. unfold modify at 1.
  set (w1 := with_invocations _ w).
  destruct (unsubscribes_run (unsubscribes (outcome cb v old)) this w1)
    as (this' & w' & new & lines & Hrun & Hst & Hobs & Hinv & Hheap & Hcon
        & Herr & Hlg & Hwin & Htl & Hlen).
  exists this', w', new, lines. rewrite (bind_Ok _ _ _ _ _ Hrun).
  split_and!; done.
Qed.

(** One turn of the loop of [notify], for an observer that stays within
    the model: an error it throws is reported and the turn ends
    normally. *)
Lemma turn_run this key cb v old w :
  completion (outcome cb v old) ≠ leaves ->
  ∃ this' w' new lines,
    (let! r := invoke outcome this key cb v old in
     match r.2 with
     | returns => ret r.1
     | throws error =>
         do! Logger.error ("Error in state observer for " +:+ key) error in
         ret r.1
     | leaves => beyond
     end) w = Ok this' w' ∧
    state this' = state this ∧
    (∀ k, observers_of this' k = left_by outcome k v old cb (observers_of this k)) ∧
    invocations w' = invocations w ++ [call_of key v old cb] ∧
    heap w' = heap w ++ new ∧
    console w' = console w ++ lines ∧
    Forall2 (reports outcome key v old) (console_errors lines)
      (throwers outcome v old [cb]) ∧
    logger w' = logger w ∧ window w' = window w ∧ timeline w' = timeline w ∧
    length (arrays w') = length (arrays w).
Proof.
  intros Hin.
  destruct (invoke_run this key cb v old w)
    as (this' & w1 & new1 & lines1 & Hrun1 & Hst & Hobs & Hinv1 & Hheap1 & Hcon1
        & Herr1 & Hlg1 & Hwin1 & Htl1 & Hlen1).
  rewrite (bind_Ok _ _ _ _ _ Hrun1). cbn [fst snd].
  unfold throwers. rewrite filter_cons, filter_nil.
  destruct (completion (outcome cb v old)) as [|e|] eqn:Hend; [| |done].
  - exists this', w1, new1, lines1. rewrite decide_False by (by intros [? ?]).
    rewrite Herr1. split_and!; try done.
  - destruct (LoggerFacts.error_logged
                ("Error in state observer for " +:+ key) e w1)
      as (w2 & Hrun2 & Hheap2 & Harr2 & Hcon2 & _ & Htl2 & Hinv2 & Hlg2 & Hwin2).
    rewrite (bind_Ok _ _ _ _ _ Hrun2).
    rewrite decide_True by (by eexists).
    do 4 eexists. split; [reflexivity|].
    rewrite Hinv2, Hheap2, Hcon2, Htl2, Hlg2, Hwin2, Harr2, length_insert.
    rewrite Hheap1, Hcon1, <- !app_assoc.
    split_and!; try done.
    rewrite console_errors_app, Herr1. cbn [app].
    unfold console_errors. rewrite filter_cons, filter_nil. cbn [c_method].
    rewrite decide_True by done.
    constructor; [|constructor].
    exists e, (toISOString (window w1) (clock w1)). by rewrite Hend.
Qed.

(** One turn of the loop, whatever the observer does: it is called, and
    the turn does not throw. *)
Lemma turn_any this key cb v old w :
  ∃ this' w',
    state this' = state this ∧
    (∀ k, observers_of this' k = left_by outcome k v old cb (observers_of this k)) ∧
    invocations w' = invocations w ++ [call_of key v old cb] ∧
    ((let! r := invoke outcome this key cb v old in
      match r.2 with
      | returns => ret r.1
      | throws error =>
          do! Logger.error ("Error in state observer for " +:+ key) error in
          ret r.1
      | leaves => beyond
      end) w = Ok this' w' ∨
     (let! r := invoke outcome this key cb v old in
      match r.2 with
      | returns => ret r.1
      | throws error =>
          do! Logger.error ("Error in state observer for " +:+ key) error in
          ret r.1
      | leaves => beyond
      end) w = Beyond w').
Proof.
  destruct (decide (completion (outcome cb v old) = leaves)) as [Hl|Hl].
  - destruct (invoke_run this key cb v old w)
      as (this' & w1 & new1 & lines1 & Hrun1 & Hst & Hobs & Hinv1 & _).
    exists this', w1. split_and!; try done. right.
    rewrite (bind_Ok _ _ _ _ _ Hrun1). cbn [fst snd]. by rewrite Hl.
  - destruct (turn_run this key cb v old w Hl)
      as (this' & w' & new & lines & Hrun & Hst & Hobs & Hinv & _).
    exists this', w'. split_and!; try done. by left.
Qed.

(** The loop of [notify] when no observer leaves the model: the
    observers still registered at their turn are called, in order; an
    error thrown is reported and the loop goes on. *)
Lemma forEach_run key v old (pending : list nat) : ∀ this w,
  Forall (fun cb => completion (outcome cb v old) ≠ leaves) pending ->
  ∃ this' w' new lines,
    forEach pending key (fun this callback =>
      let! r := invoke outcome this key callback v old in
      match r.2 with
      | returns => ret r.1
      | throws error =>
          do! Logger.error ("Error in state observer for " +:+ key) error in
          ret r.1
      | leaves => beyond
      end) this w = Ok this' w' ∧
    state this' = state this ∧
    (∀ k, sublist (observers_of this' k) (observers_of this k)) ∧
    invocations w' =
      invocations w ++
      map (call_of key v old)
        (reached outcome key v old pending (observers_of this key)) ∧
    heap w' = heap w ++ new ∧
    console w' = console w ++ lines ∧
    Forall2 (reports outcome key v old) (console_errors lines)
      (throwers outcome v old
         (reached outcome key v old pending (observers_of this key))) ∧
    logger w' = logger w ∧ window w' = window w ∧ timeline w' = timeline w ∧
    length (arrays w') = length (arrays w).
Proof.
  induction pending as [|cb pending IH]; intros this w Hall.
  - exists this, w, [], []. cbn [forEach reached map]. rewrite !app_nil_r.
    split_and!; try done.
  - apply Forall_cons in Hall as [Hcb Hall]. cbn [forEach reached].
    case_bool_decide as Hlive.
    + destruct (turn_run this key cb v old w Hcb)
        as (this1 & w1 & new1 & lines1 & Hrun1 & Hst1 & Hobs1 & Hinv1 & Hheap1
            & Hcon1 & Hrep1 & Hlg1 & Hwin1 & Htl1 & Hlen1).
      destruct (IH this1 w1 Hall)
        as (this' & w' & new & lines & Hrun & Hst & Hobs & Hinv & Hheap & Hcon
            & Hrep & Hlg & Hwin & Htl & Hlen).
      exists this', w', (new1 ++ new), (lines1 ++ lines).
      rewrite (bind_Ok _ _ _ _ _ Hrun1). split; [exact Hrun|].
      rewrite <- (Hobs1 key).
      split_and!; try congruence.
      * intros k. etrans; [apply Hobs|]. rewrite Hobs1. apply left_by_sublist.
      * rewrite Hinv, Hinv1. cbn [map]. by rewrite <- app_assoc.
      * by rewrite Hheap, Hheap1, app_assoc.
      * by rewrite Hcon, Hcon1, app_assoc.
      * rewrite console_errors_app.
        change (throwers outcome v old (cb :: ?l))
          with (filter (fun callback =>
                          is_Some (thrown (completion (outcome callback v old))))
                       ([cb] ++ l)).
        rewrite filter_app. by apply Forall2_app.
    + apply (IH this w Hall).
Qed.

(** The loop of [notify], whatever the observers do: it does not throw,
    the calls it makes are made for [key], with [(v, old)], to
    observers that were pending, and it drops registrations only. *)
Lemma forEach_any key v old (pending : list nat) : ∀ this w,
  ∃ this' w' called,
    state this' = state this ∧
    (∀ k, sublist (observers_of this' k) (observers_of this k)) ∧
    invocations w' = invocations w ++ map (call_of key v old) called ∧
    sublist called pending ∧
    (forEach pending key (fun this callback =>
       let! r := invoke outcome this key callback v old in
       match r.2 with
       | returns => ret r.1
       | throws error =>
           do! Logger.error ("Error in state observer for " +:+ key) error in
           ret r.1
       | leaves => beyond
       end) this w = Ok this' w' ∨
     forEach pending key (fun this callback =>
       let! r := invoke outcome this key callback v old in
       match r.2 with
       | returns => ret r.1
       | throws error =>
           do! Logger.error ("Error in state observer for " +:+ key) error in
           ret r.1
       | leaves => beyond
       end) this w = Beyond w').
Proof.
  induction pending as [|cb pending IH]; intros this w.
  - exists this, w, []. cbn [forEach map]. rewrite app_nil_r.
    split_and!; try done. by left.
  - cbn [forEach]. case_bool_decide as Hlive.
    + destruct (turn_any this key cb v old w)
        as (this1 & w1 & Hst1 & Hobs1 & Hinv1 & [Hrun1|Hrun1]).
      * destruct (IH this1 w1)
          as (this' & w' & called & Hst & Hobs & Hinv & Hsub & Hrun).
        exists this', w', (cb :: called).
        rewrite (bind_Ok _ _ _ _ _ Hrun1).
        split_and!; [congruence| | | |exact Hrun].
        -- intros k. etrans; [apply Hobs|]. rewrite Hobs1. apply left_by_sublist.
        -- rewrite Hinv, Hinv1. cbn [map]. by rewrite <- app_assoc.
        -- by apply sublist_skip.
      * exists this1, w1, [cb]. rewrite (bind_Beyond _ _ _ _ Hrun1).
        split_and!; [done| |done| |by right].
        -- intros k. rewrite Hobs1. apply left_by_sublist.
        -- apply sublist_skip, sublist_nil_l.
    + destruct (IH this w)
        as (this' & w' & called & Hst & Hobs & Hinv & Hsub & Hrun).
      exists this', w', called. split_and!; try done.
      by apply sublist_cons.
Qed.

Lemma notify_run this key v old w :
  described outcome this key v old ->
  ∃ this' w' new lines,
    notify outcome this key v old w = Ok this' w' ∧
    state this' = state this ∧
    (∀ k, sublist (observers_of this' k) (observers_of this k)) ∧
    invocations w' =
      invocations w ++
      map (call_of key v old)
        (reached outcome key v old (observers_of this key) (observers_of this key)) ∧
    heap w' = heap w ++ new ∧
    console w' = console w ++ lines ∧
    Forall2 (reports outcome key v old) (console_errors lines)
      (throwers outcome v old
         (reached outcome key v old (observers_of this key)
            (observers_of this key))) ∧
    logger w' = logger w ∧ window w' = window w ∧ timeline w' = timeline w ∧
    length (arrays w') = length (arrays w).
Proof.
  unfold notify, described, observers_of.
  destruct (observers this !! key) as [obs|] eqn:Hobs; cbn [default].
  - intros Hall.
    destruct (forEach_run key v old obs this w Hall)
      as (this' & w' & new & lines & Hrun & Hrest).
    exists this', w', new, lines. split; [exact Hrun|].
    unfold observers_of in Hrest. by rewrite Hobs in Hrest.
  - intros _. exists this, w, [], []. cbn [reached map]. rewrite !app_nil_r.
    split_and!; try done.
Qed.

Lemma notify_any this key v old w :
  ∃ this' w' called,
    state this' = state this ∧
    (∀ k, sublist (observers_of this' k) (observers_of this k)) ∧
    invocations w' = invocations w ++ map (call_of key v old) called ∧
    sublist called (observers_of this key) ∧
    (notify outcome this key v old w = Ok this' w' ∨
     notify outcome this key v old w = Beyond w').
Proof.
  unfold notify, observers_of.
  destruct (observers this !! key) as [obs|] eqn:Hobs; cbn [default].
  - apply forEach_any.
  - exists this, w, []. cbn [map]. rewrite app_nil_r. split_and!; try done. by left.
Qed.

(** *** The structure of [set] *)

(** [set] walks to the container, reads the old value, and when the new
    one differs writes it, logs and notifies; it can only throw before it
    has written. *)
Lemma set_run this key v w :
  match navigate (removelast (split_dots key)) (VRef (state this)) w with
  | Throw e w1 => set outcome this key v w = Throw e w1
  | Beyond w1 => set outcome this key v w = Beyond w1
  | Ok target w1 =>
      match get_member target (List.last (split_dots key) "") w1 with
      | Throw e w2 => set outcome this key v w = Throw e w2
      | Beyond w2 => set outcome this key v w = Beyond w2
      | Ok old w2 =>
          if strict_eq old v then set outcome this key v w = Ok this w2
          else
            match put_member target (List.last (split_dots key) "") v w2 with
            | Throw e w3 => set outcome this key v w = Throw e w3
            | Beyond w3 => set outcome this key v w = Beyond w3
            | Ok _ w3 =>
                ∃ w5 new lines,
                  set outcome this key v w = notify outcome this key v old w5 ∧
                  invocations w5 = invocations w3 ∧
                  heap w5 = heap w3 ++ new ∧
                  console w5 = console w3 ++ lines ∧
                  console_errors lines = [] ∧
                  logger w5 = logger w3 ∧ window w5 = window w3 ∧
                  timeline w5 = timeline w3 ∧
                  length (arrays w5) = length (arrays w3)
            end
      end
  end.
Proof.
  unfold set. cbv zeta.
  destruct (navigate _ _ w) as [target w1|e w1|w1] eqn:Hnav;
    [rewrite (bind_Ok _ _ _ _ _ Hnav)
    |by rewrite (bind_Throw _ _ _ _ _ Hnav)
    |by rewrite (bind_Beyond _ _ _ _ Hnav)].
  destruct (get_member target _ w1) as [old w2|e w2|w2] eqn:Hold;
    [rewrite (bind_Ok _ _ _ _ _ Hold)
    |by rewrite (bind_Throw _ _ _ _ _ Hold)
    |by rewrite (bind_Beyond _ _ _ _ Hold)].
  destruct (strict_eq old v) eqn:Hsame; [done|].
  destruct (put_member target _ v w2) as [[] w3|e w3|w3] eqn:Hput;
    [rewrite (bind_Ok _ _ _ _ _ Hput)
    |by rewrite (bind_Throw _ _ _ _ _ Hput)
    |by rewrite (bind_Beyond _ _ _ _ Hput)].
  unfold bind at 1. unfold new_object at 1.
  set (w4 := with_heap _ w3).
  destruct (LoggerFacts.debug_logged ("State updated: " +:+ key)
              (VRef (length (heap w3))) w4)
    as (w5 & Hdebug & Hheap5 & Harr5 & Hcon5 & _ & Htl5 & Hinv5 & Hlg5 & Hwin5).
  rewrite (bind_Ok _ _ _ _ _ Hdebug).
  exists w5. do 2 eexists. split; [reflexivity|].
  rewrite Hinv5, Hheap5, Hcon5, Hlg5, Hwin5, Htl5, Harr5, length_insert.
  unfold w4. simpl. rewrite <- !app_assoc.
  split_and!; try done.
  by destruct (isDevelopment (logger w3)).
Qed.

(** Whatever the heap and whatever the observers do, the calls a [set]
    makes are made for its key, with its value and one and the same old
    value, to observers of the key; it drops registrations only, and
    none when it throws. *)
Lemma set_any this key v w :
  ∃ this' w' old called,
    state this' = state this ∧
    (∀ k, sublist (observers_of this' k) (observers_of this k)) ∧
    invocations w' = invocations w ++ map (call_of key v old) called ∧
    sublist called (observers_of this key) ∧
    (set outcome this key v w = Ok this' w' ∨
     set outcome this key v w = Beyond w' ∨
     ∃ e, set outcome this key v w = Throw e w' ∧ this' = this ∧ called = []).
Proof.
  pose proof (set_run this key v w) as Hset.
  pose proof (navigate_frame (removelast (split_dots key)) (VRef (state this)) w) as F1.
  assert (Hquiet : ∀ w', invocations w' = invocations w ->
            ∃ old called,
              state this = state this ∧
              (∀ k, sublist (observers_of this k) (observers_of this k)) ∧
              invocations w' = invocations w ++ map (call_of key v old) called ∧
              sublist called (observers_of this key) ∧ called = []).
  { intros w' Hinv. exists VUndefined, []. cbn [map]. rewrite app_nil_r.
    split_and!; try done. apply sublist_nil_l. }
  destruct (navigate _ _ w) as [target w1|e w1|w1]; simpl in F1;
    destruct F1 as (_&_&_&_&I1&_).
  2:{ destruct (Hquiet w1 I1) as (old & called & H1 & H2 & H3 & H4 & H5).
      exists this, w1, old, called. split_and!; try done.
      right. right. by exists e. }
  2:{ destruct (Hquiet w1 I1) as (old & called & H1 & H2 & H3 & H4 & H5).
      exists this, w1, old, called. split_and!; try done. right. by left. }
  pose proof (get_member_frame target (List.last (split_dots key) "") w1) as F2.
  destruct (get_member target _ w1) as [old w2|e w2|w2]; simpl in F2;
    destruct F2 as (_&_&_&_&I2&_).
  2:{ destruct (Hquiet w2 ltac:(congruence)) as (old & called & H1 & H2 & H3 & H4 & H5).
      exists this, w2, old, called. split_and!; try done.
      right. right. by exists e. }
  2:{ destruct (Hquiet w2 ltac:(congruence)) as (old & called & H1 & H2 & H3 & H4 & H5).
      exists this, w2, old, called. split_and!; try done. right. by left. }
  destruct (strict_eq old v).
  { destruct (Hquiet w2 ltac:(congruence)) as (old' & called & H1 & H2 & H3 & H4 & H5).
    exists this, w2, old', called. split_and!; try done. by left. }
  pose proof (put_member_frame target (List.last (split_dots key) "") v w2) as F3.
  destruct (put_member target _ v w2) as [[] w3|e w3|w3]; simpl in F3;
    destruct F3 as (_&_&_&_&I3&_).
  2:{ destruct (Hquiet w3 ltac:(congruence)) as (old' & called & H1 & H2 & H3 & H4 & H5).
      exists this, w3, old', called. split_and!; try done.
      right. right. by exists e. }
  2:{ destruct (Hquiet w3 ltac:(congruence)) as (old' & called & H1 & H2 & H3 & H4 & H5).
      exists this, w3, old', called. split_and!; try done. right. by left. }
  destruct Hset as (w5 & new & lines & Hrun & Hinv5 & _).
  destruct (notify_any this key v old w5)
    as (this' & w' & called & Hst & Hobs & Hinv & Hsub & Hres).
  exists this', w', old, called. rewrite Hrun.
  split_and!; try done; [congruence|].
  destruct Hres as [?|?]; [by left|right; by left].
Qed.


(** When the containers of the path are in place, [set] creates
    nothing: it compares the value of the last segment with the new
    one. *)
Lemma set_in_place this key v w target :
  own_path w (removelast (split_dots key)) (VRef (state this)) = VRef target ->
  List.last (split_dots key) "" ∉ Object_prototype ->
  (strict_eq (own_property w (VRef target) (List.last (split_dots key) "")) v = true ->
   set outcome this key v w = Ok this w) ∧
  (strict_eq (own_property w (VRef target) (List.last (split_dots key) "")) v = false ->
   described outcome this key v
     (own_property w (VRef target) (List.last (split_dots key) "")) ->
   ∃ this' w' new lines,
     set outcome this key v w = Ok this' w' ∧
     state this' = state this ∧
     (∀ k, sublist (observers_of this' k) (observers_of this k)) ∧
     invocations w' =
       invocations w ++
       map (call_of key v (own_property w (VRef target) (List.last (split_dots key) "")))
         (reached outcome key v
            (own_property w (VRef target) (List.last (split_dots key) ""))
            (observers_of this key) (observers_of this key)) ∧
     heap w' =
       <[target := <[List.last (split_dots key) "" := v]> (props_at w target)]>
         (heap w) ++ new ∧
     console w' = console w ++ lines ∧
     Forall2 (reports outcome key v
                (own_property w (VRef target) (List.last (split_dots key) "")))
       (console_errors lines)
       (throwers outcome v
          (own_property w (VRef target) (List.last (split_dots key) ""))
          (reached outcome key v
             (own_property w (VRef target) (List.last (split_dots key) ""))
             (observers_of this key) (observers_of this key)))).
Proof.
  intros Hp Hlast.
  set (init := removelast (split_dots key)) in *.
  set (last := List.last (split_dots key) "") in *.
  pose proof (navigate_in_place init _ w target Hp) as Hnav.
  pose proof (set_run this key v w) as Hset.
  fold init last in Hset. rewrite Hnav in Hset.
  rewrite (get_member_plain w target last Hlast) in Hset.
  split.
  - intros Hsame. by rewrite Hsame in Hset.
  - intros Hdiff Hdesc. rewrite Hdiff in Hset.
    rewrite (put_member_plain w target last v Hlast) in Hset.
    destruct Hset as (w5 & new5 & lines5 & Hrun & Hinv5 & Hheap5 & Hcon5 & Herr5 & _).
    destruct (notify_run this key v _ w5 Hdesc)
      as (this' & w' & new & lines & Hnotify & Hst & Hobs & Hinv & Hheap & Hcon
          & Hrep & _).
    exists this', w', (new5 ++ new), (lines5 ++ lines).
    rewrite Hrun. split; [exact Hnotify|].
    cbn [heap with_heap console invocations] in *.
    split_and!; try congruence.
    + done.
    + by rewrite Hheap, Hheap5, app_assoc.
    + by rewrite Hcon, Hcon5, app_assoc.
    + by rewrite console_errors_app, Herr5.
Qed.


(** *** The claims about [set] and its observers *)




(** *** Sequences of calls *)

(** Whatever the heap and whatever the observers do, the calls an
    [update] makes are those of its entries, and it drops registrations
    only. *)
Lemma update_any (updates : list (string * val)) : ∀ this w,
  ∃ w' added,
    state (update_reached outcome this updates w) = state this ∧
    (∀ k, sublist (observers_of (update_reached outcome this updates w) k)
                  (observers_of this k)) ∧
    invocations w' = invocations w ++ added ∧
    Forall (fun i => (i_key i, i_newValue i) ∈ updates ∧
                     i_callback i ∈ observers_of this (i_key i)) added ∧
    (update outcome this updates w = Ok (update_reached outcome this updates w) w' ∨
     update outcome this updates w = Beyond w' ∨
     ∃ e, update outcome this updates w = Throw e w').
Proof.
  unfold update. induction updates as [|[key v] updates IH]; intros this w.
  - exists w, []. cbn [fold_of update_reached]. rewrite app_nil_r.
    split_and!; try done. by left.
  - cbn [fold_of update_reached fst snd].
    destruct (set_any this key v w)
      as (this1 & w1 & old & called & Hst1 & Hobs1 & Hinv1 & Hsub1 & Hres).
    assert (Hcalled : Forall (fun i => (i_key i, i_newValue i) ∈ (key, v) :: updates ∧
                                i_callback i ∈ observers_of this (i_key i))
                        (map (call_of key v old) called)).
    { apply Forall_forall. intros i Hi.
      apply list_elem_of_fmap in Hi as (cb & -> & Hcb). simpl.
      split; [by left|]. by eapply elem_of_sublist. }
    destruct Hres as [Hrun|[Hrun|(e & Hrun & -> & ->)]]; rewrite Hrun.
    + destruct (IH this1 w1) as (w' & added & Hst & Hobs & Hinv & Hadd & Hres).
      exists w', (map (call_of key v old) called ++ added).
      rewrite (bind_Ok _ _ _ _ _ Hrun).
      split_and!.
      * congruence.
      * intros k. etrans; [apply Hobs|apply Hobs1].
      * by rewrite Hinv, Hinv1, app_assoc.
      * apply Forall_app. split; [done|].
        eapply Forall_impl; [exact Hadd|]. intros i [Hi1 Hi2].
        split; [by right|]. by eapply elem_of_sublist.
      * exact Hres.
    + exists w1, (map (call_of key v old) called).
      rewrite (bind_Beyond _ _ _ _ Hrun).
      split_and!; try done. right. by left.
    + exists w1, []. rewrite (bind_Throw _ _ _ _ _ Hrun).
      split_and!; try done. right. right. by exists e.
Qed.







End WithCallbacks.

End StateManagerFacts.

(** ** The state store: top-level keys, exact keys, copies, reset *)

Module StateManagerExtras.
Import JS StateManager StateViews MonadFacts StateManagerFacts.
Local Open Scope js_scope.

Lemma own_path_single w k t : own_path w [k] t = own_property w t k.
Proof. simpl. by destruct (strict_eq _ _). Qed.

(** Reading a plain name of an object. *)
Lemma get_loop_single w k l :
  k ∉ Object_prototype ->
  get_loop [k] (VRef l) w = Ok (own_property w (VRef l) k) w.
Proof.
  intros Hk. cbn [get_loop].
  rewrite (bind_Ok _ _ _ _ _ (get_optional_plain w l k Hk)).
  by destruct (strict_eq _ _).
Qed.

(** Reading a plain name of an object held by an object. *)
Lemma get_loop_two w l k1 k2 o :
  props_at w l !! k1 = Some (VRef o) -> k2 ∉ Object_prototype ->
  get_loop [k1; k2] (VRef l) w = Ok (own_property w (VRef o) k2) w.
Proof.
  intros H Hk2. cbn [get_loop].
  rewrite (bind_Ok _ _ _ _ _ (get_optional_own w l k1 _ H)). cbn [strict_eq].
  rewrite (bind_Ok _ _ _ _ _ (get_optional_plain w o k2 Hk2)).
  by destruct (strict_eq _ _).
Qed.

Section WithCallbacks.
Variable outcome : nat -> val -> val -> Outcome.

Lemma described_sublist this this' key v old :
  (∀ k, sublist (observers_of this' k) (observers_of this k)) ->
  described outcome this key v old -> described outcome this' key v old.
Proof.
  unfold described. intros Hsub Hd. rewrite Forall_forall in *.
  intros cb Hcb. apply Hd. by eapply elem_of_sublist.
Qed.

(** What a [set] writes, the containers being in place. *)
Lemma set_writes this key v w target :
  own_path w (removelast (split_dots key)) (VRef (state this)) = VRef target ->
  List.last (split_dots key) "" ∉ Object_prototype ->
  (target < length (heap w))%nat ->
  described outcome this key v
    (own_property w (VRef target) (List.last (split_dots key) "")) ->
  ∃ this' w', set outcome this key v w = Ok this' w' ∧
    state this' = state this ∧
    (∀ k, sublist (observers_of this' k) (observers_of this k)) ∧
    (length (heap w) ≤ length (heap w'))%nat ∧
    (∀ l, (l < length (heap w))%nat -> l ≠ target -> props_at w' l = props_at w l) ∧
    ∀ l k, (l < length (heap w))%nat ->
      own_property w' (VRef l) k =
      if decide (l = target ∧ k = List.last (split_dots key) "") then v
      else own_property w (VRef l) k.
Proof.
  intros Hp Hlast Htgt Hdesc.
  destruct (set_in_place outcome this key v w target Hp Hlast) as [Hsame Hchange].
  destruct (strict_eq (own_property w (VRef target) (List.last (split_dots key) "")) v)
    eqn:Heq.
  - exists this, w. split; [by apply Hsame|]. split_and!; try done.
    intros l k Hl. case_decide as Hd; [|done].
    destruct Hd as [-> ->]. by apply strict_eq_true in Heq.
  - destruct (Hchange eq_refl Hdesc)
      as (this' & w' & new & lines & Hrun & Hst & Hobs & _ & Hheap & _).
    exists this', w'. split; [exact Hrun|]. split_and!; try done.
    { rewrite Hheap, length_app, length_insert. lia. }
    { intros l Hl Hne. unfold props_at. rewrite Hheap.
      rewrite lookup_app_l by (by rewrite length_insert).
      by rewrite list_lookup_insert_ne. }
    intros l k Hl. unfold own_property, props_at. rewrite Hheap.
    rewrite lookup_app_l by (by rewrite length_insert).
    destruct (decide (l = target)) as [->|Hne].
    + rewrite list_lookup_insert_eq by done. simpl.
      destruct (decide (k = List.last (split_dots key) "")) as [->|Hk].
      * rewrite decide_True by done. by rewrite lookup_insert_eq.
      * rewrite decide_False by (by intros [_ ?]).
        rewrite lookup_insert_ne by done. done.
    + rewrite list_lookup_insert_ne by done.
      by rewrite decide_False by (by intros [? _]).
Qed.

(** A [set] of a plain key without a dot writes into the state object
    itself. *)
Lemma set_top_level this key v w :
  split_dots key = [key] -> key ∉ Object_prototype ->
  (state this < length (heap w))%nat ->
  described outcome this key v (own_property w (VRef (state this)) key) ->
  ∃ this' w', set outcome this key v w = Ok this' w' ∧
    state this' = state this ∧
    (∀ k, sublist (observers_of this' k) (observers_of this k)) ∧
    (length (heap w) ≤ length (heap w'))%nat ∧
    ∀ l k, (l < length (heap w))%nat ->
      own_property w' (VRef l) k =
      if decide (l = state this ∧ k = key) then v
      else own_property w (VRef l) k.
Proof.
  intros Hkey Hplain Hroot Hdesc.
  pose proof (set_writes this key v w (state this)) as H.
  rewrite Hkey in H. cbn [removelast List.last own_path] in H.
  destruct H as (this' & w' & Hrun & Hst & Hobs & Hlen & _ & Hread); try done.
  by exists this', w'.
Qed.

Lemma get_top_level this key w :
  split_dots key = [key] -> key ∉ Object_prototype ->
  get this key w = Ok (own_property w (VRef (state this)) key) w.
Proof. intros Hkey Hplain. unfold get. rewrite Hkey. by apply get_loop_single. Qed.

(** X5: for a key without a dot that is not the name of a property of
    [Object.prototype], on a store whose state object exists and with
    observers that stay within the model, [set(key, v)] returns and
    [get(key)] then yields [v]; every other such key reads as
    before. *)
Theorem set_then_get_top_level this key v w :
  split_dots key = [key] -> key ∉ Object_prototype ->
  (state this < length (heap w))%nat ->
  described outcome this key v (own_property w (VRef (state this)) key) ->
  ∃ this' w', set outcome this key v w = Ok this' w' ∧
    get this' key w' = Ok v w' ∧
    ∀ key', split_dots key' = [key'] -> key' ∉ Object_prototype -> key' ≠ key ->
      ∃ v', get this key' w = Ok v' w ∧ get this' key' w' = Ok v' w'.
Proof.
  intros Hkey Hplain Hroot Hdesc.
  destruct (set_top_level this key v w Hkey Hplain Hroot Hdesc)
    as (this' & w' & Hrun & Hst & _ & _ & Hread).
  exists this', w'. split; [exact Hrun|]. split.
  - rewrite get_top_level, Hst, Hread by done. by rewrite decide_True.
  - intros key' Hkey' Hplain' Hne. eexists. split; [by apply get_top_level|].
    rewrite get_top_level, Hst, Hread by done.
    by rewrite decide_False by (by intros [_ ?]).
Qed.

(** X6: whatever the state, the calls [set(key, v)] makes are made on
    behalf of exactly [key], to observers registered for [key], with [v]
    as the new value: observers of another path, be it a prefix of [key]
    or a path below it, are not called.  The same holds for each entry of
    an [update]. *)
Theorem set_calls_exact_key_only this key v (updates : list (string * val)) w :
  (∃ added,
     invocations (world_of (set outcome this key v w)) = invocations w ++ added ∧
     Forall (fun i => i_key i = key ∧ i_newValue i = v ∧
                      i_callback i ∈ observers_of this key) added) ∧
  (∃ added,
     invocations (world_of (update outcome this updates w)) =
       invocations w ++ added ∧
     Forall (fun i => (i_key i, i_newValue i) ∈ updates ∧
                      i_callback i ∈ observers_of this (i_key i)) added).
Proof.
  split.
  - destruct (set_any outcome this key v w)
      as (this' & w' & old & called & _ & _ & Hinv & Hsub & Hres).
    exists (map (call_of key v old) called). split.
    + by destruct Hres as [->|[->|(e & -> & _)]].
    + apply Forall_forall. intros i Hi.
      apply list_elem_of_fmap in Hi as (cb & -> & Hcb). simpl.
      split_and!; try done. by eapply elem_of_sublist.
  - destruct (update_any outcome updates this w)
      as (w' & added & _ & _ & Hinv & Hadd & Hres).
    exists added. split; [|done].
    by destruct Hres as [->|[->|(e & ->)]].
Qed.

(** *** Several keys at once *)

Lemma update_top_level (updates : list (string * val)) : ∀ this w,
  Forall (fun kv => split_dots kv.1 = [kv.1] ∧ kv.1 ∉ Object_prototype) updates ->
  NoDup updates.*1 ->
  (state this < length (heap w))%nat ->
  Forall (fun kv => described outcome this kv.1 kv.2
                      (own_property w (VRef (state this)) kv.1)) updates ->
  ∃ this' w', update outcome this updates w = Ok this' w' ∧
    state this' = state this ∧
    (∀ k, sublist (observers_of this' k) (observers_of this k)) ∧
    (length (heap w) ≤ length (heap w'))%nat ∧
    (∀ kv, kv ∈ updates -> own_property w' (VRef (state this)) kv.1 = kv.2) ∧
    (∀ l k, (l < length (heap w))%nat -> ¬ (l = state this ∧ k ∈ updates.*1) ->
       own_property w' (VRef l) k = own_property w (VRef l) k).
Proof.
  unfold update.
  induction updates as [|[k x] updates IH]; intros this w Hkeys Hnd Hroot Hdesc.
  - exists this, w. cbn [fold_of]. split_and!; try done.
    intros kv Hkv. by apply elem_of_nil in Hkv.
  - cbn [fst snd fmap list_fmap] in *.
    apply Forall_cons in Hkeys as [[Hk Hplain] Hkeys]. cbn [fst] in Hk, Hplain.
    apply NoDup_cons in Hnd as [Hfresh Hnd].
    apply Forall_cons in Hdesc as [Hd1 Hdesc]. cbn [fst snd] in Hd1.
    destruct (set_top_level this k x w Hk Hplain Hroot Hd1)
      as (this1 & w1 & Hrun1 & Hst1 & Hobs1 & Hlen1 & Hread1).
    assert (Hdesc1 : Forall (fun kv => described outcome this1 kv.1 kv.2
                               (own_property w1 (VRef (state this1)) kv.1)) updates).
    { rewrite Forall_forall in *. intros kv Hkv.
      apply (described_sublist this this1); [done|].
      rewrite Hst1, Hread1 by done.
      rewrite decide_False; [by apply Hdesc|].
      intros [_ Heq]. apply Hfresh. rewrite <- Heq.
      apply list_elem_of_fmap. by exists kv. }
    destruct (IH this1 w1 Hkeys Hnd) as (this' & w' & Hrun & Hst & Hobs & Hlen & Hin & Hout).
    { rewrite Hst1. lia. }
    { exact Hdesc1. }
    exists this', w'. cbn [fold_of fst snd]. rewrite (bind_Ok _ _ _ _ _ Hrun1).
    split; [exact Hrun|]. split_and!.
    + congruence.
    + intros k0. etrans; [apply Hobs|apply Hobs1].
    + lia.
    + intros kv Hkv. apply elem_of_cons in Hkv as [->|Hkv].
      * cbn [fst snd]. rewrite Hout.
        -- rewrite Hread1 by done. by rewrite decide_True.
        -- lia.
        -- by intros [_ ?].
      * rewrite <- Hst1. by apply Hin.
    + intros l k0 Hl Hno. rewrite Hout.
      * rewrite Hread1 by done. rewrite decide_False; [done|].
        intros [-> ->]. apply Hno. split; [done|]. by left.
      * lia.
      * intros [-> Hk0]. apply Hno. split; [done|]. by right.
Qed.

(** X7: [update] with distinct keys without dots, none the name of a
    property of [Object.prototype], on a store whose state object exists
    and with observers that stay within the model, returns, and each
    key of the update then reads the value the update gave it, the
    other such keys reading as before. *)
Theorem update_writes_each_key this (updates : list (string * val)) w :
  Forall (fun kv => split_dots kv.1 = [kv.1] ∧ kv.1 ∉ Object_prototype) updates ->
  NoDup updates.*1 ->
  (state this < length (heap w))%nat ->
  Forall (fun kv => described outcome this kv.1 kv.2
                      (own_property w (VRef (state this)) kv.1)) updates ->
  ∃ this' w', update outcome this updates w = Ok this' w' ∧
    Forall (fun kv => get this' kv.1 w' = Ok kv.2 w') updates ∧
    ∀ key, split_dots key = [key] -> key ∉ Object_prototype -> key ∉ updates.*1 ->
      ∃ v', get this key w = Ok v' w ∧ get this' key w' = Ok v' w'.
Proof.
  intros Hkeys Hnd Hroot Hdesc.
  destruct (update_top_level updates this w Hkeys Hnd Hroot Hdesc)
    as (this' & w' & Hrun & Hst & _ & _ & Hin & Hout).
  exists this', w'. split; [exact Hrun|]. split.
  - rewrite Forall_forall in *. intros kv Hkv.
    destruct (Hkeys kv Hkv) as [Hk Hplain].
    rewrite get_top_level, Hst by done. f_equal. by apply Hin.
  - intros key Hkey Hplain Hno. eexists. split; [by apply get_top_level|].
    rewrite get_top_level, Hst by done. f_equal. apply Hout; [done|].
    by intros [_ ?].
Qed.

(** *** Copies of the state *)

(** X8: [getState()] returns a new object with the properties of the
    state object.  The copy is shallow: a later [set] of a key without a
    dot leaves the copy as it was, while a [set] below a nested object is
    seen through the copy, which holds the same nested object (an
    object of the heap other than the state object itself).  The names
    written are not names of properties of [Object.prototype], and the
    observers stay within the model. *)
Theorem getState_is_a_shallow_copy this w :
  (state this < length (heap w))%nat ->
  ∃ c w1,
    getState this w = Ok c w1 ∧
    c ≠ state this ∧
    props_at w1 c = props_at w (state this) ∧
    props_at w1 (state this) = props_at w (state this) ∧
    (∀ key v, split_dots key = [key] -> key ∉ Object_prototype ->
       described outcome this key v (own_property w (VRef (state this)) key) ->
       ∃ this2 w2, set outcome this key v w1 = Ok this2 w2 ∧
                   props_at w2 c = props_at w (state this)) ∧
    (∀ key k1 k2 o v,
       split_dots key = [k1; k2] -> k2 ∉ Object_prototype ->
       props_at w (state this) !! k1 = Some (VRef o) ->
       (o < length (heap w))%nat -> o ≠ state this ->
       described outcome this key v (own_property w (VRef o) k2) ->
       ∃ this2 w2, set outcome this key v w1 = Ok this2 w2 ∧
                   get_loop [k1; k2] (VRef c) w2 = Ok v w2 ∧
                   get this2 key w2 = Ok v w2).
Proof.
  intros Hroot.
  set (w1 := with_heap (heap w ++ [props_at w (state this)]) w).
  assert (Hc : props_at w1 (length (heap w)) = props_at w (state this)).
  { unfold props_at at 1, w1. simpl. by rewrite list_lookup_middle. }
  assert (Hold : ∀ l, (l < length (heap w))%nat -> props_at w1 l = props_at w l).
  { intros l Hl. unfold props_at, w1. simpl. by rewrite lookup_app_l. }
  assert (Hlen1 : length (heap w1) = S (length (heap w))).
  { unfold w1. simpl. rewrite length_app. simpl. lia. }
  exists (length (heap w)), w1. split; [reflexivity|].
  split; [lia|]. split; [exact Hc|]. split; [by apply Hold|]. split.
  - intros key v Hkey Hplain Hdesc.
    pose proof (set_writes this key v w1 (state this)) as Hset.
    rewrite Hkey in Hset. cbn [removelast List.last own_path] in Hset.
    destruct Hset as (this2 & w2 & Hrun & _ & _ & _ & Hother & _); try done.
    { lia. }
    { unfold own_property. by rewrite Hold. }
    exists this2, w2. split; [exact Hrun|].
    rewrite <- Hc. apply Hother; lia.
  - intros key k1 k2 o v Hkey Hplain Hk1 Ho Hne Hdesc.
    assert (Hk1' : props_at w1 (state this) !! k1 = Some (VRef o))
      by (by rewrite Hold).
    assert (Hc1 : props_at w1 (length (heap w)) !! k1 = Some (VRef o))
      by (by rewrite Hc).
    pose proof (set_writes this key v w1 o) as Hset.
    rewrite Hkey in Hset. cbn [removelast List.last] in Hset.
    destruct Hset as (this2 & w2 & Hrun & Hst & _ & _ & Hother & Hread).
    { cbn [own_path]. unfold own_property. by rewrite Hk1'. }
    { done. }
    { lia. }
    { unfold own_property. by rewrite Hold. }
    exists this2, w2. split; [exact Hrun|].
    assert (Hv : own_property w2 (VRef o) k2 = v).
    { rewrite Hread by lia. by rewrite decide_True. }
    split.
    + rewrite (get_loop_two w2 _ k1 k2 o); [by rewrite Hv| |done].
      rewrite Hother; [done|lia|lia].
    + unfold get. rewrite Hkey, Hst.
      rewrite (get_loop_two w2 _ k1 k2 o); [by rewrite Hv| |done].
      rewrite Hother; [done|lia|done].
Qed.

(** *** Reset *)

Lemma info_logged_heap m d w :
  ∃ w' e, Logger.info m d w = Ok tt w' ∧ heap w' = heap w ++ [e] ∧
          invocations w' = invocations w.
Proof.
  destruct (LoggerFacts.info_logged m d w)
    as (w' & Hrun & Hheap & _ & _ & _ & _ & Hinv & _).
  exists w'. eexists. split; [exact Hrun|]. split; [exact Hheap|exact Hinv].
Qed.

Lemma new_state_run isLoading w :
  ∃ a s w1,
    new_state isLoading w = Ok s w1 ∧
    a = length (heap w) ∧ s = S (length (heap w)) ∧
    heap w1 = heap w ++ [animations_literal; state_literal isLoading a] ∧
    only_heap_differs w w1.
Proof.
  do 3 eexists. split; [reflexivity|]. split; [reflexivity|].
  cbn [heap with_heap]. rewrite length_app. simpl.
  split; [lia|]. split; [|done].
  by rewrite <- app_assoc.
Qed.

Ltac lookup_literal :=
  repeat (rewrite lookup_insert_ne by done); rewrite lookup_insert_eq.

Ltac compute_split_dots :=
  match goal with
  | |- context [split_dots ?k] =>
      let r := eval vm_compute in (split_dots k) in
      change (split_dots k) with r
  end.

(** The state literal reads back, whatever is allocated after it. *)
Lemma new_state_reads isLoading w s w1 w' new :
  new_state isLoading w = Ok s w1 -> heap w' = heap w1 ++ new ->
  Forall (fun kv => own_path w' (split_dots kv.1) (VRef s) = kv.2 ∧
                   kv.2 ≠ VUndefined)
    (initial_values isLoading).
Proof.
  intros Hrun Hheap.
  destruct (new_state_run isLoading w) as (a & s' & w1' & Hrun' & -> & -> & Hh1 & _).
  rewrite Hrun in Hrun'. injection Hrun' as -> ->.
  rewrite Hh1 in Hheap.
  assert (Ha : props_at w' (length (heap w)) = animations_literal).
  { unfold props_at. rewrite Hheap, <- app_assoc. cbn [app].
    by rewrite list_lookup_middle. }
  assert (Hs : ∀ k, own_property w' (VRef (S (length (heap w)))) k =
               default VUndefined
                 (state_literal isLoading (length (heap w)) !! k)).
  { intros k. unfold own_property, props_at. rewrite Hheap, <- app_assoc.
    cbn [app]. rewrite lookup_app_r by lia.
    by replace (S (length (heap w)) - length (heap w))%nat with 1%nat by lia. }
  assert (Hnested : ∀ k,
            own_path w' ["animations"; k] (VRef (S (length (heap w)))) =
            own_property w' (VRef (length (heap w))) k).
  { intros k. rewrite own_path_cons, Hs. unfold state_literal. lookup_literal.
    cbn [default strict_eq]. apply own_path_single. }
  unfold initial_values.
  repeat (apply Forall_cons; split); [..|done];
    cbn [fst snd]; (split; [|done]); compute_split_dots.
  1-5: rewrite own_path_single, Hs; unfold state_literal; by lookup_literal.
  all: rewrite Hnested; unfold own_property; rewrite Ha;
    unfold animations_literal; by lookup_literal.
Qed.

(** X9: [reset()] never throws and calls no observer.  It installs a new
    state object holding the initial values (with [isLoading] false),
    keeps every registration, and leaves every object that existed,
    the old state object among them, as it was. *)
Theorem reset_restores_defaults this w :
  ∃ this' w' new,
    reset this w = Ok this' w' ∧
    observers this' = observers this ∧
    invocations w' = invocations w ∧
    heap w' = heap w ++ new ∧
    (length (heap w) ≤ state this')%nat ∧
    Forall (fun kv => get this' kv.1 w' = Ok kv.2 w') (initial_values false).
Proof.
  unfold reset. unfold getState at 1.
  unfold bind at 1. unfold bind at 1. unfold gets at 1. unfold new_object at 1.
  set (w0 := with_heap (heap w ++ [props_at w (state this)]) w).
  destruct (new_state_run false w0) as (a & s & w1 & Hnew & -> & -> & Hh1 & Hf1).
  rewrite (bind_Ok _ _ _ _ _ Hnew).
  unfold bind at 1. unfold new_object at 1.
  match goal with
  | |- context [bind (Logger.info ?m ?d) _ ?wd] =>
      destruct (info_logged_heap m d wd) as (w' & e & Hrun & Hheap & Hinv)
  end.
  rewrite (bind_Ok _ _ _ _ _ Hrun). cbn [heap with_heap] in Hheap.
  exists {| state := S (length (heap w0)); observers := observers this |}, w'.
  eexists. split; [reflexivity|]. cbn [observers state].
  split; [done|]. split.
  { rewrite Hinv. cbn [invocations with_heap]. by destruct Hf1 as (_&_&_&_&->&_). }
  split.
  { rewrite Hheap, Hh1. unfold w0. cbn [heap with_heap].
    rewrite <- !app_assoc. reflexivity. }
  split.
  { unfold w0. cbn [heap with_heap]. rewrite length_app. simpl. lia. }
  eapply Forall_impl.
  - eapply (new_state_reads false w0 _ w1 w' _ Hnew).
    rewrite Hheap, <- app_assoc. reflexivity.
  - intros [k v] [Hk Hv]. unfold get. cbn [fst snd state] in *.
    by apply get_loop_in_place.
Qed.

End WithCallbacks.

End StateManagerExtras.

(** ** The state store on a concrete page *)

Module StateManagerScenarios.
Import JS StateManager.

Ltac decided := apply (bool_decide_unpack _); vm_compute; exact I.



Lemma store_allocated :
  (state Scenario.store.1 < length (heap Scenario.store.2))%nat.
Proof. decided. Defined.




(** Nor is a value always strictly equal to itself: two consecutive
    [set("currentView", NaN)] notify the three observers twice, the
    second time with [(NaN, NaN)]. *)
Example set_NaN_twice_notifies_twice :
  ∃ w1 w2,
    set Scenario.outcome Scenario.observed_store.1 "currentView" VNaN
        Scenario.observed_store.2 = Ok Scenario.observed_store.1 w1 ∧
    set Scenario.outcome Scenario.observed_store.1 "currentView" VNaN w1
    = Ok Scenario.observed_store.1 w2 ∧
    invocations w2 =
      map (call_of "currentView" VNaN (VStr "home")) [1; 7; 2]%nat ++
      map (call_of "currentView" VNaN VNaN) [1; 7; 2]%nat.
Proof.
  set (w1 := world_of (set Scenario.outcome Scenario.observed_store.1
                           "currentView" VNaN Scenario.observed_store.2)).
  exists w1, (world_of (set Scenario.outcome Scenario.observed_store.1
                            "currentView" VNaN w1)).
  split_and!; vm_compute; reflexivity.
Qed.

(** The value held at a path is not always held by an object:
    [get("currentView.length")] is the length of the string ["home"],
    and [set("currentView.length", 5)], the sources being ES modules,
    hence strict, throws on the assignment to a read-only property and
    calls no observer. *)
Example set_length_of_a_string_throws :
  get Scenario.store.1 "currentView.length" Scenario.store.2
  = Ok (VNum 4) Scenario.store.2 ∧
  ∃ e,
    set Scenario.outcome Scenario.store.1 "currentView.length" (VNum 5)
        Scenario.store.2
    = Throw e (world_of (set Scenario.outcome Scenario.store.1
                             "currentView.length" (VNum 5) Scenario.store.2)) ∧
    invocations (world_of (set Scenario.outcome Scenario.store.1
                               "currentView.length" (VNum 5) Scenario.store.2))
    = [].
Proof.
  split; [vm_compute; reflexivity|].
  eexists. split; vm_compute; reflexivity.
Qed.

(** What is found on [Object.prototype] is not described:
    [get("constructor.name")] and [set("constructor.name", "x")] leave
    the model. *)
Example inherited_names_leave_the_model :
  get Scenario.store.1 "constructor.name" Scenario.store.2
  = Beyond Scenario.store.2 ∧
  set Scenario.outcome Scenario.store.1 "constructor.name" (VStr "x")
      Scenario.store.2 = Beyond Scenario.store.2 ∧
  set Scenario.outcome Scenario.store.1 "__proto__" (VNum 5) Scenario.store.2
  = Beyond Scenario.store.2.
Proof. split_and!; vm_compute; reflexivity. Qed.






End StateManagerScenarios.

(** ** The performance metrics collector *)

Module PerformanceMonitorFacts.
Import JS PerformanceMonitor MonadFacts.
Local Open Scope js_scope.

(** A measure that is started and ended is recorded under its name, and
    its mark is gone. *)
Example measure_is_recorded :
  ∃ this1 w1 this2 w2,
    startMeasure (Scenario.monitor Scenario.page).1 "render"
                 (Scenario.monitor Scenario.page).2 = Ok this1 w1 ∧
    endMeasure this1 "render" w1 = Ok (this2, VNum 3) w2 ∧
    durations this2 "render" = [3] ∧
    marks this2 !! "render" = None ∧
    timeline w2 = [].
Proof.
  do 4 eexists. split; [vm_compute; reflexivity|].
  split; [vm_compute; reflexivity|]. split_and!; vm_compute; reflexivity.
Qed.

(** C8 (as amended): [endMeasure(name)] without a running measure of that
    name never throws, returns [null] and leaves the monitor, and with it
    the recorded durations, as they were.  Where the Performance
    interface is supported it logs a warning; where it is not, it returns
    at once and logs nothing. *)
Theorem endMeasure_without_start this name w :
  marks this !! name = None ->
  ∃ this' w',
    endMeasure this name w = Ok (this', VNull) w' ∧
    this' = this ∧
    durations this' name = durations this name ∧
    if isSupported this
    then Logger.logged w w'
           [Logger.entry_literal (toISOString (window w) (clock w))
              Logger.LogLevel.WARN ("No start mark found for: " +:+ name)
              VNull (href (window w))]
           (Logger.retain (maxLogs (logger w))
              (Logger.history w ++ [VRef (length (heap w))]))
           [{| c_method := CWarn;
               c_text := Logger.render (toISOString (window w) (clock w)) "⚠️"
                           ("No start mark found for: " +:+ name);
               c_arg := VStr "" |}]
    else w' = w.
Proof.
  intros Hmarks. unfold endMeasure.
  destruct (isSupported this); simpl.
  - unfold try_catch. rewrite Hmarks.
    destruct (LoggerFacts.warn_logged ("No start mark found for: " +:+ name)
                VUndefined w) as (w' & Hrun & Hlog).
    rewrite (bind_Ok _ _ _ _ _ Hrun). by exists this, w'.
  - by exists this, w.
Qed.

(** On a page with the Performance interface, ending a measure that was
    never started returns [null] and prints the warning. *)
Lemma endMeasure_without_start_witness :
  ∃ w',
    endMeasure (Scenario.monitor Scenario.page).1 "render"
               (Scenario.monitor Scenario.page).2
    = Ok ((Scenario.monitor Scenario.page).1, VNull) w' ∧
    console w' =
      console (Scenario.monitor Scenario.page).2 ++
      [{| c_method := CWarn;
          c_text := Logger.render
                      (toISOString (window (Scenario.monitor Scenario.page).2)
                         (clock (Scenario.monitor Scenario.page).2))
                      "⚠️" ("No start mark found for: " +:+ "render");
          c_arg := VStr "" |}].
Proof.
  destruct (endMeasure_without_start (Scenario.monitor Scenario.page).1 "render"
              (Scenario.monitor Scenario.page).2)
    as (this' & w' & Hrun & -> & _ & Hlog).
  - vm_compute. reflexivity.
  - exists w'. split; [exact Hrun|].
    change (isSupported (Scenario.monitor Scenario.page).1) with true in Hlog.
    destruct Hlog as (_ & _ & Hcon & _). exact Hcon.
Defined.

(** C8, as stated, fails for the warning: in a browser without the
    Performance interface, [endMeasure("render")] with no measure running
    returns [null] and the world is exactly as before: nothing was
    logged. *)
Lemma endMeasure_unsupported_logs_nothing :
  isSupported (Scenario.monitor Scenario.page_without_performance).1 = false ∧
  marks (Scenario.monitor Scenario.page_without_performance).1 !! "render" = None ∧
  endMeasure (Scenario.monitor Scenario.page_without_performance).1 "render"
             (Scenario.monitor Scenario.page_without_performance).2
  = Ok ((Scenario.monitor Scenario.page_without_performance).1, VNull)
       (Scenario.monitor Scenario.page_without_performance).2.
Proof. split_and!; vm_compute; reflexivity. Qed.

End PerformanceMonitorFacts.

(** ** The performance metrics collector: a measure from start to end *)

Module PerformanceMonitorExtras.
Import JS PerformanceMonitor PerformanceMonitorClear MonadFacts.
Local Open Scope js_scope.

Lemma suffix_start_end name : name +:+ "-start" ≠ name +:+ "-end".
Proof. intros H. by apply String.app_inj in H. Qed.

Lemma suffix_start_measure name : name +:+ "-start" ≠ name +:+ "-measure".
Proof. intros H. by apply String.app_inj in H. Qed.

Lemma suffix_end_measure name : name +:+ "-end" ≠ name +:+ "-measure".
Proof. intros H. by apply String.app_inj in H. Qed.

Lemma debug_frame m d w :
  ∃ w', Logger.debug m d w = Ok tt w' ∧
    timeline w' = timeline w ∧ clock w' = S (clock w) ∧ window w' = window w.
Proof.
  destruct (LoggerFacts.debug_logged m d w)
    as (w' & Hrun & _ & _ & _ & Hclk & Htl & _ & _ & Hwin).
  by exists w'.
Qed.

Lemma warn_frame m d w :
  ∃ w', Logger.warn m d w = Ok tt w' ∧
    timeline w' = timeline w ∧ clock w' = S (clock w) ∧ window w' = window w.
Proof.
  destruct (LoggerFacts.warn_logged m d w)
    as (w' & Hrun & _ & _ & _ & Hclk & Htl & _ & _ & Hwin).
  by exists w'.
Qed.

Lemma startMeasure_run this name w :
  isSupported this = true ->
  ∃ w1,
    startMeasure this name w =
      Ok {| metrics := metrics this;
            marks := <[name := {| startMark := name +:+ "-start";
                                  startTime := dateNow (window w) (S (clock w)) |}]>
                       (marks this);
            isSupported := isSupported this |} w1 ∧
    timeline w1 = timeline w ++ [mark_at w (name +:+ "-start") (clock w)] ∧
    clock w1 = (clock w + 3)%nat ∧ window w1 = window w.
Proof.
  intros Hsup. unfold startMeasure. rewrite Hsup. cbn [negb].
  unfold try_catch.
  unfold bind at 1. unfold performance_mark at 1.
  unfold bind at 1. unfold date_now at 1. unfold modify at 1.
  unfold bind at 1. unfold date_now at 1.
  cbn [window clock with_clock with_timeline timeline].
  match goal with
  | |- context [bind (Logger.debug ?m ?d) _ ?w0] =>
      destruct (debug_frame m d w0) as (w1 & Hrun & Htl & Hclk & Hwin)
  end.
  rewrite (bind_Ok _ _ _ _ _ Hrun). exists w1. split; [reflexivity|].
  rewrite Htl, Hclk, Hwin. cbn [window clock with_clock with_timeline timeline].
  split_and!; [done|lia|done].
Qed.

Lemma find_mark_snoc name t e :
  pe_kind e = PMark -> pe_name e = name -> find_mark name (t ++ [e]) = Some e.
Proof.
  intros Hk Hn. unfold find_mark. rewrite filter_app, filter_cons.
  rewrite decide_True by done. simpl. apply last_snoc.
Qed.

Lemma find_mark_snoc_other name t e :
  pe_name e ≠ name -> find_mark name (t ++ [e]) = find_mark name t.
Proof.
  intros Hn. unfold find_mark. rewrite filter_app, filter_cons.
  rewrite decide_False by (by intros [_ ?]). simpl. by rewrite app_nil_r.
Qed.

(** Ending a running measure. *)
Lemma endMeasure_run this name w md s :
  isSupported this = true ->
  marks this !! name = Some md ->
  startMark md = name +:+ "-start" ->
  find_mark (name +:+ "-start") (timeline w) = Some s ->
  Forall (fun e => pe_name e ≠ name +:+ "-measure") (timeline w) ->
  ∃ w2,
    endMeasure this name w =
      Ok ({| metrics :=
               <[name := default [] (metrics this !! name) ++
                         [{| duration := dateNow (window w) (clock w) - pe_startTime s;
                             timestamp := dateNow (window w) (S (clock w)) |}]]>
                 (metrics this);
             marks := delete name (marks this);
             isSupported := isSupported this |},
          VNum (dateNow (window w) (clock w) - pe_startTime s)) w2 ∧
    timeline w2 = filter (fun e => ¬ cleared_by name e) (timeline w) ∧
    clock w2 = (clock w + 3)%nat ∧ window w2 = window w.
Proof.
  intros Hsup Hmark Hstart Hfind Hfree. unfold endMeasure.
  rewrite Hsup, Hmark. cbn [negb]. unfold try_catch. rewrite Hstart.
  unfold bind at 1. unfold performance_mark at 1.
  unfold bind at 1. unfold date_now at 1. unfold modify at 1.
  cbn [window clock with_clock with_timeline timeline].
  set (e := {| pe_name := name +:+ "-end"; pe_kind := PMark;
               pe_startTime := dateNow (window w) (clock w); pe_duration := 0 |}).
  unfold bind at 1. unfold performance_measure at 1.
  unfold bind at 1. unfold gets at 1.
  cbn [window clock with_clock with_timeline timeline].
  rewrite (find_mark_snoc_other (name +:+ "-start") (timeline w) e)
    by (simpl; intros H; symmetry in H; by apply suffix_start_end in H).
  rewrite Hfind. rewrite (find_mark_snoc (name +:+ "-end") (timeline w) e) by done.
  unfold modify at 1.
  set (m := {| pe_name := name +:+ "-measure"; pe_kind := PMeasure;
               pe_startTime := pe_startTime s;
               pe_duration := pe_startTime e - pe_startTime s |}).
  unfold bind at 1. unfold performance_getEntriesByName at 1. unfold gets at 1.
  cbn [window clock with_clock with_timeline timeline].
  assert (Hentries : filter (fun x => pe_name x = name +:+ "-measure")
                       ((timeline w ++ [e]) ++ [m]) = [m]).
  { rewrite !filter_app. rewrite (filter_none _ (timeline w)) by exact Hfree.
    rewrite !filter_cons. simpl.
    rewrite decide_False by apply suffix_end_measure.
    by rewrite decide_True. }
  rewrite Hentries. cbn [lookup list_lookup].
  unfold bind at 1. unfold date_now at 1.
  unfold bind at 1. unfold gets at 1.
  cbn [window clock with_clock with_timeline timeline].
  match goal with
  | |- context [bind (Logger.debug ?msg ?d) _ ?w0] =>
      destruct (debug_frame msg d w0) as (w1 & Hrun & Htl & Hclk & Hwin)
  end.
  rewrite (bind_Ok _ _ _ _ _ Hrun).
  unfold bind, performance_clear, modify, ret.
  eexists. split; [reflexivity|].
  cbn [window clock with_clock with_timeline timeline].
  rewrite Htl, Hclk, Hwin. cbn [window clock with_clock with_timeline timeline].
  split_and!; [|lia|done].
  rewrite !list_filter_filter, !filter_app, !filter_cons, !filter_nil.
  rewrite decide_False.
  2:{ intros [[_ H2] _]. apply H2. by split. }
  rewrite decide_False.
  2:{ intros [[H1 _] _]. apply H1. by split. }
  rewrite !app_nil_r. apply list_filter_iff. intros x.
  unfold cleared_by. tauto.
Qed.

(** X10: where the Performance interface is supported and the timeline
    holds no entry called [name-measure], [startMeasure(name)] followed by
    [endMeasure(name)] returns the time between the two marks, records it
    as the latest duration of [name] and of no other name, forgets the
    running measure, and removes from the timeline the marks and the
    measure it made.  A second [endMeasure(name)] then returns [null] and
    records nothing. *)
Theorem measure_round_trip this name w :
  isSupported this = true ->
  Forall (fun e => pe_name e ≠ name +:+ "-measure") (timeline w) ->
  ∃ this1 w1 this2 w2 this3 w3,
    startMeasure this name w = Ok this1 w1 ∧
    endMeasure this1 name w1 =
      Ok (this2, VNum (dateNow (window w) (clock w + 3)
                       - dateNow (window w) (clock w))) w2 ∧
    durations this2 name =
      durations this name ++
      [dateNow (window w) (clock w + 3) - dateNow (window w) (clock w)] ∧
    marks this2 !! name = None ∧
    (∀ other, other ≠ name ->
       durations this2 other = durations this other ∧
       marks this2 !! other = marks this !! other) ∧
    timeline w2 = filter (fun e => ¬ cleared_by name e) (timeline w) ∧
    endMeasure this2 name w2 = Ok (this3, VNull) w3 ∧
    this3 = this2.
Proof.
  intros Hsup Hfree.
  destruct (startMeasure_run this name w Hsup) as (w1 & Hstart & Htl1 & Hclk1 & Hwin1).
  set (this1 := {| metrics := metrics this; marks := _; isSupported := _ |}) in *.
  destruct (endMeasure_run this1 name w1
              {| startMark := name +:+ "-start";
                 startTime := dateNow (window w) (S (clock w)) |}
              (mark_at w (name +:+ "-start") (clock w)))
    as (w2 & Hend & Htl2 & Hclk2 & Hwin2); try done.
  { unfold this1. simpl. by rewrite lookup_insert_eq. }
  { rewrite Htl1. by apply find_mark_snoc. }
  { rewrite Htl1. apply Forall_app. split; [exact Hfree|].
    repeat constructor. simpl. apply suffix_start_measure. }
  set (this2 := {| metrics := <[name := _]> (metrics this1); marks := _;
                   isSupported := _ |}) in *.
  assert (Hnone : marks this2 !! name = None).
  { unfold this2. simpl. by rewrite lookup_delete_eq. }
  assert (Hsecond : ∃ w3, endMeasure this2 name w2 = Ok (this2, VNull) w3).
  { unfold endMeasure. change (isSupported this2) with (isSupported this).
    rewrite Hsup, Hnone. cbn [negb]. unfold try_catch.
    destruct (warn_frame ("No start mark found for: " +:+ name) VUndefined w2)
      as (w3 & Hrun & _).
    rewrite (bind_Ok _ _ _ _ _ Hrun). by exists w3. }
  destruct Hsecond as (w3 & Hsecond).
  exists this1, w1, this2, w2, this2, w3.
  rewrite Hwin1, Hclk1 in Hend. cbn [mark_at pe_startTime] in Hend.
  split; [exact Hstart|]. split; [exact Hend|]. split_and!; try done.
  - unfold durations, this2, this1. simpl. rewrite lookup_insert_eq. simpl.
    by rewrite map_app, Hwin1, Hclk1.
  - intros other Hother. unfold durations, this2, this1. simpl.
    rewrite lookup_insert_ne by done.
    rewrite lookup_delete_ne, lookup_insert_ne by done. done.
  - rewrite Htl2, Htl1, filter_app, filter_cons.
    rewrite decide_False; [by rewrite app_nil_r|].
    intros H. apply H. left. by split.
Qed.

(** *** Clearing *)

(** X11: [clear()] never throws; it forgets every recorded duration and
    every running measure and, where the Performance interface is
    supported, empties the timeline of marks and measures.  After it,
    [endMeasure] returns [null] for every name. *)
Theorem clear_forgets_everything this w (name : string) :
  ∃ this' w' this'' w'',
    clear this w = Ok this' w' ∧
    durations this' name = [] ∧
    marks this' !! name = None ∧
    isSupported this' = isSupported this ∧
    timeline w' = (if isSupported this
                   then filter (fun e => pe_kind e ≠ PMeasure ∧ pe_kind e ≠ PMark)
                          (timeline w)
                   else timeline w) ∧
    endMeasure this' name w' = Ok (this'', VNull) w'' ∧ this'' = this'.
Proof.
  unfold clear.
  set (this' := {| metrics := ∅; marks := ∅; isSupported := isSupported this |}).
  assert (Hfirst : ∃ w0,
            (if isSupported this'
             then do! performance_clear_all PMark in performance_clear_all PMeasure
             else ret tt) w = Ok tt w0 ∧
            timeline w0 = (if isSupported this
                           then filter (fun e => pe_kind e ≠ PMeasure ∧ pe_kind e ≠ PMark)
                                  (timeline w)
                           else timeline w)).
  { unfold this'. simpl. destruct (isSupported this).
    - eexists. split; [reflexivity|]. simpl. apply list_filter_filter.
    - by exists w. }
  destruct Hfirst as (w0 & Hfirst & Htl0).
  rewrite (bind_Ok _ _ _ _ _ Hfirst).
  destruct (debug_frame "Performance metrics cleared" VUndefined w0)
    as (w' & Hrun & Htl & _).
  rewrite (bind_Ok _ _ _ _ _ Hrun).
  assert (Hend : ∃ w'', endMeasure this' name w' = Ok (this', VNull) w'').
  { unfold endMeasure. destruct (isSupported this'); cbn [negb]; [|by exists w'].
    unfold try_catch. change (marks this' !! name) with (@None MarkData).
    destruct (warn_frame ("No start mark found for: " +:+ name) VUndefined w')
      as (w'' & Hwarn & _).
    rewrite (bind_Ok _ _ _ _ _ Hwarn). by exists w''. }
  destruct Hend as (w'' & Hend).
  exists this', w', this', w''. split; [reflexivity|].
  split_and!; try done. by rewrite Htl, Htl0.
Qed.

End PerformanceMonitorExtras.

(** ** Class lists and selectors *)

Module DomFacts.
Import Navigation Dom.

Lemma length_set_classes f i doc : length (set_classes f i doc) = length doc.
Proof. apply (length_alter _ doc). Qed.

Lemma skeleton_set_classes f i doc : skeleton (set_classes f i doc) = skeleton doc.
Proof.
  unfold skeleton, set_classes. apply list_eq. intros j.
  rewrite !list_lookup_fmap.
  destruct (decide (i = j)) as [->|Hne].
  - rewrite (list_lookup_alter_eq _ doc). by destruct (_ !! j).
  - by rewrite (list_lookup_alter_ne _ doc).
Qed.

Lemma has_class_set_classes f i doc j c :
  has_class (set_classes f i doc) j c =
  if decide (i = j)
  then match doc !! j with
       | Some el => bool_decide (c ∈ f (classList el))
       | None => false
       end
  else has_class doc j c.
Proof.
  unfold has_class, set_classes. case_decide as Hd.
  - subst. rewrite (list_lookup_alter_eq _ doc). by destruct (_ !! j).
  - by rewrite (list_lookup_alter_ne _ doc).
Qed.

Lemma elem_of_token_add c d cl : d ∈ token_add c cl ↔ d ∈ cl ∨ d = c.
Proof.
  unfold token_add. case_bool_decide.
  - split; [by left|]. intros [?| ->]; done.
  - rewrite elem_of_app, list_elem_of_singleton. done.
Qed.

Lemma elem_of_token_remove c d cl : d ∈ token_remove c cl ↔ d ∈ cl ∧ d ≠ c.
Proof. unfold token_remove. rewrite list_elem_of_filter. tauto. Qed.

Lemma length_add_class e c doc : length (add_class e c doc) = length doc.
Proof. destruct e; [apply length_set_classes|done]. Qed.

Lemma length_remove_class e c doc : length (remove_class e c doc) = length doc.
Proof. destruct e; [apply length_set_classes|done]. Qed.

Lemma skeleton_add_class e c doc : skeleton (add_class e c doc) = skeleton doc.
Proof. destruct e; [apply skeleton_set_classes|done]. Qed.

Lemma skeleton_remove_class e c doc : skeleton (remove_class e c doc) = skeleton doc.
Proof. destruct e; [apply skeleton_set_classes|done]. Qed.

(** An element has a class after [classList.add] when it had it, or when
    it is the element and the class added. *)
Lemma has_class_add e c doc j d :
  has_class (add_class e c doc) j d =
  has_class doc j d
  || bool_decide (e = Some j ∧ c = d ∧ (j < length doc)%nat).
Proof.
  destruct e as [i|]; cbn [add_class].
  2:{ rewrite bool_decide_eq_false_2 by (by intros [? _]). by rewrite orb_false_r. }
  rewrite has_class_set_classes. case_decide as Hd.
  - subst i. unfold has_class. destruct (doc !! j) as [el|] eqn:Hj.
    + apply lookup_lt_Some in Hj as Hlt.
      rewrite <- bool_decide_or. apply bool_decide_ext.
      rewrite elem_of_token_add.
      split; [intros [?| ->]; [by left|by right]
             |intros [?|(_ & -> & _)]; [by left|by right]].
    + apply lookup_ge_None in Hj. simpl. symmetry.
      apply bool_decide_eq_false_2. intros (_ & _ & ?). lia.
  - rewrite bool_decide_eq_false_2 by (intros [[=] _]; done).
    by rewrite orb_false_r.
Qed.

(** An element has a class after [classList.remove] when it had it and
    is not the element the class was removed from. *)
Lemma has_class_remove e c doc j d :
  has_class (remove_class e c doc) j d =
  has_class doc j d && negb (bool_decide (e = Some j ∧ c = d)).
Proof.
  destruct e as [i|]; cbn [remove_class].
  2:{ rewrite bool_decide_eq_false_2 by (by intros [? _]). by rewrite andb_true_r. }
  rewrite has_class_set_classes. case_decide as Hd.
  - subst i. unfold has_class. destruct (doc !! j) as [el|] eqn:Hj; [|done].
    destruct (decide (c = d)) as [->|Hne].
    + rewrite (bool_decide_eq_true_2 (Some j = Some j ∧ d = d)) by done.
      rewrite andb_false_r. apply bool_decide_eq_false_2.
      rewrite elem_of_token_remove. by intros [_ ?].
    + rewrite (bool_decide_eq_false_2 (Some j = Some j ∧ c = d))
        by (by intros [_ ?]).
      rewrite andb_true_r. apply bool_decide_ext.
      rewrite elem_of_token_remove.
      split; [by intros [? _]|]. intros ?. split; [done|congruence].
  - rewrite bool_decide_eq_false_2 by (intros [[=] _]; done).
    by rewrite andb_true_r.
Qed.

(** *** Selectors depend on the classes they name only *)

Lemma skeleton_lookup doc doc' i :
  skeleton doc = skeleton doc' ->
  (fun el => (tagName el, parent el)) <$> doc !! i =
  (fun el => (tagName el, parent el)) <$> doc' !! i.
Proof.
  intros Hs. unfold skeleton in Hs.
  apply (f_equal (fun l => l !! i)) in Hs.
  by rewrite !list_lookup_fmap in Hs.
Qed.

Lemma skeleton_length doc doc' :
  skeleton doc = skeleton doc' -> length doc = length doc'.
Proof.
  intros Hs. apply (f_equal length) in Hs. unfold skeleton in Hs.
  by rewrite !length_fmap in Hs.
Qed.

Lemma count_parent (p : option nat) (l : list Element) :
  length (filter (fun sib => parent sib = p) l) =
  length (filter (fun q => q.2 = p) (skeleton l)).
Proof.
  induction l as [|x l IH]; [done|].
  unfold skeleton in *. simpl. rewrite !filter_cons. simpl.
  case_decide; simpl; by rewrite IH.
Qed.

Lemma child_index_skeleton doc doc' i :
  skeleton doc = skeleton doc' -> child_index doc i = child_index doc' i.
Proof.
  intros Hs. unfold child_index.
  pose proof (skeleton_lookup doc doc' i Hs) as Hi.
  destruct (doc !! i) as [el|], (doc' !! i) as [el'|]; simpl in Hi; try done.
  injection Hi as Ht Hp. f_equal. rewrite !count_parent, Hp.
  unfold skeleton in *. by rewrite !fmap_take, Hs.
Qed.

Lemma is_project_skeleton doc doc' container i :
  skeleton doc = skeleton doc' ->
  (∀ p, has_class doc' p container = has_class doc p container) ->
  Page.is_project doc' container i = Page.is_project doc container i.
Proof.
  intros Hs Hc. unfold Page.is_project.
  pose proof (skeleton_lookup doc doc' i Hs) as Hi.
  destruct (doc !! i) as [el|], (doc' !! i) as [el'|]; simpl in Hi; try done.
  injection Hi as Ht Hp. rewrite Ht, Hp.
  destruct (parent el'); [by rewrite Hc|done].
Qed.

Lemma matches_nth doc container n i :
  Navigation.matches doc (NthChildArticle container n) i =
  Page.is_project doc container i && bool_decide (Z.of_nat (child_index doc i) = n).
Proof.
  unfold Page.is_project. simpl. by destruct (doc !! i).
Qed.

Lemma matches_article doc container c i :
  Dom.matches doc (ArticleWithClass container c) i =
  Page.is_project doc container i && has_class doc i c.
Proof.
  unfold Page.is_project. simpl. destruct (doc !! i) eqn:Hi; [done|].
  unfold has_class. by rewrite Hi.
Qed.

(** Class changes that do not touch the container class leave the
    position selectors with the same matches. *)
Lemma matches_nth_stable doc doc' container n i :
  skeleton doc = skeleton doc' ->
  (∀ p, has_class doc' p container = has_class doc p container) ->
  Navigation.matches doc' (NthChildArticle container n) i =
  Navigation.matches doc (NthChildArticle container n) i.
Proof.
  intros Hs Hc. rewrite !matches_nth.
  by rewrite (is_project_skeleton doc doc'), (child_index_skeleton doc doc').
Qed.

Lemma querySelector_ext doc doc' sel sel' :
  length doc = length doc' ->
  (∀ i, Navigation.matches doc' sel' i = Navigation.matches doc sel i) ->
  Navigation.querySelector doc' sel' = Navigation.querySelector doc sel.
Proof.
  intros Hlen Hm. unfold Navigation.querySelector. rewrite <- Hlen. f_equal.
  apply list_filter_iff. intros i. by rewrite Hm.
Qed.

Lemma querySelector_nth_stable doc doc' container n :
  skeleton doc = skeleton doc' ->
  (∀ p, has_class doc' p container = has_class doc p container) ->
  Navigation.querySelector doc' (NthChildArticle container n) =
  Navigation.querySelector doc (NthChildArticle container n).
Proof.
  intros Hs Hc. apply querySelector_ext; [by apply skeleton_length|].
  intros i. by apply matches_nth_stable.
Qed.

(** What [querySelector] finds is an element of the document that
    matches, and the first one. *)
Lemma querySelector_Some doc sel i :
  Navigation.querySelector doc sel = Some i ->
  (i < length doc)%nat ∧ Navigation.matches doc sel i = true ∧
  ∀ j, (j < i)%nat -> Navigation.matches doc sel j = false.
Proof.
  unfold Navigation.querySelector. intros Hh.
  assert (Hm : Navigation.matches doc sel i = true).
  { destruct (filter (fun i => Navigation.matches doc sel i = true)
                (seq 0 (length doc))) as [|x l] eqn:Hf; [done|].
    injection Hh as ->.
    assert (Hin : i ∈ filter (fun i => Navigation.matches doc sel i = true)
                    (seq 0 (length doc))) by (rewrite Hf; by left).
    by apply list_elem_of_filter in Hin as [? _]. }
  apply head_filter_Some in Hh as (l1 & l2 & Hseq & Hbefore).
  assert (Hi : seq 0 (length doc) !! length l1 = Some i).
  { rewrite Hseq. by rewrite list_lookup_middle. }
  apply lookup_seq in Hi as [Hi Hlt]. simpl in Hi. subst i.
  split; [done|]. split; [done|].
  intros j Hj.
  assert (Hjl : l1 !! j = Some j).
  { assert (Hs : seq 0 (length doc) !! j = Some j)
      by (apply lookup_seq; split; [done|lia]).
    rewrite Hseq, lookup_app_l in Hs by done. exact Hs. }
  apply list_elem_of_lookup_2 in Hjl.
  rewrite Forall_forall in Hbefore. specialize (Hbefore j Hjl).
  by destruct (Navigation.matches doc sel j).
Qed.

Lemma querySelector_first doc sel i :
  (i < length doc)%nat -> Navigation.matches doc sel i = true ->
  (∀ j, (j < i)%nat -> Navigation.matches doc sel j = false) ->
  Navigation.querySelector doc sel = Some i.
Proof.
  intros Hi Hm Hfirst.
  destruct (Navigation.querySelector doc sel) as [k|] eqn:Hq.
  - apply querySelector_Some in Hq as (Hk & Hmk & Hkfirst).
    destruct (decide (k = i)) as [->|Hne]; [done|].
    destruct (decide (k < i)%nat).
    + rewrite Hfirst in Hmk by done. done.
    + rewrite Hkfirst in Hm by lia. done.
  - unfold Navigation.querySelector in Hq. apply head_None in Hq.
    assert (Hin : i ∈ filter (fun i => Navigation.matches doc sel i = true)
                       (seq 0 (length doc))).
    { apply list_elem_of_filter. split; [done|]. apply elem_of_seq. lia. }
    rewrite Hq in Hin. by apply elem_of_nil in Hin.
Qed.

(** *** Boolean goals about classes *)

Ltac bool_to_prop :=
  repeat (progress
            (rewrite ?andb_true_iff, ?orb_true_iff, ?negb_true_iff,
               ?andb_false_iff, ?orb_false_iff, ?negb_false_iff,
               ?bool_decide_eq_true, ?bool_decide_eq_false)).

Ltac class_goal :=
  bool_to_prop;
  intuition (try congruence; try discriminate; try lia).

(** *** The audio manager *)

Lemma requested_click_paper a :
  requested (playPaper (playClick a)) =
  requested a ++
  [if isMobile a then "CLICK_MOBILE" else "CLICK";
   if isMobile a then "PAPER_MOBILE" else "PAPER"].
Proof.
  unfold playPaper, playClick, playSound. simpl. by rewrite <- app_assoc.
Qed.

End DomFacts.

(** ** The helpers of [js/utils.js] and the page transitions *)

Module PageFacts.
Import Navigation Dom DomFacts Page.

(** *** The helpers *)

(** The class names of the configuration are valid tokens: with them
    [addClass] and [removeClass] never take their [catch] branch. *)
Lemma valid_classes :
  Forall (fun c => valid_token c = true)
    [CONFIG.ACTIVE; CONFIG.TO_TOP; CONFIG.TO_BOTTOM; CONFIG.OPACITY_0;
     CONFIG.NOT_ACTIVE_LAYER; CONFIG.ACTIVE_LAYER].
Proof. repeat constructor. Qed.

Lemma document_addClass e c w :
  valid_token c = true ->
  document (addClass e c w) = add_class e c (document w).
Proof. intros Hv. unfold addClass. by destruct e; rewrite ?Hv. Qed.

Lemma document_removeClass e c w :
  valid_token c = true ->
  document (removeClass e c w) = remove_class e c (document w).
Proof. intros Hv. unfold removeClass. by destruct e; rewrite ?Hv. Qed.

Lemma same_but_document_refl w : same_but_document w w.
Proof. by unfold same_but_document. Qed.

Lemma same_but_document_trans w1 w2 w3 :
  same_but_document w1 w2 -> same_but_document w2 w3 -> same_but_document w1 w3.
Proof. unfold same_but_document. intuition congruence. Qed.

Lemma rest_addClass e c w :
  valid_token c = true -> same_but_document w (addClass e c w).
Proof. intros Hv. unfold addClass. by destruct e; rewrite ?Hv. Qed.

Lemma rest_removeClass e c w :
  valid_token c = true -> same_but_document w (removeClass e c w).
Proof. intros Hv. unfold removeClass. by destruct e; rewrite ?Hv. Qed.

Lemma has_class_addClass e c w j d :
  valid_token c = true ->
  has_class (document (addClass e c w)) j d =
  has_class (document w) j d
  || bool_decide (e = Some j ∧ c = d ∧ (j < length (document w))%nat).
Proof. intros Hv. by rewrite document_addClass, has_class_add. Qed.

Lemma has_class_removeClass e c w j d :
  valid_token c = true ->
  has_class (document (removeClass e c w)) j d =
  has_class (document w) j d && negb (bool_decide (e = Some j ∧ c = d)).
Proof. intros Hv. by rewrite document_removeClass, has_class_remove. Qed.

Lemma length_addClass e c w :
  length (document (addClass e c w)) = length (document w).
Proof.
  unfold addClass. destruct e; [|done]. destruct (valid_token c); [|done].
  apply length_set_classes.
Qed.

Lemma length_removeClass e c w :
  length (document (removeClass e c w)) = length (document w).
Proof.
  unfold removeClass. destruct e; [|done]. destruct (valid_token c); [|done].
  apply length_set_classes.
Qed.

Lemma skeleton_addClass e c w :
  skeleton (document (addClass e c w)) = skeleton (document w).
Proof.
  unfold addClass. destruct e; [|done]. destruct (valid_token c); [|done].
  apply skeleton_set_classes.
Qed.

Lemma skeleton_removeClass e c w :
  skeleton (document (removeClass e c w)) = skeleton (document w).
Proof.
  unfold removeClass. destruct e; [|done]. destruct (valid_token c); [|done].
  apply skeleton_set_classes.
Qed.

(** *** Selectors on the page *)

Lemma elem_of_querySelectorAll doc sel j :
  j ∈ querySelectorAll doc sel ↔ (j < length doc)%nat ∧ Dom.matches doc sel j = true.
Proof.
  unfold querySelectorAll. rewrite list_elem_of_filter, elem_of_seq. intuition lia.
Qed.

Lemma querySelector_simple doc sel :
  Dom.querySelector doc (Simple sel) = Navigation.querySelector doc sel.
Proof. done. Qed.

Lemma matches_class doc c i :
  Navigation.matches doc (ClassSelector c) i = has_class doc i c.
Proof. done. Qed.

Lemma querySelector_class_stable doc doc' c :
  length doc = length doc' ->
  (∀ i, has_class doc' i c = has_class doc i c) ->
  Navigation.querySelector doc' (ClassSelector c) =
  Navigation.querySelector doc (ClassSelector c).
Proof. intros Hlen Hc. by apply querySelector_ext. Qed.

Lemma safeQuerySelector_lt w sel i :
  safeQuerySelector w (Simple sel) = Some i -> (i < length (document w))%nat.
Proof.
  unfold safeQuerySelector. rewrite querySelector_simple. intros Hq.
  by apply querySelector_Some in Hq as (? & _).
Qed.

(** *** The layers *)

Lemma has_class_switchLayers_other n a reverse w j d :
  d ∉ layer_classes ->
  has_class (document (switchLayers n a reverse w)) j d = has_class (document w) j d.
Proof.
  intros Hd. unfold layer_classes in Hd.
  rewrite !not_elem_of_cons in Hd. destruct Hd as (H1 & H2 & H3 & _).
  unfold switchLayers. destruct n as [n|], a as [a|]; try done.
  destruct reverse.
  all: repeat first [rewrite has_class_removeClass by done
                    |rewrite has_class_addClass by done].
  all: rewrite !(bool_decide_eq_false_2 (_ ∧ CONFIG.NOT_ACTIVE_LAYER = d))
         by (intros [_ ?]; congruence).
  all: rewrite !(bool_decide_eq_false_2 (_ ∧ CONFIG.ACTIVE_LAYER = d))
         by (intros [_ ?]; congruence).
  all: rewrite ?(bool_decide_eq_false_2 (_ ∧ CONFIG.OPACITY_0 = d))
         by (intros [_ ?]; congruence).
  all: rewrite ?(bool_decide_eq_false_2 (_ ∧ CONFIG.NOT_ACTIVE_LAYER = d ∧ _))
         by (intros (_ & ? & _); congruence).
  all: rewrite ?(bool_decide_eq_false_2 (_ ∧ CONFIG.ACTIVE_LAYER = d ∧ _))
         by (intros (_ & ? & _); congruence).
  all: rewrite ?(bool_decide_eq_false_2 (_ ∧ CONFIG.OPACITY_0 = d ∧ _))
         by (intros (_ & ? & _); congruence).
  all: cbn [negb]; by rewrite ?andb_true_r, ?orb_false_r.
Qed.

Lemma length_switchLayers n a reverse w :
  length (document (switchLayers n a reverse w)) = length (document w).
Proof.
  unfold switchLayers. destruct n, a; try done. destruct reverse.
  all: by rewrite ?length_removeClass, ?length_addClass, ?length_removeClass,
         ?length_addClass, ?length_removeClass, ?length_addClass.
Qed.

Lemma skeleton_switchLayers n a reverse w :
  skeleton (document (switchLayers n a reverse w)) = skeleton (document w).
Proof.
  unfold switchLayers. destruct n, a; try done. destruct reverse.
  all: by rewrite ?skeleton_removeClass, ?skeleton_addClass, ?skeleton_removeClass,
         ?skeleton_addClass, ?skeleton_removeClass, ?skeleton_addClass.
Qed.

Lemma rest_switchLayers n a reverse w :
  same_but_document w (switchLayers n a reverse w).
Proof.
  unfold switchLayers. destruct n, a; try apply same_but_document_refl.
  destruct reverse.
  all: repeat (eapply same_but_document_trans;
               [|first [apply rest_removeClass | apply rest_addClass]; done]).
  all: apply same_but_document_refl.
Qed.

Lemma has_class_lt doc j d : has_class doc j d = true -> (j < length doc)%nat.
Proof.
  unfold has_class. destruct (_ !! j) eqn:Hj; [|done].
  intros _. by eapply lookup_lt_Some.
Qed.

(** *** Projects *)

Lemma has_class_removeClass_each l c w j d :
  valid_token c = true ->
  has_class (document (removeClass_each l c w)) j d =
  has_class (document w) j d && negb (bool_decide (j ∈ l ∧ c = d)).
Proof.
  intros Hv. unfold removeClass_each. revert w.
  induction l as [|x l IH]; intros w.
  - cbn [foldl]. rewrite bool_decide_eq_false_2; [by rewrite andb_true_r|].
    intros [Hin _]. by apply elem_of_nil in Hin.
  - cbn [foldl]. rewrite IH, has_class_removeClass by done.
    rewrite <- andb_assoc. f_equal. rewrite <- negb_orb. f_equal.
    rewrite <- bool_decide_or. apply bool_decide_ext.
    rewrite elem_of_cons. split.
    + intros [([= ->] & ?)|[? ?]]; (split; [|done]); [by left|by right].
    + intros [[->|?] ?]; [left|right]; done.
Qed.

Lemma length_removeClass_each l c w :
  length (document (removeClass_each l c w)) = length (document w).
Proof.
  unfold removeClass_each. revert w. induction l as [|x l IH]; intros w; [done|].
  cbn [foldl]. by rewrite IH, length_removeClass.
Qed.

Lemma skeleton_removeClass_each l c w :
  skeleton (document (removeClass_each l c w)) = skeleton (document w).
Proof.
  unfold removeClass_each. revert w. induction l as [|x l IH]; intros w; [done|].
  cbn [foldl]. by rewrite IH, skeleton_removeClass.
Qed.

Lemma rest_removeClass_each l c w :
  valid_token c = true -> same_but_document w (removeClass_each l c w).
Proof.
  intros Hv. unfold removeClass_each. revert w.
  induction l as [|x l IH]; intros w; [apply same_but_document_refl|].
  cbn [foldl]. eapply same_but_document_trans; [|apply IH]. by apply rest_removeClass.
Qed.

(** [deactivateAllProjects] takes [to-top] and [to-bottom] from every
    project, and [active] from the first active project only. *)
Lemma has_class_deactivateAllProjects w j d :
  has_class (document (deactivateAllProjects w)) j d =
  has_class (document w) j d
  && negb (bool_decide
             (safeQuerySelector w
                (ArticleWithClass CONFIG.PORTFOLIO_ITEMS CONFIG.ACTIVE) = Some j
              ∧ CONFIG.ACTIVE = d))
  && negb (bool_decide
             (is_project (document w) CONFIG.PORTFOLIO_ITEMS j = true
              ∧ (d = CONFIG.TO_TOP ∨ d = CONFIG.TO_BOTTOM))).
Proof.
  unfold deactivateAllProjects.
  rewrite !has_class_removeClass_each, has_class_removeClass by done.
  apply eq_true_iff_eq.
  rewrite !andb_true_iff, !negb_true_iff, !bool_decide_eq_false.
  rewrite !elem_of_querySelectorAll, !matches_article, !andb_true_iff.
  split.
  - intros (((Hh & Ha) & Ht) & Hb). split; [by split|].
    intros [Hp [->| ->]].
    + apply Ht. split; [|done]. split; [by eapply has_class_lt|done].
    + apply Hb. split; [|done]. split; [by eapply has_class_lt|done].
  - intros ((Hh & Ha) & Hp). split; [split; [by split|]|].
    + intros [(_ & Hproj & _) <-]. apply Hp. split; [done|by left].
    + intros [(_ & Hproj & _) <-]. apply Hp. split; [done|by right].
Qed.

Lemma length_deactivateAllProjects w :
  length (document (deactivateAllProjects w)) = length (document w).
Proof.
  unfold deactivateAllProjects.
  by rewrite !length_removeClass_each, length_removeClass.
Qed.

Lemma skeleton_deactivateAllProjects w :
  skeleton (document (deactivateAllProjects w)) = skeleton (document w).
Proof.
  unfold deactivateAllProjects.
  by rewrite !skeleton_removeClass_each, skeleton_removeClass.
Qed.

Lemma rest_deactivateAllProjects w :
  same_but_document w (deactivateAllProjects w).
Proof.
  unfold deactivateAllProjects.
  eapply same_but_document_trans; [|by apply rest_removeClass_each].
  eapply same_but_document_trans; [|by apply rest_removeClass_each].
  by apply rest_removeClass.
Qed.

Lemma has_class_activateProject index w j d :
  has_class (document (activateProject index w)) j d =
  has_class (document w) j d
  || bool_decide
       (safeQuerySelector w (Simple (NthChildArticle CONFIG.PORTFOLIO_ITEMS index))
        = Some j ∧ CONFIG.ACTIVE = d ∧ (j < length (document w))%nat)
  || bool_decide
       (safeQuerySelector w
          (Simple (NthChildArticle CONFIG.PORTFOLIO_ITEMS (index - 1)))
        = Some j ∧ CONFIG.TO_BOTTOM = d ∧ (j < length (document w))%nat)
  || bool_decide
       (safeQuerySelector w
          (Simple (NthChildArticle CONFIG.PORTFOLIO_ITEMS (index + 1)))
        = Some j ∧ CONFIG.TO_TOP = d ∧ (j < length (document w))%nat).
Proof.
  unfold activateProject.
  rewrite !has_class_addClass by done. by rewrite !length_addClass.
Qed.

Lemma length_activateProject index w :
  length (document (activateProject index w)) = length (document w).
Proof. unfold activateProject. by rewrite !length_addClass. Qed.

Lemma skeleton_activateProject index w :
  skeleton (document (activateProject index w)) = skeleton (document w).
Proof. unfold activateProject. by rewrite !skeleton_addClass. Qed.

Lemma rest_activateProject index w :
  same_but_document w (activateProject index w).
Proof.
  unfold activateProject.
  repeat (eapply same_but_document_trans; [|by apply rest_addClass]).
  apply same_but_document_refl.
Qed.

(** *** Delayed callbacks *)

Ltac chain_rest :=
  repeat (eapply same_but_document_trans;
          [|first [by apply rest_removeClass | by apply rest_addClass
                  |apply rest_switchLayers | apply rest_deactivateAllProjects
                  |apply rest_activateProject]]);
  apply same_but_document_refl.

(** A callback changes the document, and besides it only what the paper
    sound and the scroll reset change. *)
Lemma run_task_eta cb w :
  run_task cb w =
  {| document := document (run_task cb w);
     scrollTop := match cb with
                  | PlayPaperAndScroll (Some g) => <[g := 0]> (scrollTop w)
                  | ScrollContentContainer =>
                      scrollTop (scrollContentContainer w)
                  | _ => scrollTop w
                  end;
     timers := timers w;
     now := now w;
     audioManager := match cb with
                     | PlayPaper | PlayPaperAndScroll _ => playPaper (audioManager w)
                     | PlayPaperAboutDown => playPaperAboutDown (audioManager w)
                     | _ => audioManager w
                     end;
     errors := errors w |}.
Proof.
  assert (Heta : ∀ w', same_but_document w w' ->
            w' = {| document := document w'; scrollTop := scrollTop w;
                    timers := timers w; now := now w;
                    audioManager := audioManager w; errors := errors w |}).
  { intros [D S T N A E] (HS & HT & HN & HA & HE). simpl in *. by subst. }
  destruct cb as [h|g|n a r| |g n a|h|g|g|i|g|o c|c| |o|c| |cur dir|tgt]; cbn [run_task].
  all: try (apply Heta; chain_rest).
  all: try (destruct dir; apply Heta; chain_rest).
  - done.
  - by destruct g.
  - done.
  - destruct w. unfold scrollContentContainer. cbn [document]. by case_match.
Qed.

Lemma length_run_task cb w :
  length (document (run_task cb w)) = length (document w).
Proof.
  destruct cb as [h|g|n a r| |g n a|h|g|g|i|g|o c|c| |o|c| |cur dir|tgt]; cbn [run_task].
  all: try by destruct g.
  all: try by (unfold scrollContentContainer; case_match).
  all: by rewrite ?length_deactivateAllProjects, ?length_activateProject,
         ?length_switchLayers, ?length_removeClass, ?length_addClass,
         ?length_removeClass, ?length_addClass.
Qed.

Lemma skeleton_run_task cb w :
  skeleton (document (run_task cb w)) = skeleton (document w).
Proof.
  destruct cb as [h|g|n a r| |g n a|h|g|g|i|g|o c|c| |o|c| |cur dir|tgt]; cbn [run_task].
  all: try by destruct g.
  all: try by (unfold scrollContentContainer; case_match).
  all: by rewrite ?skeleton_deactivateAllProjects, ?skeleton_activateProject,
         ?skeleton_switchLayers, ?skeleton_removeClass, ?skeleton_addClass,
         ?skeleton_removeClass, ?skeleton_addClass.
Qed.

Lemma fire_step D S T N A E j t cb :
  earliest (map due T) = Some j -> T !! j = Some t -> task t = Some cb ->
  fire_next {| document := D; scrollTop := S; timers := T; now := N;
               audioManager := A; errors := E |} =
  {| document :=
       document (run_task cb
                   {| document := D; scrollTop := S; timers := delete j T;
                      now := Z.max N (due t); audioManager := A; errors := E |});
     scrollTop := match cb with
                  | PlayPaperAndScroll (Some g) => <[g := 0]> S
                  | ScrollContentContainer =>
                      match querySelector D
                              (Simple (ClassSelector "content-container")) with
                      | Some container => <[container := 0]> S
                      | None => S
                      end
                  | _ => S
                  end;
     timers := delete j T;
     now := Z.max N (due t);
     audioManager := match cb with
                     | PlayPaper | PlayPaperAndScroll _ => playPaper A
                     | PlayPaperAboutDown => playPaperAboutDown A
                     | _ => A
                     end;
     errors := E |}.
Proof.
  intros Hnext Ht Hcb. unfold fire_next. cbn [timers]. rewrite Hnext, Ht, Hcb.
  cbn [document scrollTop now audioManager errors].
  rewrite run_task_eta at 1. destruct cb; try done.
  unfold scrollContentContainer. cbn [document scrollTop]. by case_match.
Qed.

Ltac unfold_delays :=
  unfold CONFIG.TRANSITION_DELAY, CONFIG.LAYER_SWITCH_DELAY,
    CONFIG.LAYER_OPACITY_DELAY, CONFIG.PAPER_SOUND_DELAY,
    HOME_ACTIVATION_DELAY in *.

Ltac compute_next :=
  cbn [earliest map due lookup list_lookup];
  repeat (first [rewrite bool_decide_eq_true_2 by lia
                |rewrite bool_decide_eq_false_2 by lia];
          cbn [earliest map due lookup list_lookup]);
  reflexivity.

Ltac fire :=
  erewrite fire_step; [|compute_next|reflexivity|reflexivity];
  cbn [delete list_delete task due].

Ltac class_rewrite :=
  repeat (cbn [document run_task with_audioManager playPaperAndScroll reset_scroll];
          first [rewrite has_class_removeClass by done
                |rewrite has_class_addClass by done
                |rewrite has_class_switchLayers_other
                   by (apply (bool_decide_unpack _); vm_compute; exact I)
                |rewrite has_class_deactivateAllProjects
                |rewrite has_class_activateProject
                |rewrite length_removeClass
                |rewrite length_addClass
                |rewrite length_switchLayers
                |rewrite length_deactivateAllProjects
                |rewrite length_activateProject]).

(** X14: [openPortfolio()], the home and grid regions being two elements
    and no other timer pending.  Once its four timers have fired, none
    is left; the grid carries [active] and not [to-bottom], the home
    region has lost [active] and carries [to-top]; nothing was reported
    as an error, and the audio manager was asked for the click and then
    for the paper sound. *)
Theorem openPortfolio_completes w home grid :
  timers w = [] ->
  safeQuerySelector w (Simple (ClassSelector HOME)) = Some home ->
  safeQuerySelector w (Simple (ClassSelector PORTFOLIO_GRID)) = Some grid ->
  home ≠ grid ->
  let w' := fire_next (fire_next (fire_next (fire_next (openPortfolio w)))) in
  timers w' = [] ∧
  has_class (document w') grid CONFIG.ACTIVE = true ∧
  has_class (document w') grid CONFIG.TO_BOTTOM = false ∧
  has_class (document w') home CONFIG.ACTIVE = false ∧
  has_class (document w') home CONFIG.TO_TOP = true ∧
  errors w' = errors w ∧
  requested (audioManager w') =
    requested (audioManager w) ++
    [if isMobile (audioManager w) then "CLICK_MOBILE" else "CLICK";
     if isMobile (audioManager w) then "PAPER_MOBILE" else "PAPER"].
Proof.
  intros Hidle Hhome Hgrid Hne w'.
  assert (Hh : (home < length (document w))%nat)
    by (by apply safeQuerySelector_lt in Hhome).
  assert (Hg : (grid < length (document w))%nat)
    by (by apply safeQuerySelector_lt in Hgrid).
  subst w'. unfold openPortfolio, delayExecution, with_timers, with_audioManager.
  cbn [document scrollTop timers now audioManager errors].
  unfold safeQuerySelector in *. cbn [document]. rewrite Hhome, Hgrid, Hidle.
  cbn [app]. unfold_delays.
  do 4 fire.
  cbn [timers audioManager errors].
  split_and!; [done|..|done|apply requested_click_paper].
  all: class_rewrite; class_goal.
Qed.

(** X15: [backToHome()], the home and grid regions being two elements
    and no other timer pending.  Once its three timers have fired, none
    is left; the home region carries [active], the grid has lost
    [active], carries [to-bottom] and is scrolled to the top.  The class
    [to-top] that [openPortfolio] gave the home region is not taken
    back: the home region carries it after if and only if it did
    before. *)
Theorem backToHome_completes w home grid :
  timers w = [] ->
  safeQuerySelector w (Simple (ClassSelector HOME)) = Some home ->
  safeQuerySelector w (Simple (ClassSelector PORTFOLIO_GRID)) = Some grid ->
  home ≠ grid ->
  let w' := fire_next (fire_next (fire_next (backToHome w))) in
  timers w' = [] ∧
  has_class (document w') home CONFIG.ACTIVE = true ∧
  has_class (document w') grid CONFIG.ACTIVE = false ∧
  has_class (document w') grid CONFIG.TO_BOTTOM = true ∧
  has_class (document w') home CONFIG.TO_TOP =
    has_class (document w) home CONFIG.TO_TOP ∧
  scrollTop w' !! grid = Some 0 ∧
  errors w' = errors w.
Proof.
  intros Hidle Hhome Hgrid Hne w'.
  assert (Hh : (home < length (document w))%nat)
    by (by apply safeQuerySelector_lt in Hhome).
  assert (Hg : (grid < length (document w))%nat)
    by (by apply safeQuerySelector_lt in Hgrid).
  subst w'. unfold backToHome, delayExecution, with_timers, with_audioManager.
  cbn [document scrollTop timers now audioManager errors].
  unfold safeQuerySelector in *. cbn [document]. rewrite Hhome, Hgrid, Hidle.
  cbn [app]. unfold_delays.
  do 3 fire.
  cbn [timers scrollTop errors].
  split_and!; [done|..|by rewrite lookup_insert_eq|done].
  4: apply eq_true_iff_eq.
  all: class_rewrite; class_goal.
Qed.

(** X16: [switchLayers(notActiveLayer, activeLayer, reverse)] on two
    different elements makes the first the active layer and the second
    the inactive one, whatever layer classes they carried: the first then
    carries [active-layer] and not [not-active-layer], the second the
    opposite.  The first carries [opacity-0] exactly when [reverse] is
    set, and the second loses it then.  No other element and no other
    class is touched, and when either layer is missing nothing happens
    at all. *)
Theorem switchLayers_swaps n a reverse w :
  n ≠ a -> (n < length (document w))%nat -> (a < length (document w))%nat ->
  let w' := switchLayers (Some n) (Some a) reverse w in
  has_class (document w') n CONFIG.ACTIVE_LAYER = true ∧
  has_class (document w') n CONFIG.NOT_ACTIVE_LAYER = false ∧
  has_class (document w') a CONFIG.NOT_ACTIVE_LAYER = true ∧
  has_class (document w') a CONFIG.ACTIVE_LAYER = false ∧
  has_class (document w') n CONFIG.OPACITY_0 = reverse ∧
  has_class (document w') a CONFIG.OPACITY_0 =
    (if reverse then false else has_class (document w) a CONFIG.OPACITY_0) ∧
  (∀ j d, j ≠ n -> j ≠ a ->
     has_class (document w') j d = has_class (document w) j d) ∧
  (∀ j d, d ∉ layer_classes ->
     has_class (document w') j d = has_class (document w) j d) ∧
  same_but_document w w' ∧
  switchLayers None (Some a) reverse w = w ∧
  switchLayers (Some n) None reverse w = w.
Proof.
  intros Hne Hn Ha w'. subst w'.
  split_and!; try done.
  9: apply rest_switchLayers.
  8: intros j d Hd; by apply has_class_switchLayers_other.
  7: intros j d Hjn Hja.
  all: unfold switchLayers; destruct reverse.
  all: try apply eq_true_iff_eq.
  all: class_rewrite; class_goal.
Qed.

(** *** Opening a project from the grid *)

Lemma indexOf_not_elem x l : x ∉ l -> indexOf x l = -1.
Proof.
  induction l as [|y l IH]; [done|]. rewrite not_elem_of_cons. intros [Hne Hin].
  simpl. rewrite bool_decide_eq_false_2 by done.
  rewrite (IH Hin). by rewrite bool_decide_eq_true_2.
Qed.

Lemma indexOf_lookup x l k :
  NoDup l -> l !! k = Some x -> indexOf x l = Z.of_nat k.
Proof.
  revert k. induction l as [|y l IH]; intros k Hnd Hk; [done|].
  apply NoDup_cons in Hnd as [Hy Hnd]. destruct k as [|k]; simpl in *.
  - injection Hk as ->. by rewrite bool_decide_eq_true_2.
  - rewrite bool_decide_eq_false_2.
    2:{ intros ->. apply Hy. by eapply list_elem_of_lookup_2. }
    rewrite (IH k Hnd Hk). rewrite bool_decide_eq_false_2 by lia. lia.
Qed.

Lemma NoDup_querySelectorAll doc sel : NoDup (querySelectorAll doc sel).
Proof. unfold querySelectorAll. apply NoDup_filter, NoDup_seq. Qed.

Lemma safeQuerySelector_nth_stable w w' n :
  skeleton (document w') = skeleton (document w) ->
  (∀ p, has_class (document w') p CONFIG.PORTFOLIO_ITEMS =
        has_class (document w) p CONFIG.PORTFOLIO_ITEMS) ->
  safeQuerySelector w' (Simple (NthChildArticle CONFIG.PORTFOLIO_ITEMS n)) =
  safeQuerySelector w (Simple (NthChildArticle CONFIG.PORTFOLIO_ITEMS n)).
Proof.
  intros Hs Hc. unfold safeQuerySelector. rewrite !querySelector_simple.
  by apply querySelector_nth_stable.
Qed.

(** X17: [openPortfolioItem(element)], no other timer pending.  The
    index becomes at once the position of the element among the [.item]
    elements, counted from 1, and 0 for an element that is not one of
    them.  Once the four timers have fired, none is left; the project at
    that position carries [active], the one before it [to-bottom], the
    one after it [to-top]; the grid carries [to-top], has lost [active]
    unless it is itself that project, and is scrolled to the top. *)
Theorem openPortfolioItem_completes this element w grid :
  timers w = [] ->
  safeQuerySelector w (Simple (ClassSelector PORTFOLIO_GRID)) = Some grid ->
  let items := querySelectorAll (document w) (Simple (ClassSelector ITEM)) in
  let opened := openPortfolioItem this element w in
  let index := currentProjectIndex opened.1 in
  let w' := fire_next (fire_next (fire_next (fire_next opened.2))) in
  let project n :=
    safeQuerySelector w (Simple (NthChildArticle CONFIG.PORTFOLIO_ITEMS n)) in
  (∀ k, items !! k = Some element -> index = Z.of_nat k + 1) ∧
  (element ∉ items -> index = 0) ∧
  document opened.2 = document w ∧
  timers w' = [] ∧
  (∀ p, project index = Some p ->
     has_class (document w') p CONFIG.ACTIVE = true) ∧
  (∀ p, project (index - 1) = Some p ->
     has_class (document w') p CONFIG.TO_BOTTOM = true) ∧
  (∀ p, project (index + 1) = Some p ->
     has_class (document w') p CONFIG.TO_TOP = true) ∧
  has_class (document w') grid CONFIG.TO_TOP = true ∧
  (project index ≠ Some grid ->
   has_class (document w') grid CONFIG.ACTIVE = false) ∧
  scrollTop w' !! grid = Some 0.
Proof.
  intros Hidle Hgrid items opened index w' project.
  assert (Hg : (grid < length (document w))%nat)
    by (by apply safeQuerySelector_lt in Hgrid).
  subst w' index opened.
  unfold openPortfolioItem, delayExecution, with_timers, with_audioManager.
  cbn [fst snd currentProjectIndex document scrollTop timers now audioManager errors].
  fold items.
  split.
  { intros k Hk. f_equal. apply indexOf_lookup; [apply NoDup_querySelectorAll|done]. }
  split.
  { intros Hout. by rewrite indexOf_not_elem. }
  split; [done|].
  generalize (indexOf element items + 1). intros index.
  unfold safeQuerySelector in Hgrid |- *. cbn [document].
  rewrite Hgrid, Hidle. cbn [app]. unfold_delays.
  do 4 fire.
  cbn [timers scrollTop].
  match goal with
  | |- context [document (run_task (ActivateProject _) ?W)] =>
      assert (Hq : ∀ n,
                safeQuerySelector W
                  (Simple (NthChildArticle CONFIG.PORTFOLIO_ITEMS n)) = project n)
  end.
  { intros n. apply safeQuerySelector_nth_stable.
    - cbn [document]. by rewrite skeleton_run_task.
    - intros p. apply eq_true_iff_eq. class_rewrite. class_goal. }
  split_and!; [done|..|by rewrite lookup_insert_eq].
  1-3: intros p Hp; apply safeQuerySelector_lt in Hp as Hlt.
  5: intros Hother.
  all: class_rewrite; rewrite ?Hq; class_goal.
Qed.

(** *** Back to the grid *)

Lemma querySelector_article_ext doc doc' container c :
  length doc = length doc' ->
  (∀ i, Dom.matches doc' (ArticleWithClass container c) i =
        Dom.matches doc (ArticleWithClass container c) i) ->
  Dom.querySelector doc' (ArticleWithClass container c) =
  Dom.querySelector doc (ArticleWithClass container c).
Proof.
  intros Hlen Hm. unfold Dom.querySelector, querySelectorAll.
  rewrite <- Hlen. f_equal. apply list_filter_iff. intros i. by rewrite Hm.
Qed.

Lemma querySelector_article_Some doc container c p :
  Dom.querySelector doc (ArticleWithClass container c) = Some p ->
  is_project doc container p = true ∧ has_class doc p c = true.
Proof.
  unfold Dom.querySelector. intros Hh.
  destruct (querySelectorAll doc (ArticleWithClass container c)) as [|x l] eqn:Hf;
    [done|].
  injection Hh as ->.
  assert (Hin : p ∈ querySelectorAll doc (ArticleWithClass container c))
    by (rewrite Hf; by left).
  apply elem_of_querySelectorAll in Hin as [_ Hm].
  rewrite matches_article in Hm. by apply andb_prop in Hm.
Qed.

(** X18: [backToPortfolio()], the grid not being itself a project and no
    other timer pending.  Once its three timers have fired, none is left;
    the grid carries [active] and not [to-top]; no project carries
    [to-top] or [to-bottom]; the first project in document order that
    carried [active] has lost it, and every other project carries
    [active] if and only if it did before: [deactivateAllProjects]
    deactivates one project. *)
Theorem backToPortfolio_completes w grid :
  timers w = [] ->
  safeQuerySelector w (Simple (ClassSelector PORTFOLIO_GRID)) = Some grid ->
  is_project (document w) CONFIG.PORTFOLIO_ITEMS grid = false ->
  let w' := fire_next (fire_next (fire_next (backToPortfolio w))) in
  let activeProject :=
    safeQuerySelector w (ArticleWithClass CONFIG.PORTFOLIO_ITEMS CONFIG.ACTIVE) in
  timers w' = [] ∧
  has_class (document w') grid CONFIG.ACTIVE = true ∧
  has_class (document w') grid CONFIG.TO_TOP = false ∧
  (∀ j, is_project (document w) CONFIG.PORTFOLIO_ITEMS j = true ->
     has_class (document w') j CONFIG.TO_TOP = false ∧
     has_class (document w') j CONFIG.TO_BOTTOM = false ∧
     has_class (document w') j CONFIG.ACTIVE =
       has_class (document w) j CONFIG.ACTIVE
       && negb (bool_decide (activeProject = Some j))) ∧
  errors w' = errors w.
Proof.
  intros Hidle Hgrid Hnp w' activeProject.
  assert (Hg : (grid < length (document w))%nat)
    by (by apply safeQuerySelector_lt in Hgrid).
  subst w'. unfold backToPortfolio, delayExecution, with_timers, with_audioManager.
  cbn [document scrollTop timers now audioManager errors].
  unfold safeQuerySelector in Hgrid |- *. cbn [document].
  rewrite Hgrid, Hidle. cbn [app]. unfold_delays.
  do 3 fire.
  cbn [timers errors run_task].
  match goal with
  | |- context [document (deactivateAllProjects ?W)] =>
      assert (Hproj : ∀ j, is_project (document W) CONFIG.PORTFOLIO_ITEMS j =
                           is_project (document w) CONFIG.PORTFOLIO_ITEMS j);
      [|assert (Hq : safeQuerySelector W
                       (ArticleWithClass CONFIG.PORTFOLIO_ITEMS CONFIG.ACTIVE)
                     = activeProject)]
  end.
  { intros j. apply (is_project_skeleton (document w)).
    - by rewrite !skeleton_removeClass, !skeleton_addClass.
    - intros p. apply eq_true_iff_eq. class_rewrite. class_goal. }
  { unfold activeProject, safeQuerySelector.
    apply querySelector_article_ext.
    - by rewrite !length_removeClass, !length_addClass.
    - intros i. rewrite !matches_article, Hproj.
      destruct (decide (i = grid)) as [->|Hi]; [by rewrite Hnp|].
      f_equal. apply eq_true_iff_eq. class_rewrite. class_goal. }
  assert (Hag : activeProject ≠ Some grid).
  { intros Ha. apply querySelector_article_Some in Ha as [Hp _]. congruence. }
  split_and!; [done|..|done].
  3: intros j Hj; split_and!.
  all: try apply eq_true_iff_eq.
  all: class_rewrite; rewrite ?Hq, ?Hproj, ?Hnp, ?Hj.
  all: class_goal.
Qed.

(** *** The helpers, once more *)

Lemma has_class_set_toggle c force i doc j d :
  (i < length doc)%nat ->
  has_class (set_classes (token_toggle c force) i doc) j d =
  if decide (j = i ∧ d = c)
  then match force with
       | Some b => b
       | None => negb (has_class doc i c)
       end
  else has_class doc j d.
Proof.
  intros Hi. unfold token_toggle.
  assert (Hadd : has_class (set_classes (token_add c) i doc) j d =
                 if decide (j = i ∧ d = c) then true else has_class doc j d).
  { change (set_classes (token_add c) i doc) with (add_class (Some i) c doc).
    rewrite has_class_add. case_decide as Hd.
    - destruct Hd as [-> ->]. rewrite (bool_decide_eq_true_2 (_ ∧ _)) by done.
      by rewrite orb_true_r.
    - rewrite bool_decide_eq_false_2; [by rewrite orb_false_r|].
      intros ([= ->] & -> & _). by apply Hd. }
  assert (Hrem : has_class (set_classes (token_remove c) i doc) j d =
                 if decide (j = i ∧ d = c) then false else has_class doc j d).
  { change (set_classes (token_remove c) i doc) with (remove_class (Some i) c doc).
    rewrite has_class_remove. case_decide as Hd.
    - destruct Hd as [-> ->]. rewrite (bool_decide_eq_true_2 (_ ∧ _)) by done.
      by rewrite andb_false_r.
    - rewrite bool_decide_eq_false_2; [by rewrite andb_true_r|].
      intros ([= ->] & ->). by apply Hd. }
  destruct force as [[|]|]; [exact Hadd|exact Hrem|].
  rewrite has_class_set_classes.
  destruct (decide (i = j)) as [<-|Hij].
  - unfold has_class. destruct (_ !! i) as [el|] eqn:Hel.
    2:{ apply lookup_ge_None in Hel. lia. }
    destruct (decide (c ∈ classList el)) as [Hin|Hin].
    + rewrite (bool_decide_eq_true_2 (c ∈ classList el)) by done. cbn [negb].
      case_decide as Hd.
      * destruct Hd as [_ ->]. apply bool_decide_eq_false_2.
        rewrite elem_of_token_remove. by intros [_ ?].
      * apply bool_decide_ext. rewrite elem_of_token_remove.
        split; [by intros [? _]|]. intros Hd'. split; [done|].
        intros ->. by apply Hd.
    + rewrite (bool_decide_eq_false_2 (c ∈ classList el)) by done. cbn [negb].
      case_decide as Hd.
      * destruct Hd as [_ ->]. apply bool_decide_eq_true_2.
        rewrite elem_of_token_add. by right.
      * apply bool_decide_ext. rewrite elem_of_token_add.
        split; [|by left]. intros [?| ->]; [done|]. exfalso. by apply Hd.
  - rewrite decide_False; [done|]. intros [-> _]. by apply Hij.
Qed.

(** X19: [toggleClass(element, className, force)] with a valid class
    name and an element of the document.  With [force] the element
    carries the class afterwards exactly when [force] is true; without
    it, exactly when it did not carry it before, so that two calls in a
    row restore every class of every element.  Nothing else changes: no
    other element, no other class and no other part of the page.  For a
    missing element the call does nothing, and for an invalid class name
    it changes nothing but the console, where it reports the error. *)
Theorem toggleClass_toggles element className force w :
  valid_token className = true -> (element < length (document w))%nat ->
  let w' := toggleClass (Some element) className force w in
  (∀ j d,
     has_class (document w') j d =
     if decide (j = element ∧ d = className)
     then match force with
          | Some b => b
          | None => negb (has_class (document w) element className)
          end
     else has_class (document w) j d) ∧
  same_but_document w w' ∧
  (∀ j d,
     has_class
       (document (toggleClass (Some element) className None
                    (toggleClass (Some element) className None w))) j d =
     has_class (document w) j d) ∧
  toggleClass None className force w = w ∧
  (∀ bad, valid_token bad = false ->
     document (toggleClass (Some element) bad force w) = document w ∧
     errors (toggleClass (Some element) bad force w) =
       errors w ++ ["Error toggling class " +:+ dquote +:+ bad +:+ dquote +:+ ":"]).
Proof.
  intros Hv Hlt w'. subst w'. unfold toggleClass. rewrite Hv.
  cbn [document with_document].
  split_and!; try done.
  - intros j d. by apply has_class_set_toggle.
  - intros j d.
    rewrite !has_class_set_toggle by (by rewrite ?length_set_classes).
    case_decide as Hd; [|done]. destruct Hd as [-> ->].
    rewrite decide_True by done. by rewrite negb_involutive.
  - intros bad Hbad. by rewrite Hbad.
Qed.

End PageFacts.

(** ** The sibling navigation *)

Module NavigationFacts.
Import Navigation Dom DomFacts Page PageFacts.

(** When no element of the document is the [n]-th child of its parent,
    the lookup of the [n]-th project finds nothing. *)
Lemma no_nth_child_no_target (doc : Document) container n :
  (∀ i, Z.of_nat (child_index doc i) ≠ n) ->
  Dom.querySelector doc (Simple (NthChildArticle container n)) = None.
Proof.
  intros Hnone. rewrite querySelector_simple. unfold Navigation.querySelector.
  rewrite MonadFacts.filter_none; [done|].
  apply Forall_forall. intros i _ Hm. simpl in Hm.
  destruct (doc !! i) as [el|]; [|done].
  apply andb_prop in Hm as [_ Hm]. apply bool_decide_eq_true in Hm.
  by apply (Hnone i).
Qed.

(** C2: when no element is found at the target position,
    [navigateToProject], and with it [navigateToNextProject] and
    [navigateToPreviousProject], keeps [currentProjectIndex], leaves the
    document and so every class list unchanged, and sets no timer;
    nothing is scrolled and nothing is reported as an error. *)
Theorem missing_target_changes_nothing this targetIndex w :
  safeQuerySelector w (Simple (NthChildArticle CONFIG.PORTFOLIO_ITEMS targetIndex))
  = None ->
  (navigateToProject this targetIndex w).1 = this ∧
  document (navigateToProject this targetIndex w).2 = document w ∧
  class_lists (navigateToProject this targetIndex w).2 = class_lists w ∧
  timers (navigateToProject this targetIndex w).2 = timers w ∧
  now (navigateToProject this targetIndex w).2 = now w ∧
  scrollTop (navigateToProject this targetIndex w).2 = scrollTop w ∧
  errors (navigateToProject this targetIndex w).2 = errors w ∧
  (targetIndex = currentProjectIndex this + 1 ->
   navigateToNextProject this w = navigateToProject this targetIndex w) ∧
  (targetIndex = currentProjectIndex this - 1 ->
   navigateToPreviousProject this w = navigateToProject this targetIndex w).
Proof.
  intros Hnone. unfold navigateToProject, safeQuerySelector in *.
  cbn [document with_audioManager]. rewrite Hnone. cbn [fst snd].
  split_and!; try done.
  - intros ->. unfold navigateToNextProject, navigateToProject, safeQuerySelector.
    cbn [document with_audioManager]. by rewrite Hnone.
  - intros ->. unfold navigateToPreviousProject, navigateToProject, safeQuerySelector.
    cbn [document with_audioManager]. by rewrite Hnone.
Qed.

(** On the third of three projects, "next" asks for a fourth: nothing
    changes. *)
Lemma missing_target_changes_nothing_witness :
  (navigateToNextProject {| currentProjectIndex := 3 |} Scenario.showing_projects).1
  = {| currentProjectIndex := 3 |} ∧
  class_lists
    (navigateToNextProject {| currentProjectIndex := 3 |} Scenario.showing_projects).2
  = class_lists Scenario.showing_projects ∧
  timers
    (navigateToNextProject {| currentProjectIndex := 3 |} Scenario.showing_projects).2
  = [].
Proof.
  destruct (missing_target_changes_nothing {| currentProjectIndex := 3 |} 4
              Scenario.showing_projects)
    as (Hthis & _ & Hclasses & Htimers & _ & _ & _ & Hnext & _).
  - vm_compute. reflexivity.
  - rewrite (Hnext eq_refl). split; [exact Hthis|]. split; [exact Hclasses|].
    exact Htimers.
Defined.

Lemma navigateToProject_found this targetIndex w target :
  safeQuerySelector w (Simple (NthChildArticle CONFIG.PORTFOLIO_ITEMS targetIndex))
  = Some target ->
  navigateToProject this targetIndex w =
  ({| currentProjectIndex := targetIndex |},
   {| document := document w;
      scrollTop := scrollTop w;
      timers :=
        timers w ++
        [ {| due := now w + CONFIG.TRANSITION_DELAY;
             task :=
               Some (LeaveCurrent
                       (safeQuerySelector w
                          (Simple (NthChildArticle CONFIG.PORTFOLIO_ITEMS
                                     (currentProjectIndex this))))
                       (if bool_decide (targetIndex > currentProjectIndex this)
                        then Bottom else Top)) |};
          {| due := now w + CONFIG.LAYER_SWITCH_DELAY;
             task := Some (EnterTarget (Some target)) |};
          {| due := now w + CONFIG.LAYER_OPACITY_DELAY;
             task :=
               Some (SwitchLayers
                       (safeQuerySelector w
                          (Simple (ClassSelector CONFIG.NOT_ACTIVE_LAYER)))
                       (safeQuerySelector w
                          (Simple (ClassSelector CONFIG.ACTIVE_LAYER)))
                       false) |};
          {| due := now w + CONFIG.PAPER_SOUND_DELAY; task := Some PlayPaper |} ];
      now := now w;
      audioManager := playClick (audioManager w);
      errors := errors w |}).
Proof.
  intros Hsome. unfold navigateToProject, safeQuerySelector in *.
  cbn [document with_audioManager]. rewrite Hsome.
  unfold delayExecution, with_timers.
  cbn [document scrollTop timers now audioManager errors].
  by rewrite <- !app_assoc.
Qed.

(** Once the four timers of a "next" from the first project have fired,
    the first project has left to the bottom, the second is active, the
    layers are swapped and the paper sound has been asked for. *)
Example transition_runs_to_completion :
  class_lists
    (fire_next (fire_next (fire_next (fire_next
       (navigateToNextProject {| currentProjectIndex := 1 |}
                              Scenario.showing_projects).2))))
  = [["portfolio-items"]; ["to-bottom"]; ["active"]; [];
     ["not-active-layer"]; ["active-layer"]] ∧
  requested
    (audioManager
       (fire_next (fire_next (fire_next (fire_next
          (navigateToNextProject {| currentProjectIndex := 1 |}
                                 Scenario.showing_projects).2)))))
  = ["CLICK"; "PAPER"].
Proof. split; vm_compute; reflexivity. Qed.

(** C3: when the target element exists, [navigateToProject(t)] returns
    with [currentProjectIndex] equal to [t] while its four delayed actions
    are still pending and the document is as before; so a second "next"
    issued before any timer fires starts from the new index and asks for
    the project after it. *)
Theorem index_updated_at_initiation this targetIndex w target :
  safeQuerySelector w (Simple (NthChildArticle CONFIG.PORTFOLIO_ITEMS targetIndex))
  = Some target ->
  currentProjectIndex (navigateToProject this targetIndex w).1 = targetIndex ∧
  document (navigateToProject this targetIndex w).2 = document w ∧
  (∃ leave layers,
     timers (navigateToProject this targetIndex w).2 =
       timers w ++
       [ {| due := now w + CONFIG.TRANSITION_DELAY; task := Some leave |};
         {| due := now w + CONFIG.LAYER_SWITCH_DELAY;
            task := Some (EnterTarget (Some target)) |};
         {| due := now w + CONFIG.LAYER_OPACITY_DELAY; task := Some layers |};
         {| due := now w + CONFIG.PAPER_SOUND_DELAY; task := Some PlayPaper |} ]) ∧
  (targetIndex = currentProjectIndex this + 1 ->
   navigateToNextProject this w = navigateToProject this targetIndex w ∧
   navigateToNextProject (navigateToNextProject this w).1
                         (navigateToNextProject this w).2
   = navigateToProject (navigateToNextProject this w).1
                       (currentProjectIndex this + 2)
                       (navigateToNextProject this w).2 ∧
   ∀ target2,
     safeQuerySelector w
       (Simple (NthChildArticle CONFIG.PORTFOLIO_ITEMS (currentProjectIndex this + 2)))
     = Some target2 ->
     currentProjectIndex
       (navigateToNextProject (navigateToNextProject this w).1
                              (navigateToNextProject this w).2).1
     = currentProjectIndex this + 2).
Proof.
  intros Hsome.
  pose proof (navigateToProject_found this targetIndex w target Hsome) as Hrun.
  split_and!.
  - by rewrite Hrun.
  - by rewrite Hrun.
  - rewrite Hrun. by do 2 eexists.
  - intros ->. split; [done|].
    change (navigateToNextProject this w)
      with (navigateToProject this (currentProjectIndex this + 1) w).
    rewrite Hrun. cbn [fst snd]. unfold navigateToNextProject.
    cbn [currentProjectIndex].
    replace (currentProjectIndex this + 1 + 1) with (currentProjectIndex this + 2)
      by lia.
    split; [done|]. intros target2 Hsome2.
    by erewrite (navigateToProject_found _ (currentProjectIndex this + 2) _ target2).
Qed.

(** On the first of three projects, two "next" in a row, no timer having
    fired, leave the index at 3. *)
Lemma index_updated_at_initiation_witness :
  currentProjectIndex
    (navigateToNextProject
       (navigateToNextProject {| currentProjectIndex := 1 |}
                              Scenario.showing_projects).1
       (navigateToNextProject {| currentProjectIndex := 1 |}
                              Scenario.showing_projects).2).1
  = 1 + 2.
Proof.
  destruct (index_updated_at_initiation {| currentProjectIndex := 1 |} 2
              Scenario.showing_projects 2%nat)
    as (_ & _ & _ & Hnext).
  - vm_compute. reflexivity.
  - destruct (Hnext eq_refl) as (_ & _ & Htwice).
    apply (Htwice 3%nat). vm_compute. reflexivity.
Defined.



End NavigationFacts.

(** ** The sibling navigation, once its timers have fired *)

Module NavigationExtras.
Import Navigation Dom DomFacts Page PageFacts.

(** X12: when the target exists and no other timer is pending, once the
    four timers of [navigateToProject] have fired none is left; the
    target project carries [active] and neither [to-top] nor
    [to-bottom]; the project that was current, when it is another
    element, has lost [active] and carries the class of its direction;
    the audio manager was asked for the click and then for the paper
    sound. *)
Theorem transition_completes this targetIndex w target :
  timers w = [] ->
  safeQuerySelector w (Simple (NthChildArticle CONFIG.PORTFOLIO_ITEMS targetIndex))
  = Some target ->
  let current :=
    safeQuerySelector w
      (Simple (NthChildArticle CONFIG.PORTFOLIO_ITEMS (currentProjectIndex this))) in
  let w' :=
    fire_next (fire_next (fire_next (fire_next
      (navigateToProject this targetIndex w).2))) in
  timers w' = [] ∧
  has_class (document w') target CONFIG.ACTIVE = true ∧
  has_class (document w') target CONFIG.TO_TOP = false ∧
  has_class (document w') target CONFIG.TO_BOTTOM = false ∧
  (∀ c, current = Some c -> c ≠ target ->
     has_class (document w') c CONFIG.ACTIVE = false ∧
     has_class (document w') c
       (if bool_decide (targetIndex > currentProjectIndex this)
        then CONFIG.TO_BOTTOM else CONFIG.TO_TOP) = true) ∧
  requested (audioManager w') =
    requested (audioManager w) ++
    [if isMobile (audioManager w) then "CLICK_MOBILE" else "CLICK";
     if isMobile (audioManager w) then "PAPER_MOBILE" else "PAPER"].
Proof.
  intros Hidle Htarget current w'.
  assert (Hlt : (target < length (document w))%nat).
  { by apply safeQuerySelector_lt in Htarget. }
  subst w'.
  rewrite (NavigationFacts.navigateToProject_found this targetIndex w target Htarget).
  cbn [snd]. rewrite Hidle. cbn [app]. fold current.
  unfold_delays.
  fire. fire. fire. fire.
  cbn [timers audioManager].
  destruct (bool_decide (targetIndex > currentProjectIndex this)).
  all: split_and!; [done|..].
  all: try (intros c Hc Hne; rewrite Hc;
            assert (Hclt : (c < length (document w))%nat)
              by (unfold current in Hc; by apply safeQuerySelector_lt in Hc);
            split).
  all: try apply requested_click_paper.
  all: class_rewrite; class_goal.
Qed.

Lemma nth_child_index doc container n i :
  Navigation.querySelector doc (NthChildArticle container n) = Some i ->
  Z.of_nat (child_index doc i) = n.
Proof.
  intros Hq. apply querySelector_Some in Hq as (_ & Hm & _).
  rewrite matches_nth in Hm. apply andb_prop in Hm as [_ Hm].
  by apply bool_decide_eq_true in Hm.
Qed.

(** X13: two [navigateToNextProject()] in immediate succession, both
    targets existing and no other timer pending.  The second call takes
    the first target for the current project, so its "leave" timer (200
    ms) strips [active] from the first target before the "enter" timer
    of the first call (250 ms) puts it back: once the eight timers have
    fired, the index is two further and the two targets, which are
    different elements, both carry [active]. *)
Theorem rapid_next_leaves_two_active this w t1 t2 :
  timers w = [] ->
  safeQuerySelector w
    (Simple (NthChildArticle CONFIG.PORTFOLIO_ITEMS (currentProjectIndex this + 1)))
  = Some t1 ->
  safeQuerySelector w
    (Simple (NthChildArticle CONFIG.PORTFOLIO_ITEMS (currentProjectIndex this + 2)))
  = Some t2 ->
  let first := navigateToNextProject this w in
  let second := navigateToNextProject first.1 first.2 in
  let w' :=
    fire_next (fire_next (fire_next (fire_next
      (fire_next (fire_next (fire_next (fire_next second.2))))))) in
  currentProjectIndex second.1 = currentProjectIndex this + 2 ∧
  timers w' = [] ∧
  t1 ≠ t2 ∧
  has_class (document w') t1 CONFIG.ACTIVE = true ∧
  has_class (document w') t2 CONFIG.ACTIVE = true ∧
  has_class (document w') t1 CONFIG.TO_BOTTOM = false.
Proof.
  intros Hidle Ht1 Ht2 first second w'.
  assert (Hlt1 : (t1 < length (document w))%nat)
    by (by apply safeQuerySelector_lt in Ht1).
  assert (Hlt2 : (t2 < length (document w))%nat)
    by (by apply safeQuerySelector_lt in Ht2).
  assert (Hne : t1 ≠ t2).
  { intros ->. unfold safeQuerySelector in Ht1, Ht2.
    rewrite querySelector_simple in Ht1, Ht2.
    apply nth_child_index in Ht1, Ht2. lia. }
  subst w' second first. unfold navigateToNextProject.
  rewrite (NavigationFacts.navigateToProject_found this _ w t1 Ht1).
  cbn [fst snd currentProjectIndex].
  replace (currentProjectIndex this + 1 + 1) with (currentProjectIndex this + 2)
    by lia.
  erewrite (NavigationFacts.navigateToProject_found _ _ _ t2) by exact Ht2.
  cbn [fst snd currentProjectIndex document timers now audioManager].
  unfold safeQuerySelector. cbn [document]. fold (safeQuerySelector w).
  unfold safeQuerySelector in Ht1. rewrite Ht1.
  rewrite Hidle. cbn [app].
  unfold_delays.
  rewrite !bool_decide_eq_true_2 by lia.
  do 8 fire.
  cbn [timers].
  split_and!; [done|done|done|..].
  all: class_rewrite; class_goal.
Qed.

End NavigationExtras.

(** ** The about section *)

Module AboutFacts.
Import Navigation Dom DomFacts Page PageFacts.

Lemma safeQuerySelector_id_Some ids w id i :
  safeQuerySelector_id ids w id = Some i ->
  (i < length (document w))%nat ∧ ids !! i = Some id.
Proof.
  unfold safeQuerySelector_id. intros Hhead.
  apply head_Some_elem_of, list_elem_of_filter in Hhead as [Hid Hseq].
  apply elem_of_seq in Hseq. split; [lia|done].
Qed.

Ltac unfold_about_delays :=
  unfold ABOUT_OVERLAY_DELAY, ABOUT_CONTENT_DELAY, ABOUT_CLOSE_DELAY,
    ABOUT_CONTAINER_DELAY, ABOUT_SCROLL_DELAY in *.

Lemma requested_playPaperAboutUp a :
  requested (playPaperAboutUp (playClick a)) =
  requested a ++
  [if isMobile a then "CLICK_MOBILE" else "CLICK";
   if isMobile a then "PAPER_ABOUT_UP_MOBILE" else "PAPER_ABOUT_UP"].
Proof.
  unfold playPaperAboutUp, playClick, playSound. simpl. by rewrite <- app_assoc.
Qed.

Lemma requested_playPaperAboutDown a :
  requested (playPaperAboutDown (playClick a)) =
  requested a ++
  [if isMobile a then "CLICK_MOBILE" else "CLICK";
   if isMobile a then "PAPER_ABOUT_DOWN_MOBILE" else "PAPER_ABOUT_DOWN"].
Proof.
  unfold playPaperAboutDown, playClick, playSound. simpl.
  by rewrite <- app_assoc.
Qed.

(** X21: [openAbout(event)], no other timer pending.  The click and the
    paper sound are asked for at once and the default action of the
    event is prevented; the document changes only when the timers fire.
    Once the two have fired none is left, and the overlay, the content
    and its container, those of them the page has, carry [active];
    nothing else has changed. *)
Theorem openAbout_completes (ids : gmap nat string) (event : Event) (w : World) :
  timers w = [] ->
  let opened := openAbout ids event w in
  let w' := fire_next (fire_next opened.2) in
  let parts := [safeQuerySelector_id ids w OVERLAY;
                safeQuerySelector_id ids w CONTENT;
                safeQuerySelector_id ids w CONTENT_CONTAINER] in
  defaultPrevented opened.1 = defaultPrevented event || cancelable event ∧
  document opened.2 = document w ∧
  requested (audioManager opened.2) =
    requested (audioManager w) ++
    [if isMobile (audioManager w) then "CLICK_MOBILE" else "CLICK";
     if isMobile (audioManager w)
     then "PAPER_ABOUT_UP_MOBILE" else "PAPER_ABOUT_UP"] ∧
  timers w' = [] ∧
  (∀ j c,
     has_class (document w') j c =
     has_class (document w) j c
     || bool_decide (c = CONFIG.ACTIVE) && bool_decide (Some j ∈ parts)) ∧
  audioManager w' = audioManager opened.2 ∧
  scrollTop w' = scrollTop w ∧
  errors w' = errors w.
Proof.
  intros Hidle opened w' parts. subst opened w' parts.
  pose proof (safeQuerySelector_id_Some ids w OVERLAY) as Ho.
  pose proof (safeQuerySelector_id_Some ids w CONTENT) as Hc.
  pose proof (safeQuerySelector_id_Some ids w CONTENT_CONTAINER) as Hcc.
  unfold openAbout, delayExecution, with_timers, with_audioManager.
  cbn [document scrollTop timers now audioManager errors fst snd].
  unfold safeQuerySelector_id in *. cbn [document] in *.
  set (o := head (filter (fun i => ids !! i = Some OVERLAY) _)) in *.
  set (ct := head (filter (fun i => ids !! i = Some CONTENT) _)) in *.
  set (cc := head (filter (fun i => ids !! i = Some CONTENT_CONTAINER) _)) in *.
  clearbody o ct cc.
  rewrite Hidle. cbn [app]. unfold_about_delays.
  do 2 fire.
  cbn [timers audioManager errors scrollTop].
  split_and!; try done; [apply requested_playPaperAboutUp|].
  intros j c. class_rewrite.
  apply eq_true_iff_eq. bool_to_prop.
  rewrite !elem_of_cons, elem_of_nil.
  split.
  - intros [[[?|(-> & <- & _)]|(-> & <- & _)]|(-> & <- & _)]; auto 10.
  - intros [?|[-> [<-|[<-|[<-|[]]]]]]; auto 10.
    + left; left; right. split_and!; try done. by apply Ho.
    + right. split_and!; try done. by apply Hc.
    + left; right. split_and!; try done. by apply Hcc.
Qed.

Lemma document_scrollContentContainer w :
  document (scrollContentContainer w) = document w.
Proof. unfold scrollContentContainer. by case_match. Qed.

Ltac about_rewrite :=
  repeat first [progress class_rewrite
               |rewrite document_scrollContentContainer
               |progress cbn [document run_task with_audioManager]].

Lemma querySelector_content_container doc doc' :
  length doc' = length doc ->
  (∀ i, has_class doc' i "content-container" = has_class doc i "content-container") ->
  Dom.querySelector doc' (Simple (ClassSelector "content-container")) =
  Dom.querySelector doc (Simple (ClassSelector "content-container")).
Proof.
  intros Hlen Hc. rewrite !querySelector_simple.
  by apply querySelector_class_stable.
Qed.

(** X22: [closeAbout()], no other timer pending.  The content loses
    [active] at once.  Once the four timers have fired none is left; the
    overlay, the content and its container have lost [active] and
    nothing else has changed in the classes; the first element of class
    [content-container], if there is one, is scrolled to the top; the
    audio manager was asked for the click and then for the paper
    sound. *)
Theorem closeAbout_completes (ids : gmap nat string) (w : World) :
  timers w = [] ->
  let closed := closeAbout ids w in
  let w' := fire_next (fire_next (fire_next (fire_next closed))) in
  let content := safeQuerySelector_id ids w CONTENT in
  let parts := [safeQuerySelector_id ids w OVERLAY; content;
                safeQuerySelector_id ids w CONTENT_CONTAINER] in
  (∀ j c,
     has_class (document closed) j c =
     has_class (document w) j c
     && negb (bool_decide (c = CONFIG.ACTIVE) && bool_decide (content = Some j))) ∧
  timers w' = [] ∧
  (∀ j c,
     has_class (document w') j c =
     has_class (document w) j c
     && negb (bool_decide (c = CONFIG.ACTIVE) && bool_decide (Some j ∈ parts))) ∧
  scrollTop w' =
    match Dom.querySelector (document w)
            (Simple (ClassSelector "content-container")) with
    | Some container => <[container := 0]> (scrollTop w)
    | None => scrollTop w
    end ∧
  requested (audioManager w') =
    requested (audioManager w) ++
    [if isMobile (audioManager w) then "CLICK_MOBILE" else "CLICK";
     if isMobile (audioManager w)
     then "PAPER_ABOUT_DOWN_MOBILE" else "PAPER_ABOUT_DOWN"] ∧
  errors w' = errors w.
Proof.
  intros Hidle closed w' content parts. subst closed w' content parts.
  unfold closeAbout, delayExecution, with_timers, with_audioManager.
  cbn [document scrollTop timers now audioManager errors].
  unfold safeQuerySelector_id in *. cbn [document] in *.
  set (o := head (filter (fun i => ids !! i = Some OVERLAY) _)) in *.
  set (ct := head (filter (fun i => ids !! i = Some CONTENT) _)) in *.
  set (cc := head (filter (fun i => ids !! i = Some CONTENT_CONTAINER) _)) in *.
  clearbody o ct cc.
  split.
  { intros j c. class_rewrite. apply eq_true_iff_eq. bool_to_prop.
    cbn [document].
    destruct (decide (c = CONFIG.ACTIVE)), (decide (ct = Some j));
      intuition congruence. }
  destruct (rest_removeClass ct CONFIG.ACTIVE
              {| document := document w; scrollTop := scrollTop w;
                 timers := timers w; now := now w;
                 audioManager := playClick (audioManager w);
                 errors := errors w |} eq_refl)
    as (HS & HT & HN & HA & HE).
  cbn [document scrollTop timers now audioManager errors] in *.
  rewrite HS, HT, HN, HA, HE, Hidle. cbn [app]. unfold_about_delays.
  do 4 fire.
  cbn [timers audioManager errors scrollTop].
  split_and!; [done| | |apply requested_playPaperAboutDown|done].
  - intros j c. about_rewrite.
    apply eq_true_iff_eq. bool_to_prop.
    rewrite !elem_of_cons, elem_of_nil. cbn [document].
    destruct (decide (c = CONFIG.ACTIVE)) as [->|?], (decide (Some j = o)),
      (decide (Some j = ct)), (decide (Some j = cc));
      subst; split; intros H; split_and!;
      try tauto; try (intros [Hx Hy]; subst; first [tauto|congruence]).
  - erewrite querySelector_content_container; [done|..].
    + by about_rewrite.
    + intros i. about_rewrite. apply eq_true_iff_eq. bool_to_prop.
      intuition discriminate.
Qed.

(** X23: the about section closed before its content has shown, that
    is within 100 ms of [openAbout] or, the overlay timer having fired,
    within 300 ms of it, no other timer pending.  [closeAbout()] strips
    [active] from the content first and the timer of [openAbout] puts it
    on afterwards: once every timer has fired, the content carries
    [active] while the overlay and the container do not. *)
Theorem quick_close_leaves_content_active (ids : gmap nat string)
  (event : Event) (w : World) (overlay_shown : bool) (d : Z) (content : nat) :
  timers w = [] ->
  safeQuerySelector_id ids w CONTENT = Some content ->
  0 ≤ d < (if overlay_shown then 200 else 100) ->
  let opened := (openAbout ids event w).2 in
  let closed :=
    closeAbout ids
      (later d (if overlay_shown then fire_next opened else opened)) in
  let w' := Nat.iter (if overlay_shown then 5 else 6) fire_next closed in
  timers w' = [] ∧
  has_class (document w') content CONFIG.ACTIVE = true ∧
  ∀ j, Some j ∈ [safeQuerySelector_id ids w OVERLAY;
                 safeQuerySelector_id ids w CONTENT_CONTAINER] ->
       has_class (document w') j CONFIG.ACTIVE = false.
Proof.
  intros Hidle Hcontent Hd opened closed w'. subst opened closed w'.
  destruct (safeQuerySelector_id_Some ids w CONTENT content Hcontent)
    as [Hlt Hid].
  assert (Hother : ∀ j, Some j ∈ [safeQuerySelector_id ids w OVERLAY;
                                  safeQuerySelector_id ids w CONTENT_CONTAINER] ->
            j ≠ content).
  { intros j Hj ->. rewrite !elem_of_cons, elem_of_nil in Hj.
    destruct Hj as [Hj|[Hj|[]]]; symmetry in Hj;
      apply safeQuerySelector_id_Some in Hj as [_ Hj];
      rewrite Hid in Hj; discriminate. }
  unfold openAbout, delayExecution, with_timers, with_audioManager.
  cbn [document scrollTop timers now audioManager errors fst snd].
  unfold safeQuerySelector_id in *. cbn [document] in *.
  rewrite Hidle, Hcontent. cbn [app].
  set (o := head (filter (fun i => ids !! i = Some OVERLAY) _)) in *.
  set (cc := head (filter (fun i => ids !! i = Some CONTENT_CONTAINER) _)) in *.
  assert (Hfind : ∀ doc : Document, length doc = length (document w) ->
            head (filter (fun i => ids !! i = Some OVERLAY) (seq 0 (length doc)))
            = o ∧
            head (filter (fun i => ids !! i = Some CONTENT) (seq 0 (length doc)))
            = Some content ∧
            head (filter (fun i => ids !! i = Some CONTENT_CONTAINER)
                    (seq 0 (length doc))) = cc).
  { intros doc ->. by rewrite Hcontent. }
  clearbody o cc. unfold_about_delays.
  assert (Hno : o ≠ Some content).
  { intros Heq. apply (Hother content); [|done]. rewrite Heq. left. }
  assert (Hncc : cc ≠ Some content).
  { intros Heq. apply (Hother content); [|done]. rewrite Heq. right. left. }
  destruct overlay_shown; cbn [Nat.iter nat_rect].
  - fire. unfold later. cbn [document scrollTop timers now audioManager errors].
    match goal with
    | |- context [closeAbout ids ?W] =>
        destruct (Hfind (document W)) as (Ho & Hc & Hcc);
          [cbn [document]; by about_rewrite|]
    end.
    unfold closeAbout, safeQuerySelector_id, with_audioManager.
    cbn [document scrollTop timers now audioManager errors] in *.
    rewrite Ho, Hc, Hcc.
    match goal with
    | |- context [removeClass (Some content) CONFIG.ACTIVE ?W] =>
        destruct (rest_removeClass (Some content) CONFIG.ACTIVE W eq_refl)
          as (HS & HT & HN & HA & HE);
        set (closing := removeClass (Some content) CONFIG.ACTIVE W) in *
    end.
    unfold delayExecution, with_timers.
    cbn [document scrollTop timers now audioManager errors] in *.
    rewrite HS, HT, HN, HA, HE. cbn [app]. unfold_about_delays.
    do 5 fire. cbn [timers].
    split_and!; [done| |].
    + subst closing. about_rewrite. class_goal.
    + intros j Hj. specialize (Hother j Hj).
      rewrite !elem_of_cons, elem_of_nil in Hj.
      subst closing. about_rewrite. class_goal.
  - unfold later. cbn [document scrollTop timers now audioManager errors].
    match goal with
    | |- context [closeAbout ids ?W] =>
        destruct (Hfind (document W)) as (Ho & Hc & Hcc); [done|]
    end.
    unfold closeAbout, safeQuerySelector_id, with_audioManager.
    cbn [document scrollTop timers now audioManager errors] in *.
    rewrite Ho, Hc, Hcc.
    match goal with
    | |- context [removeClass (Some content) CONFIG.ACTIVE ?W] =>
        destruct (rest_removeClass (Some content) CONFIG.ACTIVE W eq_refl)
          as (HS & HT & HN & HA & HE);
        set (closing := removeClass (Some content) CONFIG.ACTIVE W) in *
    end.
    unfold delayExecution, with_timers.
    cbn [document scrollTop timers now audioManager errors] in *.
    rewrite HS, HT, HN, HA, HE. cbn [app]. unfold_about_delays.
    do 6 fire. cbn [timers].
    split_and!; [done| |].
    + subst closing. about_rewrite. class_goal.
    + intros j Hj. specialize (Hother j Hj).
      rewrite !elem_of_cons, elem_of_nil in Hj.
      subst closing. about_rewrite. class_goal.
Qed.

End AboutFacts.

(** ** The audio manager *)

Module AudioPlaybackFacts.
Import AudioPlayback.

(** *** Detecting a mobile device *)

Lemma canonicalize_idemp c : canonicalize (canonicalize c) = canonicalize c.
Proof. destruct c as [[] [] [] [] [] [] [] []]; reflexivity. Qed.

Lemma matches_here_spec pattern s :
  matches_here pattern s = true <->
  ∃ word after, s = word +:+ after ∧ fold_case word = fold_case pattern.
Proof.
  revert s. induction pattern as [|a pattern IH]; intros s.
  - split; [intros _; by exists EmptyString, s|done].
  - destruct s as [|b s]; simpl.
    + split; [done|]. intros (word & after & Hs & Hw).
      destruct word; discriminate.
    + rewrite andb_true_iff, bool_decide_eq_true, IH. split.
      * intros (Hab & word & after & -> & Hw).
        exists (String b word), after. simpl. by rewrite Hw, Hab.
      * intros (word & after & Hs & Hw).
        destruct word as [|c word]; [discriminate|].
        simpl in Hs, Hw. injection Hs as -> ->. injection Hw as Hc Hw.
        split; [done|]. by exists word, after.
Qed.

Lemma matches_spec pattern s :
  matches pattern s = true <->
  ∃ before word after,
    s = before +:+ word +:+ after ∧ fold_case word = fold_case pattern.
Proof.
  induction s as [|b s IH].
  - simpl. rewrite orb_false_r, matches_here_spec. split.
    + intros (word & after & Hs & Hw). by exists EmptyString, word, after.
    + intros (before & word & after & Hs & Hw).
      destruct before; [|discriminate]. by exists word, after.
  - cbn [matches]. rewrite orb_true_iff, matches_here_spec, IH. split.
    + intros [(word & after & Hs & Hw)|(before & word & after & Hs & Hw)].
      * by exists EmptyString, word, after.
      * exists (String b before), word, after. simpl. by rewrite Hs.
    + intros (before & word & after & Hs & Hw).
      destruct before as [|c before]; simpl in Hs.
      * left. by exists word, after.
      * right. injection Hs as -> ->. by exists before, word, after.
Qed.

Lemma matches_here_fold_case pattern s :
  matches_here pattern (fold_case s) = matches_here pattern s.
Proof.
  revert s. induction pattern as [|a pattern IH]; intros [|b s]; try done.
  simpl. by rewrite canonicalize_idemp, IH.
Qed.

Lemma matches_fold_case pattern s :
  matches pattern (fold_case s) = matches pattern s.
Proof.
  induction s as [|b s IH].
  - done.
  - cbn [matches fold_case].
    rewrite <- IH, <- (matches_here_fold_case pattern (String b s)). done.
Qed.

(** X24: [isMobileDevice()] answers [true] exactly when the user agent
    holds, anywhere and in any mix of upper and lower case, one of the
    seven words; the answer does not depend on the case of the letters
    of the user agent. *)
Theorem isMobileDevice_finds_a_word (userAgent : string) :
  (isMobileDevice userAgent = true <->
   ∃ pattern before word after,
     pattern ∈ mobilePatterns ∧
     userAgent = before +:+ word +:+ after ∧
     fold_case word = fold_case pattern) ∧
  isMobileDevice (fold_case userAgent) = isMobileDevice userAgent.
Proof.
  split.
  - unfold isMobileDevice. rewrite existsb_exists. split.
    + intros (pattern & Hin & Hm). apply list_elem_of_In in Hin.
      apply matches_spec in Hm as (before & word & after & Hs & Hw).
      by exists pattern, before, word, after.
    + intros (pattern & before & word & after & Hin & Hs & Hw).
      exists pattern. split; [by apply list_elem_of_In|].
      apply matches_spec. by exists before, word, after.
  - unfold isMobileDevice, mobilePatterns. cbn [existsb].
    by rewrite !matches_fold_case.
Qed.

(** *** The sounds table *)

Lemma preloadSound_fold (l : list (string * string)) :
  ∀ this w this' w', NoDup l.*1 ->
    foldl preloadSound (this, w) l = (this', w') ->
    enabled this' = enabled this ∧
    isMobile this' = isMobile this ∧
    audioContext this' = audioContext this ∧
    ∀ key,
      sounds this' !! key =
      match (list_to_map l : gmap string string) !! key with
      | Some path =>
          if new_Audio w path
          then Some {| src := path; preload := "auto"; muted := false |}
          else sounds this !! key
      | None => sounds this !! key
      end.
Proof.
  induction l as [|[k p] l IH]; intros this w this' w' Hnd Hrun.
  - injection Hrun as <- <-. done.
  - apply NoDup_cons in Hnd as [Hk Hnd].
    apply (not_elem_of_list_to_map (M := gmap string) (A := string)) in Hk.
    simpl in Hk.
    cbn [foldl preloadSound] in Hrun.
    cbn [list_to_map foldr curry fst snd].
    destruct (new_Audio w p) eqn:Hp.
    + destruct (IH _ _ _ _ Hnd Hrun) as (He & Hm & Ha & Hs).
      split_and!; try done. intros key. rewrite Hs.
      destruct (decide (key = k)) as [->|Hne].
      * rewrite Hk, lookup_insert_eq, Hp. simpl. by rewrite lookup_insert_eq.
      * rewrite lookup_insert_ne by done. simpl.
        by rewrite lookup_insert_ne by done.
    + destruct (IH _ _ _ _ Hnd Hrun) as (He & Hm & Ha & Hs).
      split_and!; try done. intros key. rewrite Hs. simpl.
      destruct (decide (key = k)) as [->|Hne].
      * by rewrite Hk, lookup_insert_eq, Hp.
      * by rewrite lookup_insert_ne by done.
Qed.

Lemma NoDup_CONFIG_AUDIO : NoDup CONFIG_AUDIO.*1.
Proof. apply (bool_decide_unpack _). vm_compute. exact I. Qed.

Lemma preloadSounds_made_in this w0 w :
  enabled this = true -> sounds this = ∅ -> new_Audio w0 = new_Audio w ->
  isMobile this = isMobileDevice (userAgent w) ->
  audioContext this = new_AudioContext w ->
  made_in w true (preloadSounds this w0).
Proof.
  intros He0 Hs0 Hn0 Hm0 Ha0. unfold preloadSounds.
  destruct (foldl preloadSound (this, w0) CONFIG_AUDIO) as [this' w'] eqn:Hrun.
  destruct (preloadSound_fold _ _ _ _ _ NoDup_CONFIG_AUDIO Hrun)
    as (He & Hm & Ha & Hs).
  unfold made_in, updateMuteState. cbn [fst snd with_sounds enabled isMobile
    audioContext sounds].
  split_and!; [congruence..|].
  intros key. rewrite lookup_fmap, Hs, He, He0, Hs0, Hn0. unfold loaded.
  destruct (list_to_map CONFIG_AUDIO !! key) as [path|];
    cbn [mbind option_bind]; [|by rewrite lookup_empty].
  destruct (new_Audio w path); [done|by rewrite lookup_empty].
Qed.

Lemma constructor_made_in w : made_in w true (constructor w).
Proof.
  unfold constructor, initializeAudioContext.
  destruct (new_AudioContext w) eqn:Hctx;
    by apply preloadSounds_made_in.
Qed.

Lemma happens_this s e :
  (happens s e).1 =
  match e with
  | calls_setEnabled value =>
      updateMuteState {| enabled := value; isMobile := isMobile s.1;
                         audioContext := audioContext s.1;
                         sounds := sounds s.1 |}
  | _ => s.1
  end.
Proof.
  destruct s as [this w], e; try done.
  simpl. unfold setEnabled. by case_match.
Qed.

Lemma happens_made_in w value s e :
  made_in w value s ->
  made_in w (match e with calls_setEnabled value' => value' | _ => value end)
    (happens s e).
Proof.
  intros (He & Hm & Ha & Hs). unfold made_in. rewrite happens_this.
  destruct e; try done.
  simpl. split_and!; try done.
  intros key. rewrite lookup_fmap, Hs. unfold loaded.
  destruct (list_to_map CONFIG_AUDIO !! key) as [path|]; [|done].
  simpl. by destruct (new_Audio w path).
Qed.

Lemma events_made_in w events :
  ∀ value s, made_in w value s ->
    made_in w
      (foldl (fun value e => match e with
                             | calls_setEnabled value' => value'
                             | _ => value
                             end) value events)
      (foldl happens s events).
Proof.
  induction events as [|e events IH]; intros value s Hs; [done|].
  simpl. apply IH. by apply happens_made_in.
Qed.

(** X25: whatever happens to a manager after it was made, its sounds are
    those of the configuration that could be loaded, each with the path
    of the configuration, and each muted exactly when sound is off,
    which it is exactly when the last [setEnabled] was given [false]. *)
Theorem sounds_muted_iff_disabled (w : World) (events : list Event) :
  let s := foldl happens (constructor w) events in
  enabled s.1 = last_setEnabled events ∧
  isMobile s.1 = isMobileDevice (userAgent w) ∧
  audioContext s.1 = new_AudioContext w ∧
  (∀ key, sounds s.1 !! key = loaded w (enabled s.1) key) ∧
  (∀ key audio, sounds s.1 !! key = Some audio ->
     muted audio = negb (enabled s.1) ∧
     (key, src audio) ∈ CONFIG_AUDIO ∧
     new_Audio w (src audio) = true).
Proof.
  destruct (events_made_in w events true _ (constructor_made_in w))
    as (He & Hm & Ha & Hs).
  fold (last_setEnabled events) in He, Hs.
  cbn zeta. split_and!; try done.
  - intros key. by rewrite He.
  - intros key audio. rewrite Hs, He. unfold loaded.
    destruct (list_to_map CONFIG_AUDIO !! key) as [path|] eqn:Hkey; [|done].
    simpl. destruct (new_Audio w path) eqn:Hp; [|done].
    intros [= <-]. simpl. split_and!; [done| |done].
    by apply (elem_of_list_to_map_2 (M := gmap string)).
Qed.

(** *** While sound is off *)

Lemma playSound_disabled soundKey this w :
  enabled this = false -> playSound soundKey this w = w.
Proof. intros He. unfold playSound. by rewrite He. Qed.

Lemma started_app es1 es2 : started (es1 ++ es2) = started es1 ++ started es2.
Proof. unfold started. by rewrite omap_app. Qed.

Lemma happens_disabled this w e :
  enabled this = false -> e ≠ calls_setEnabled true ->
  let s := happens (this, w) e in
  enabled s.1 = false ∧
  isMobile s.1 = isMobile this ∧
  ∃ added,
    effects s.2 = effects w ++ added ∧
    started added = [] ∧
    Forall (fun e => e = Resume ∨
                     (e = SetCurrentTime "HOVER3" ∧ isMobile this = false))
      added.
Proof.
  intros He Hne.
  assert (Hnil : ∃ added : list Effect,
             effects w = effects w ++ added ∧ started added = [] ∧
             Forall (fun e => e = Resume ∨
                        (e = SetCurrentTime "HOVER3" ∧ isMobile this = false))
               added).
  { exists []. by rewrite app_nil_r. }
  destruct e as [value| |s|i outcome|state]; cbn [happens fst snd].
  - destruct value; [done|]. unfold setEnabled. simpl. done.
  - split_and!; try done. unfold resumeAudioContext.
    case_match; [|done]. exists [Resume]. split_and!; try done.
    repeat constructor.
  - split_and!; try done.
    destruct s; cbn [play];
      unfold playClick, playHover, playHover2, playHover3, playPaper,
        playPaperAboutUp, playPaperAboutDown, playSkin;
      rewrite ?(playSound_disabled _ this) by done; try done.
    + by destruct (isMobile this).
    + by destruct (isMobile this).
    + destruct (isMobile this) eqn:Hm; [done|].
      destruct (sounds this !! "HOVER3"); [|done].
      exists [SetCurrentTime "HOVER3"]. split_and!; try done.
      constructor; [|constructor]. by right.
  - split_and!; try done. unfold settle.
    destruct (pending w !! i) as [promise|]; [|done].
    destruct promise, outcome; try done. simpl. by case_match.
  - done.
Qed.

(** X26: while sound is off, that is from a manager with [enabled] false
    and as long as [setEnabled(true)] is not called, nothing starts to
    play, whatever else is called and whatever the browser does; the
    only things asked of the browser are to resume the audio context
    and, on a desktop, to rewind the third hover sound, which
    [playHover3()] does before it looks at [enabled]. *)
Theorem nothing_starts_while_disabled (this : AudioManager) (w : World)
  (events : list Event) :
  enabled this = false ->
  Forall (fun e => e ≠ calls_setEnabled true) events ->
  let s := foldl happens (this, w) events in
  enabled s.1 = false ∧
  started (effects s.2) = started (effects w) ∧
  ∃ added,
    effects s.2 = effects w ++ added ∧
    Forall (fun e => e = Resume ∨
                     (e = SetCurrentTime "HOVER3" ∧ isMobile this = false))
      added.
Proof.
  revert this w. induction events as [|e events IH]; intros this w He Hall.
  - simpl. split_and!; try done. exists []. by rewrite app_nil_r.
  - apply Forall_cons in Hall as [Hne Hall].
    destruct (happens_disabled this w e He Hne)
      as (He1 & Hm1 & added1 & Heff1 & Hst1 & Hall1).
    cbn [foldl]. destruct (happens (this, w) e) as [this1 w1].
    simpl in He1, Hm1, Heff1.
    destruct (IH this1 w1 He1 Hall) as (He2 & Hst2 & added2 & Heff2 & Hall2).
    cbn zeta. split_and!; [done| |].
    + rewrite Hst2, Heff1, started_app, Hst1. by rewrite app_nil_r.
    + exists (added1 ++ added2). rewrite Heff2, Heff1, app_assoc.
      split; [done|]. apply Forall_app. split; [done|].
      by rewrite Hm1 in Hall2.
Qed.

(** *** The manager of the navigation *)

(** X27: the audio manager the navigation was verified with keeps, of the
    manager of the source, the sounds it starts.  When the click and
    paper sounds are loaded and the two managers agree on [enabled], on
    [isMobile] and on the sounds started so far, they agree on them
    after [playClick()] and after [playPaper()], and the manager of the
    source prints nothing. *)
Theorem navigation_audio_agrees (this : AudioManager) (w : World)
  (a : Navigation.AudioManager) :
  Forall (fun key => is_Some (sounds this !! key))
    ["CLICK"; "CLICK_MOBILE"; "PAPER"; "PAPER_MOBILE"] ->
  Navigation.enabled a = enabled this ->
  Navigation.isMobile a = isMobile this ->
  Navigation.played a = started (effects w) ->
  Navigation.played (Navigation.playClick a) =
    started (effects (playClick this w)) ∧
  Navigation.played (Navigation.playPaper a) =
    started (effects (playPaper this w)) ∧
  Navigation.played (Navigation.playPaper (Navigation.playClick a)) =
    started (effects (playPaper this (playClick this w))) ∧
  console (playPaper this (playClick this w)) = console w.
Proof.
  intros Hloaded He Hm Hp.
  apply Forall_cons in Hloaded as [[? Hc] Hloaded].
  apply Forall_cons in Hloaded as [[? Hcm] Hloaded].
  apply Forall_cons in Hloaded as [[? Hpa] Hloaded].
  apply Forall_cons in Hloaded as [[? Hpm] _].
  unfold Navigation.playClick, Navigation.playPaper, Navigation.playSound,
    playClick, playPaper, playSound.
  simpl. rewrite He, Hm, Hp.
  destruct (enabled this), (isMobile this); simpl;
    rewrite ?Hc, ?Hcm, ?Hpa, ?Hpm; simpl;
    rewrite ?started_app; done.
Qed.

End AudioPlaybackFacts.

(** ** The hover animation of the portfolio items *)

Module AnimationsFacts.
Import Navigation Dom DomFacts Animations.

Lemma remove_all_filter tokens cl :
  remove_all tokens cl = filter (fun x => x ∉ tokens) cl.
Proof.
  unfold remove_all. revert cl. induction tokens as [|t tokens IH]; intros cl.
  - simpl. symmetry. induction cl as [|x cl IHcl]; [done|].
    rewrite filter_cons_True by apply not_elem_of_nil. by rewrite IHcl.
  - cbn [foldl]. rewrite IH. unfold token_remove.
    induction cl as [|x cl IHcl]; [done|].
    rewrite (filter_cons (fun x => x ≠ t)).
    destruct (decide (x ≠ t)) as [Hne|Heq].
    + destruct (decide (x ∈ tokens)) as [Hin|Hnin].
      * rewrite !filter_cons_False; [done| |by intros []].
        rewrite not_elem_of_cons. tauto.
      * rewrite !filter_cons_True; [by rewrite IHcl| |done].
        by apply not_elem_of_cons.
    + apply dec_stable in Heq as ->.
      rewrite filter_cons_False; [done|].
      intros Hn. apply Hn. by left.
Qed.

Lemma elem_of_remove_all tokens cl c :
  c ∈ remove_all tokens cl ↔ c ∈ cl ∧ c ∉ tokens.
Proof. rewrite remove_all_filter, list_elem_of_filter. tauto. Qed.

Lemma remove_all_idemp tokens cl :
  remove_all tokens (remove_all tokens cl) = remove_all tokens cl.
Proof.
  rewrite !remove_all_filter. induction cl as [|x cl IH]; [done|].
  rewrite (filter_cons _ x cl). case_decide as Hx.
  - rewrite filter_cons_True by done. by rewrite IH.
  - done.
Qed.

(** The class an update added is gone after the removal of the next. *)
Lemma remove_all_token_add tokens c cl :
  c ∈ tokens ->
  remove_all tokens (token_add c (remove_all tokens cl)) = remove_all tokens cl.
Proof.
  intros Hc. unfold token_add.
  rewrite bool_decide_eq_false_2
    by (rewrite elem_of_remove_all; tauto).
  rewrite (remove_all_filter tokens (_ ++ _)), filter_app.
  rewrite <- remove_all_filter, remove_all_idemp.
  rewrite filter_cons_False by (intros Hn; by apply Hn).
  by rewrite filter_nil, app_nil_r.
Qed.

Lemma set_classes_twice f g i doc :
  set_classes f i (set_classes g i doc) =
  set_classes (fun cl => f (g cl)) i doc.
Proof.
  unfold set_classes, Document. apply list_eq. intros j.
  destruct (decide (i = j)) as [->|Hne].
  - rewrite !list_lookup_alter_eq. by destruct (_ !! j).
  - by rewrite !list_lookup_alter_ne by done.
Qed.

Lemma set_classes_ext f g i doc :
  (∀ cl, f cl = g cl) -> set_classes f i doc = set_classes g i doc.
Proof.
  intros Hfg. unfold set_classes, Document. apply list_eq. intros j.
  destruct (decide (i = j)) as [->|Hne].
  - rewrite !list_lookup_alter_eq.
    destruct (_ !! j); [|done]. simpl. by rewrite Hfg.
  - by rewrite !list_lookup_alter_ne by done.
Qed.

Lemma update_returns manager element directionKey prefix doc :
  forallb valid_token (classNames manager) = true ->
  valid_token (prefix +:+ "-" +:+
               default "undefined" (direction manager directionKey)) = true ->
  update manager element directionKey prefix doc =
  returns
    (set_classes
       (fun cl =>
          token_add (prefix +:+ "-" +:+
                     default "undefined" (direction manager directionKey))
            (remove_all (classNames manager) cl))
       element doc).
Proof.
  intros Hnames Hc. unfold update. rewrite Hnames, Hc.
  by rewrite set_classes_twice.
Qed.

(** X28: [update] leaves the element with one direction class, that of
    the event, whatever direction classes it carried; its other classes
    and the other elements keep theirs.  The direction classes do not
    pile up: after an update, the next gives what it would have given
    without it. *)
Theorem update_keeps_one_direction (doc : Document) (element : nat) (n : Z)
  (prefix : string) :
  (element < length doc)%nat -> 0 ≤ n < 4 -> prefix ∈ ["in"; "out"] ->
  ∃ manager dir doc',
    constructor = Some manager ∧
    direction manager (key n) = Some dir ∧
    update manager element (key n) prefix doc = returns doc' ∧
    (∀ j c,
       has_class doc' j c =
       if decide (j = element ∧ c ∈ classNames manager)
       then bool_decide (c = prefix +:+ "-" +:+ dir)
       else has_class doc j c) ∧
    skeleton doc' = skeleton doc ∧
    (∀ n' prefix', 0 ≤ n' < 4 -> prefix' ∈ ["in"; "out"] ->
       update manager element (key n') prefix' doc' =
       update manager element (key n') prefix' doc).
Proof.
  intros Hlt Hn Hp.
  destruct constructor as [manager|] eqn:Hmade; [|discriminate].
  vm_compute in Hmade. injection Hmade as <-.
  set (manager := {| directions := _; classNames := _ |}).
  assert (Hdir : ∀ n' prefix', 0 ≤ n' < 4 -> prefix' ∈ ["in"; "out"] ->
            ∃ dir, direction manager (key n') = Some dir ∧
                   prefix' +:+ "-" +:+ dir ∈ classNames manager ∧
                   valid_token (prefix' +:+ "-" +:+ dir) = true).
  { intros n' prefix' Hn' Hp'.
    assert (n' = 0 ∨ n' = 1 ∨ n' = 2 ∨ n' = 3) as [-> | [-> | [-> | ->]]] by lia;
      apply elem_of_cons in Hp' as [-> | Hp'];
      try (apply list_elem_of_singleton in Hp' as ->);
      (eexists; split; [reflexivity|]; split;
       [apply (bool_decide_unpack _); vm_compute; exact I|reflexivity]). }
  assert (Hnames : forallb valid_token (classNames manager) = true)
    by reflexivity.
  destruct (Hdir n prefix Hn Hp) as (dir & Hd & Hin & Hvalid).
  exists manager, dir. eexists. split; [done|]. split; [done|].
  split; [rewrite update_returns by (by rewrite ?Hd); by rewrite Hd|].
  cbn [default]. split_and!.
  - intros j c. rewrite has_class_set_classes.
    destruct (decide (element = j)) as [<-|Hne].
    + destruct (lookup_lt_is_Some_2 doc element Hlt) as [el Hel].
      unfold has_class, Document in *. rewrite Hel.
      destruct (decide (c ∈ classNames manager)) as [Hc|Hc].
      * rewrite decide_True by done. apply bool_decide_ext.
        rewrite elem_of_token_add, elem_of_remove_all. tauto.
      * rewrite decide_False by tauto. apply bool_decide_ext.
        rewrite elem_of_token_add, elem_of_remove_all.
        split; [intros [[? _]| ->]; done|]. intros ?. by left.
    + rewrite decide_False; [done|]. intros [-> _]. done.
  - apply skeleton_set_classes.
  - intros n' prefix' Hn' Hp'.
    destruct (Hdir n' prefix' Hn' Hp') as (dir' & Hd' & Hin' & Hvalid').
    rewrite !update_returns by (by rewrite ?Hd'). rewrite Hd'. cbn [default].
    rewrite set_classes_twice. f_equal. apply set_classes_ext. intros cl.
    by rewrite remove_all_token_add.
Qed.

End AnimationsFacts.

(** ** The properties on concrete pages *)

Module ExtraScenarios.
Import JS.

(** On the initial store, [set("theme", "light")] is read back and
    [currentView] reads as before. *)
Lemma set_then_get_top_level_witness :
  ∃ this' w',
    StateManager.set Scenario.outcome Scenario.store.1 "theme" (VStr "light")
      Scenario.store.2 = Ok this' w' ∧
    StateManager.get this' "theme" w' = Ok (VStr "light") w' ∧
    ∃ v', StateManager.get Scenario.store.1 "currentView" Scenario.store.2
          = Ok v' Scenario.store.2 ∧
          StateManager.get this' "currentView" w' = Ok v' w'.
Proof.
  destruct (StateManagerExtras.set_then_get_top_level Scenario.outcome
              Scenario.store.1 "theme" (VStr "light") Scenario.store.2)
    as (this' & w' & Hset & Hget & Hother).
  - vm_compute. reflexivity.
  - StateManagerScenarios.decided.
  - exact StateManagerScenarios.store_allocated.
  - StateManagerScenarios.decided.
  - exists this', w'. split; [exact Hset|]. split; [exact Hget|].
    apply Hother; [vm_compute; reflexivity|StateManagerScenarios.decided|discriminate].
Defined.

(** On the initial store, an update of [theme] and [soundEnabled] is
    read back, and [currentView] reads as before. *)
Lemma update_writes_each_key_witness :
  ∃ this' w',
    StateManager.update Scenario.outcome Scenario.store.1
      [("theme", VStr "light"); ("soundEnabled", VBool false)] Scenario.store.2
      = Ok this' w' ∧
    StateManager.get this' "theme" w' = Ok (VStr "light") w' ∧
    StateManager.get this' "soundEnabled" w' = Ok (VBool false) w' ∧
    ∃ v', StateManager.get Scenario.store.1 "currentView" Scenario.store.2
          = Ok v' Scenario.store.2 ∧
          StateManager.get this' "currentView" w' = Ok v' w'.
Proof.
  destruct (StateManagerExtras.update_writes_each_key Scenario.outcome
              Scenario.store.1
              [("theme", VStr "light"); ("soundEnabled", VBool false)]
              Scenario.store.2)
    as (this' & w' & Hrun & Hget & Hother).
  - StateManagerScenarios.decided.
  - StateManagerScenarios.decided.
  - exact StateManagerScenarios.store_allocated.
  - StateManagerScenarios.decided.
  - exists this', w'. split; [exact Hrun|].
    apply Forall_cons in Hget as [Htheme Hget].
    apply Forall_cons in Hget as [Hsound _].
    split; [exact Htheme|]. split; [exact Hsound|].
    apply Hother; [vm_compute; reflexivity|StateManagerScenarios.decided
                  |StateManagerScenarios.decided].
Defined.

(** On the initial store, a copy of the state keeps [theme] when the
    store changes it, and sees [animations.starsActive] change. *)
Lemma getState_is_a_shallow_copy_witness :
  ∃ c w1 this2 w2 this3 w3,
    StateManager.getState Scenario.store.1 Scenario.store.2 = Ok c w1 ∧
    StateManager.set Scenario.outcome Scenario.store.1 "theme" (VStr "light") w1
      = Ok this2 w2 ∧
    props_at w2 c !! "theme" = Some (VStr "dark") ∧
    StateManager.set Scenario.outcome Scenario.store.1 "animations.starsActive"
      (VBool true) w1 = Ok this3 w3 ∧
    StateManager.get_loop ["animations"; "starsActive"] (VRef c) w3
    = Ok (VBool true) w3.
Proof.
  destruct (StateManagerExtras.getState_is_a_shallow_copy Scenario.outcome
              Scenario.store.1 Scenario.store.2
              StateManagerScenarios.store_allocated)
    as (c & w1 & Hcopy & _ & _ & _ & Htop & Hnested).
  destruct (Htop "theme" (VStr "light") eq_refl)
    as (this2 & w2 & Hset2 & Hprops2).
  { StateManagerScenarios.decided. }
  { StateManagerScenarios.decided. }
  destruct (Hnested "animations.starsActive" "animations" "starsActive" 0%nat
              (VBool true)) as (this3 & w3 & Hset3 & Hread3 & _).
  - vm_compute. reflexivity.
  - StateManagerScenarios.decided.
  - vm_compute. reflexivity.
  - vm_compute. lia.
  - vm_compute. discriminate.
  - StateManagerScenarios.decided.
  - exists c, w1, this2, w2, this3, w3. split; [exact Hcopy|]. split; [exact Hset2|].
    split; [rewrite Hprops2; vm_compute; reflexivity|].
    split; [exact Hset3|exact Hread3].
Defined.

(** On a page with the Performance interface, a measure of ["render"]
    started at clock reading 1 and ended at once lasts from reading 1 to
    reading 4. *)
Lemma measure_round_trip_witness :
  ∃ this1 w1 this2 w2,
    PerformanceMonitor.startMeasure (Scenario.monitor Scenario.page).1 "render"
      (Scenario.monitor Scenario.page).2 = Ok this1 w1 ∧
    PerformanceMonitor.endMeasure this1 "render" w1 = Ok (this2, VNum 3) w2 ∧
    PerformanceMonitor.durations this2 "render" = [3].
Proof.
  destruct (PerformanceMonitorExtras.measure_round_trip
              (Scenario.monitor Scenario.page).1 "render"
              (Scenario.monitor Scenario.page).2)
    as (this1 & w1 & this2 & w2 & this3 & w3 & Hstart & Hend & Hdur & _).
  - reflexivity.
  - constructor.
  - exists this1, w1, this2, w2. split; [exact Hstart|]. split; [exact Hend|].
    exact Hdur.
Defined.

(** From the first of three projects, "next" ends with the second
    project active and the first gone to the bottom. *)
Lemma transition_completes_witness :
  Navigation.has_class
    (Page.document
       (Page.fire_next (Page.fire_next (Page.fire_next
          (Page.fire_next
             (Page.navigateToProject
                {| Page.currentProjectIndex := 1 |} 2
                Scenario.showing_projects).2)))))
    2 "active" = true ∧
  Navigation.has_class
    (Page.document
       (Page.fire_next (Page.fire_next (Page.fire_next
          (Page.fire_next
             (Page.navigateToProject
                {| Page.currentProjectIndex := 1 |} 2
                Scenario.showing_projects).2)))))
    1 "active" = false.
Proof.
  destruct (NavigationExtras.transition_completes
              {| Page.currentProjectIndex := 1 |} 2
              Scenario.showing_projects 2%nat)
    as (_ & Hactive & _ & _ & Hcurrent & _).
  - reflexivity.
  - vm_compute. reflexivity.
  - split; [exact Hactive|].
    destruct (Hcurrent 1%nat) as [Hleft _]; [vm_compute; reflexivity|lia|].
    exact Hleft.
Defined.

(** From the first of three projects, two "next" at once end with the
    second and the third project both active. *)
Lemma rapid_next_leaves_two_active_witness :
  Navigation.has_class
    (Page.document
       (Page.fire_next (Page.fire_next (Page.fire_next
          (Page.fire_next (Page.fire_next (Page.fire_next
             (Page.fire_next (Page.fire_next
                (Page.navigateToNextProject
                   (Page.navigateToNextProject
                      {| Page.currentProjectIndex := 1 |}
                      Scenario.showing_projects).1
                   (Page.navigateToNextProject
                      {| Page.currentProjectIndex := 1 |}
                      Scenario.showing_projects).2).2)))))))))
    2 "active" = true ∧
  Navigation.has_class
    (Page.document
       (Page.fire_next (Page.fire_next (Page.fire_next
          (Page.fire_next (Page.fire_next (Page.fire_next
             (Page.fire_next (Page.fire_next
                (Page.navigateToNextProject
                   (Page.navigateToNextProject
                      {| Page.currentProjectIndex := 1 |}
                      Scenario.showing_projects).1
                   (Page.navigateToNextProject
                      {| Page.currentProjectIndex := 1 |}
                      Scenario.showing_projects).2).2)))))))))
    3 "active" = true.
Proof.
  destruct (NavigationExtras.rapid_next_leaves_two_active
              {| Page.currentProjectIndex := 1 |}
              Scenario.showing_projects 2%nat 3%nat)
    as (_ & _ & _ & Hfirst & Hsecond & _).
  - reflexivity.
  - vm_compute. reflexivity.
  - vm_compute. reflexivity.
  - split; [exact Hfirst|exact Hsecond].
Defined.

(** From home, opening the portfolio ends with the grid active and the
    home region not. *)
Lemma openPortfolio_completes_witness :
  Navigation.has_class
    (Page.document
       (Page.fire_next (Page.fire_next (Page.fire_next (Page.fire_next
          (Page.openPortfolio (PageScenario.showing PageScenario.at_home)))))))
    1 "active" = true ∧
  Navigation.has_class
    (Page.document
       (Page.fire_next (Page.fire_next (Page.fire_next (Page.fire_next
          (Page.openPortfolio (PageScenario.showing PageScenario.at_home)))))))
    0 "active" = false.
Proof.
  destruct (PageFacts.openPortfolio_completes
              (PageScenario.showing PageScenario.at_home) 0%nat 1%nat)
    as (_ & Hgrid & _ & Hhome & _).
  - reflexivity.
  - vm_compute. reflexivity.
  - vm_compute. reflexivity.
  - lia.
  - split; [exact Hgrid|exact Hhome].
Defined.

(** From the grid, going back home ends with the home region active and
    still carrying [to-top]. *)
Lemma backToHome_completes_witness :
  Navigation.has_class
    (Page.document
       (Page.fire_next (Page.fire_next (Page.fire_next
          (Page.backToHome (PageScenario.showing PageScenario.at_grid))))))
    0 "active" = true ∧
  Navigation.has_class
    (Page.document
       (Page.fire_next (Page.fire_next (Page.fire_next
          (Page.backToHome (PageScenario.showing PageScenario.at_grid))))))
    0 "to-top" = true.
Proof.
  destruct (PageFacts.backToHome_completes
              (PageScenario.showing PageScenario.at_grid) 0%nat 1%nat)
    as (_ & Hhome & _ & _ & Htop & _).
  - reflexivity.
  - vm_compute. reflexivity.
  - vm_compute. reflexivity.
  - lia.
  - split; [exact Hhome|].
    etransitivity; [exact Htop|]. vm_compute. reflexivity.
Defined.

(** The two layers of the page at home change roles. *)
Lemma switchLayers_swaps_witness :
  Navigation.has_class
    (Page.document
       (Page.switchLayers (Some 10%nat) (Some 9%nat) false
          (PageScenario.showing PageScenario.at_home)))
    10 "active-layer" = true ∧
  Navigation.has_class
    (Page.document
       (Page.switchLayers (Some 10%nat) (Some 9%nat) false
          (PageScenario.showing PageScenario.at_home)))
    9 "not-active-layer" = true.
Proof.
  destruct (PageFacts.switchLayers_swaps 10 9 false
              (PageScenario.showing PageScenario.at_home))
    as (Hn & _ & Ha & _).
  - lia.
  - vm_compute. lia.
  - vm_compute. lia.
  - split; [exact Hn|exact Ha].
Defined.

(** Opening the second item of the grid sets the index to 2 and ends
    with the second project active. *)
Lemma openPortfolioItem_completes_witness :
  Page.currentProjectIndex
    (Page.openPortfolioItem {| Page.currentProjectIndex := 0 |} 3
       (PageScenario.showing PageScenario.at_grid)).1 = 2 ∧
  Navigation.has_class
    (Page.document
       (Page.fire_next (Page.fire_next (Page.fire_next (Page.fire_next
          (Page.openPortfolioItem {| Page.currentProjectIndex := 0 |} 3
             (PageScenario.showing PageScenario.at_grid)).2)))))
    7 "active" = true.
Proof.
  destruct (PageFacts.openPortfolioItem_completes
              {| Page.currentProjectIndex := 0 |} 3
              (PageScenario.showing PageScenario.at_grid) 1%nat)
    as (Hindex & _ & _ & _ & Hactive & _).
  - reflexivity.
  - vm_compute. reflexivity.
  - pose proof (Hindex 1%nat eq_refl) as Hi. split; [exact Hi|].
    apply Hactive. rewrite Hi. vm_compute. reflexivity.
Defined.

(** From the second project, going back to the grid ends with the grid
    active and no project carrying a class of the transitions. *)
Lemma backToPortfolio_completes_witness :
  Navigation.has_class
    (Page.document
       (Page.fire_next (Page.fire_next (Page.fire_next
          (Page.backToPortfolio (PageScenario.showing PageScenario.at_project))))))
    1 "active" = true ∧
  Navigation.has_class
    (Page.document
       (Page.fire_next (Page.fire_next (Page.fire_next
          (Page.backToPortfolio (PageScenario.showing PageScenario.at_project))))))
    7 "active" = false.
Proof.
  destruct (PageFacts.backToPortfolio_completes
              (PageScenario.showing PageScenario.at_project) 1%nat)
    as (_ & Hgrid & _ & Hprojects & _).
  - reflexivity.
  - vm_compute. reflexivity.
  - vm_compute. reflexivity.
  - split; [exact Hgrid|].
    destruct (Hprojects 7%nat) as (_ & _ & Hactive); [vm_compute; reflexivity|].
    etransitivity; [exact Hactive|]. vm_compute. reflexivity.
Defined.

(** Toggling [dark] on the first element of the page at home adds it,
    and toggling it again takes it away. *)
Lemma toggleClass_toggles_witness :
  Navigation.has_class
    (Page.document
       (Page.toggleClass (Some 0%nat) "dark" None
          (PageScenario.showing PageScenario.at_home)))
    0 "dark" = true ∧
  Navigation.has_class
    (Page.document
       (Page.toggleClass (Some 0%nat) "dark" None
          (Page.toggleClass (Some 0%nat) "dark" None
             (PageScenario.showing PageScenario.at_home))))
    0 "dark" = false.
Proof.
  destruct (PageFacts.toggleClass_toggles 0 "dark" None
              (PageScenario.showing PageScenario.at_home))
    as (Hone & _ & Htwice & _).
  - reflexivity.
  - vm_compute. lia.
  - split.
    + etransitivity; [apply Hone|]. vm_compute. reflexivity.
    + etransitivity; [apply Htwice|]. vm_compute. reflexivity.
Defined.

(** With sound off on the desktop, hovering an item, clicking, a click
    on the page and the paper sound start nothing. *)
Lemma nothing_starts_while_disabled_witness :
  AudioPlayback.started
    (AudioPlayback.effects
       (foldl AudioPlayback.happens (AudioScenario.silenced, AudioScenario.desktop)
          [AudioPlayback.calls AudioPlayback.hover3;
           AudioPlayback.calls AudioPlayback.click;
           AudioPlayback.calls_resumeAudioContext;
           AudioPlayback.calls AudioPlayback.paper]).2) = [].
Proof.
  destruct (AudioPlaybackFacts.nothing_starts_while_disabled
              AudioScenario.silenced AudioScenario.desktop
              [AudioPlayback.calls AudioPlayback.hover3;
               AudioPlayback.calls AudioPlayback.click;
               AudioPlayback.calls_resumeAudioContext;
               AudioPlayback.calls AudioPlayback.paper])
    as (_ & Hstarted & _).
  - reflexivity.
  - repeat constructor; discriminate.
  - exact Hstarted.
Defined.

(** On the desktop, the manager of the source and that of the page with
    three projects start the same sounds for a click followed by the
    paper sound. *)
Lemma navigation_audio_agrees_witness :
  Navigation.played
    (Navigation.playPaper
       (Navigation.playClick
          (Page.audioManager Scenario.showing_projects))) =
  AudioPlayback.started
    (AudioPlayback.effects
       (AudioPlayback.playPaper AudioScenario.manager
          (AudioPlayback.playClick AudioScenario.manager
             (AudioPlayback.constructor AudioScenario.desktop).2))).
Proof.
  destruct (AudioPlaybackFacts.navigation_audio_agrees AudioScenario.manager
              (AudioPlayback.constructor AudioScenario.desktop).2
              (Page.audioManager Scenario.showing_projects))
    as (_ & _ & Hboth & _).
  - repeat constructor; vm_compute; eexists; reflexivity.
  - vm_compute. reflexivity.
  - vm_compute. reflexivity.
  - vm_compute. reflexivity.
  - exact Hboth.
Defined.

(** On the page at home, the mouse entering the first item from the
    right leaves it with [in-right]. *)
Lemma update_keeps_one_direction_witness :
  ∃ manager doc',
    Animations.constructor = Some manager ∧
    Animations.update manager 2 (Animations.key 1) "in" PageScenario.at_home
    = Animations.returns doc' ∧
    Navigation.has_class doc' 2 "in-right" = true.
Proof.
  destruct (AnimationsFacts.update_keeps_one_direction PageScenario.at_home
              2 1 "in")
    as (manager & dir & doc' & Hmade & Hdir & Hupdate & Hclasses & _).
  - vm_compute. lia.
  - lia.
  - left.
  - exists manager, doc'. split; [exact Hmade|]. split; [exact Hupdate|].
    rewrite Hclasses. vm_compute in Hmade. injection Hmade as <-.
    vm_compute in Hdir. injection Hdir as <-.
    vm_compute. reflexivity.
Defined.

(** On the page with the about section closed, opening it ends with
    the overlay, the container and the content active, and the click
    does not follow the link. *)
Lemma openAbout_completes_witness :
  Page.defaultPrevented
    (Page.openAbout AboutScenario.ids AboutScenario.click
       (PageScenario.showing AboutScenario.about_closed)).1 = true ∧
  Page.document
    (Page.fire_next (Page.fire_next
       (Page.openAbout AboutScenario.ids AboutScenario.click
          (PageScenario.showing AboutScenario.about_closed)).2)) =
  AboutScenario.about_open.
Proof.
  destruct (AboutFacts.openAbout_completes AboutScenario.ids AboutScenario.click
              (PageScenario.showing AboutScenario.about_closed))
    as (Hprevented & _).
  - reflexivity.
  - split; [exact Hprevented|]. vm_compute. reflexivity.
Defined.

(** On the page with the about section open, closing it ends with the
    overlay, the container and the content inactive and the container
    scrolled to the top. *)
Lemma closeAbout_completes_witness :
  Page.scrollTop
    (Page.fire_next (Page.fire_next (Page.fire_next (Page.fire_next
       (Page.closeAbout AboutScenario.ids
          (PageScenario.showing AboutScenario.about_open)))))) !! 2%nat
  = Some 0 ∧
  Navigation.has_class
    (Page.document
       (Page.fire_next (Page.fire_next (Page.fire_next (Page.fire_next
          (Page.closeAbout AboutScenario.ids
             (PageScenario.showing AboutScenario.about_open)))))))
    3 "active" = false.
Proof.
  destruct (AboutFacts.closeAbout_completes AboutScenario.ids
              (PageScenario.showing AboutScenario.about_open))
    as (_ & _ & Hclasses & Hscroll & _).
  - reflexivity.
  - split.
    + rewrite Hscroll. vm_compute. reflexivity.
    + rewrite Hclasses. vm_compute. reflexivity.
Defined.

(** On the page with the about section closed, opening it and closing it
    50 ms later ends with the content active under an inactive
    overlay. *)
Lemma quick_close_leaves_content_active_witness :
  Navigation.has_class
    (Page.document
       (Nat.iter 6 Page.fire_next
          (Page.closeAbout AboutScenario.ids
             (Page.later 50
                (Page.openAbout AboutScenario.ids AboutScenario.click
                   (PageScenario.showing AboutScenario.about_closed)).2))))
    3 "active" = true ∧
  Navigation.has_class
    (Page.document
       (Nat.iter 6 Page.fire_next
          (Page.closeAbout AboutScenario.ids
             (Page.later 50
                (Page.openAbout AboutScenario.ids AboutScenario.click
                   (PageScenario.showing AboutScenario.about_closed)).2))))
    1 "active" = false.
Proof.
  destruct (AboutFacts.quick_close_leaves_content_active AboutScenario.ids
              AboutScenario.click
              (PageScenario.showing AboutScenario.about_closed) false 50 3)
    as (_ & Hcontent & Hother).
  - reflexivity.
  - vm_compute. reflexivity.
  - lia.
  - split; [exact Hcontent|]. apply Hother.
    vm_compute. left.
Defined.

End ExtraScenarios.
